(** * Wrapper generator [scripts/gen.py]: signature rewriting and wrapper synthesis

    A shallow embedding of the signature emitter, the three signature
    transforms, the reference-parameter election and the wrapper synthesis of
    [scripts/gen.py], with the properties of its specification.

    The two lark parsers are not part of the repository: they are fields of
    an environment record, functions from text to a parse tree that may
    fail.  What lark hands back for a signature is described by derivations
    of [_GRAMMAR] with the text in front of every token ([Sig], [lay_sig],
    [locate]). *)

From Stdlib Require Import ZArith Ascii String List Lia Bool.
From stdpp Require Import base option list strings gmap pretty.

Set Warnings "-register-all".

Open Scope string_scope.
Open Scope list_scope.
Open Scope Z_scope.

(** ** Python strings and lists *)

Definition py_len (s : string) : Z := Z.of_nat (String.length s).

(** An index of a slice: negative indices count from the end, and the result
    is clamped to the string. *)
Definition py_clamp (n i : Z) : Z :=
  if i <? 0 then Z.max 0 (i + n) else Z.min i n.

(** [s[a:b]] *)
Definition py_slice (s : string) (a b : Z) : string :=
  let a' := py_clamp (py_len s) a in
  let b' := py_clamp (py_len s) b in
  substring (Z.to_nat a') (Z.to_nat (b' - a')) s.

(** [s.find(sub)] *)
Definition py_find (s sub : string) : Z :=
  match String.index 0 sub s with
  | Some i => Z.of_nat i
  | None => -1
  end.

(** [sep.join(l)] *)
Fixpoint py_join (sep : string) (l : list string) : string :=
  match l with
  | [] => ""
  | [x] => x
  | x :: r => x +:+ sep +:+ py_join sep r
  end.

(** [l[n]]: negative indices count from the end, [None] is IndexError. *)
Definition py_nth {A} (l : list A) (n : Z) : option A :=
  let len := Z.of_nat (length l) in
  if n <? 0 then
    (if 0 <=? n + len then l !! Z.to_nat (n + len) else None)
  else l !! Z.to_nat n.

(** ['{}'.format(x)] for an [x] that is a string or [None]. *)
Definition py_str_opt (x : option string) : string :=
  match x with
  | Some s => s
  | None => "None"
  end.

(** Truth value of a string. *)
Definition py_truthy (s : string) : bool := negb (String.eqb s "").

(** The line feed and the double quote. *)
Definition nl : string := String (ascii_of_nat 10) "".
Definition dq : string := String (ascii_of_nat 34) "".

Definition assert (b : bool) : option unit := if b then Some tt else None.

(** ** lark trees *)

(** A node of a lark parse tree: a [Token] with its type, value and 1-based
    column span, or a [Tree] with the name of its rule and its children. *)
Inductive Node : Type :=
| Token (type value : string) (column end_column : Z)
| Tree (data : string) (children : list Node).

Definition is_Token (t : Node) : bool :=
  match t with Token _ _ _ _ => true | Tree _ _ => false end.

Definition is_Tree (t : Node) : bool := negb (is_Token t).

(** [t.children], [t.data], [t.value]: an attribute a node does not have is an
    AttributeError. *)
Definition children (t : Node) : option (list Node) :=
  match t with Tree _ cs => Some cs | Token _ _ _ _ => None end.

Definition data (t : Node) : option string :=
  match t with Tree d _ => Some d | Token _ _ _ _ => None end.

Definition value (t : Node) : option string :=
  match t with Token _ v _ _ => Some v | Tree _ _ => None end.

(** [isinstance(t, Tree) and t.data == d] *)
Definition is_Tree_with (d : string) (t : Node) : bool :=
  match t with Tree d' _ => String.eqb d' d | Token _ _ _ _ => false end.

(** [isinstance(c, Token) and c.value == v] *)
Definition is_Token_with (v : string) (t : Node) : bool :=
  match t with Token _ v' _ _ => String.eqb v' v | Tree _ _ => false end.

(** [a == b] on nodes: a tree compares its rule name and its children, a
    token its type and its text; positions are not compared. *)
Fixpoint node_eqb (a b : Node) : bool :=
  match a, b with
  | Token ty v _ _, Token ty' v' _ _ => String.eqb ty ty' && String.eqb v v'
  | Tree d cs, Tree d' cs' =>
      String.eqb d d' &&
      (fix go (l l' : list Node) : bool :=
         match l, l' with
         | [], [] => true
         | x :: r, x' :: r' => node_eqb x x' && go r r'
         | _, _ => false
         end) cs cs'
  | _, _ => false
  end.

Fixpoint last_match (t : Node) : option Z :=
  match t with
  | Token _ _ _ e => Some (e - 1)
  | Tree _ cs =>
      (fix go (l : list Node) : option Z :=
         match l with
         | [] => None
         | [c] => last_match c
         | _ :: r => go r
         end) cs
  end.

Fixpoint first_match (t : Node) : option Z :=
  match t with
  | Token _ _ c _ => Some (c - 1)
  | Tree _ cs =>
      match cs with
      | [] => None
      | c :: _ => first_match c
      end
  end.

(** [for_every_token(t, fn)] for an [fn] that acts on a state. *)
Fixpoint for_every_token {S : Type} (t : Node) (fn : Node -> S -> option S)
    (s : S) : option S :=
  match t with
  | Token _ _ _ _ => fn t s
  | Tree _ cs =>
      (fix go (l : list Node) (s : S) : option S :=
         match l with
         | [] => Some s
         | c :: r =>
             match for_every_token c fn s with
             | Some s' => go r s'
             | None => None
             end
         end) cs s
  end.

(** [for_every_token(t, fn)] for an [fn] that assigns to the token it is
    given: the tree with every token updated. *)
Fixpoint for_every_token_upd (t : Node) (fn : Node -> Node) : Node :=
  match t with
  | Token _ _ _ _ => fn t
  | Tree d cs => Tree d (map (fun c => for_every_token_upd c fn) cs)
  end.

(** ** The emitter *)

Module StringEmit.

Record t : Type := mk { sref : string; sval : string; pos : Z }.

Definition init (sref : string) : t := mk sref "" (-1).

Definition repr (e : t) : string := sval e.

Definition advance (e : t) (tok : Node) : option t :=
  match tok with
  | Token _ v column end_column =>
      let start := column - 1 in
      let end_ := end_column - 1 in
      let p := if 0 <=? pos e then pos e else start in
      let sval1 :=
        if p <? start then sval e +:+ py_slice (sref e) p start else sval e in
      Some (mk (sref e) (sval1 +:+ v) end_)
  | Tree _ _ => None
  end.

Definition skip (e : t) (tk : Node) : option t :=
  if 0 <=? pos e then
    match last_match tk with
    | Some p => Some (mk (sref e) (sval e) p)
    | None => None
    end
  else Some (mk (sref e) (sval e) (-1)).

Definition append (e : t) (s : string) : t :=
  mk (sref e) (sval e +:+ s) (-1).

End StringEmit.

Fixpoint emit_string (t : Node) (emit_fn : Node -> Z) (emit : StringEmit.t)
    : option StringEmit.t :=
  let status := emit_fn t in
  if 0 <? status then
    for_every_token t (fun tok e => StringEmit.advance e tok) emit
  else if status =? 0 then
    match t with
    | Token _ _ _ _ => StringEmit.advance emit t
    | Tree _ cs =>
        (fix go (l : list Node) (e : StringEmit.t) : option StringEmit.t :=
           match l with
           | [] => Some e
           | c :: r =>
               match emit_string c emit_fn e with
               | Some e' => go r e'
               | None => None
               end
           end) cs emit
    end
  else StringEmit.skip emit t.

Definition typed_child (t : Node) (n : Z) (ttype : string) : option Node :=
  cs ← children t;
  _ ← assert (n <? Z.of_nat (length cs));
  c ← py_nth cs n;
  _ ← assert (is_Tree_with ttype c);
  Some c.

(** The default policy of [rewrite_sig], [lambda x: 0]. *)
Definition emit_all (t : Node) : Z := 0.

Definition rewrite_sig (tree : Node) (orig_sig : string) (emit_fn : Node -> Z)
    : option string :=
  emit ← emit_string tree emit_fn (StringEmit.init orig_sig);
  Some (StringEmit.repr emit).

(** ** Tables and parsers *)

(** [FuncOpts]: a named tuple with one field, [None] by default. *)
Record FuncOpts : Type := { ref_param : option string }.

(** What the generator reads and never writes: the two lark parsers
    ([None] is a parse error), the blacklists (a pattern of
    [_FN_BLACKLIST_REGEX] is the function [s ↦ re.match(frx, s)]) and the
    configuration tables. *)
Record Env : Type := {
  parser : string -> option Node;
  xparser : string -> option Node;
  fn_blacklist : gset string;
  fn_blacklist_regex : list (string -> bool);
  type_nsmap : gmap string string;
  xla_functions : gmap string string;
  ctor_functions : gmap string string;
  function_options : gmap string FuncOpts;
}.

Definition _RESULT_NAME : string := "x_result".

(** ** Signature transforms *)

Definition rewrite_signature_rewrite (tmap : gmap string string) (t : Node)
    : Node :=
  match t with
  | Token ty v c e =>
      if String.eqb ty "TNAME" then
        match tmap !! v with
        | Some new_type => Token ty new_type c e
        | None => t
        end
      else t
  | Tree _ _ => t
  end.

Definition rewrite_signature_emit_fn (t : Node) : Z :=
  match t with
  | Token _ _ _ _ => 0
  | Tree d _ => if String.eqb d "param_defval" then -1 else 0
  end.

Definition rewrite_signature (E : Env) (sig : string)
    (tmap : gmap string string) : option string :=
  xtree ← xparser E sig;
  rewrite_sig (for_every_token_upd xtree (rewrite_signature_rewrite tmap)) sig
    rewrite_signature_emit_fn.

Definition create_stdfunc_sig_emit_fn (t : Node) : Z :=
  match t with
  | Token _ _ _ _ => 0
  | Tree d _ => if String.eqb d "param_name" then -1 else 0
  end.

Definition create_stdfunc_sig (tree : Node) (orig_sig : string)
    : option string :=
  let emit := StringEmit.init orig_sig in
  c ← typed_child tree 0 "type";
  emit ← emit_string c create_stdfunc_sig_emit_fn emit;
  let emit := StringEmit.append emit "(" in
  c ← typed_child tree 3 "params";
  emit ← emit_string c create_stdfunc_sig_emit_fn emit;
  let emit := StringEmit.append emit ")" in
  Some (StringEmit.repr emit).

Definition create_map_sig_emit_fn (t : Node) : Z :=
  match t with
  | Token ty _ _ _ =>
      if String.eqb ty "CONST" || String.eqb ty "REF" || String.eqb ty "PTR"
      then -1 else 0
  | Tree d _ => if String.eqb d "param_name" then -1 else 0
  end.

Definition create_map_sig (tree : Node) (orig_sig : string) : option string :=
  let emit := StringEmit.init orig_sig in
  c ← typed_child tree 1 "fnname";
  emit ← emit_string c create_map_sig_emit_fn emit;
  let emit := StringEmit.append emit "(" in
  c ← typed_child tree 3 "params";
  emit ← emit_string c create_map_sig_emit_fn emit;
  let emit := StringEmit.append emit ") -> " in
  c ← typed_child tree 0 "type";
  emit ← emit_string c create_map_sig_emit_fn emit;
  Some (StringEmit.repr emit).

(** ** Reading the compact tree *)

Definition type_core (t : Node) : option string :=
  cs ← children t;
  match list_find (is_Tree_with "core_type") cs with
  | Some (_, c) =>
      cs' ← children c;
      c ← py_nth cs' 0;
      match c with
      | Token _ v _ _ => Some v
      | Tree _ cs'' =>
          _ ← assert (is_Tree_with "template" c);
          c ← py_nth cs'' 0;
          value c
      end
  | None => None
  end.

Definition type_is_const (t : Node) : option bool :=
  cs ← children t;
  c ← py_nth cs 0;
  Some (is_Token_with "const" c).

Definition type_is_refptr (t : Node) (kind : string) : option bool :=
  cs ← children t;
  c ← py_nth cs (-1);
  if negb (is_Tree_with "refspec" c) then Some false
  else
    cs' ← children c;
    c ← py_nth cs' 0;
    Some (is_Token_with kind c).

Fixpoint extract_list (t : Node) (l : list Node) : option (list Node) :=
  match t with
  | Token _ _ _ _ => None
  | Tree d cs =>
      match cs with
      | [] => None
      | c0 :: rest =>
          let l := l ++ [c0] in
          match rest with
          | [c] =>
              match c with
              | Tree d' _ => if String.eqb d' d then extract_list c l else Some l
              | Token _ _ _ _ => Some l
              end
          | _ => Some l
          end
      end
  end.

Definition tuple_type_list (t : Node) : option (list Node) :=
  cs ← children t;
  c ← py_nth cs 0;
  _ ← assert (is_Tree_with "core_type" c);
  cs ← children c;
  c ← py_nth cs 0;
  _ ← assert (is_Tree_with "template" c);
  cs ← children c;
  c ← py_nth cs 1;
  extract_list c [].

Definition get_parameters (t : Node) : option (list Node) :=
  cs ← children t;
  c ← py_nth cs 2;
  _ ← assert (is_Tree_with "params" c);
  extract_list c [].

Definition param_name (t : Node) : option string :=
  cs ← children t;
  c ← py_nth cs 1;
  _ ← assert (is_Tree_with "param_name" c);
  cs ← children c;
  token ← py_nth cs 0;
  _ ← assert (is_Token token);
  value token.

Definition param_type (t : Node) : option Node :=
  cs ← children t;
  c ← py_nth cs 0;
  _ ← assert (is_Tree c);
  Some c.

Definition list_get {A} (l : list A) (n : nat) : option A := l !! n.

(** ** Reference parameter *)

(** [fnopts and fnopts.ref_param == pname] *)
Definition fnopts_names (fnopts : option FuncOpts) (pname : string) : bool :=
  match fnopts with
  | Some o =>
      match ref_param o with
      | Some r => String.eqb r pname
      | None => false
      end
  | None => false
  end.

(** [fnopts and fnopts.ref_param] as a truth value *)
Definition fnopts_has_ref_param (fnopts : option FuncOpts) : bool :=
  match fnopts with
  | Some o =>
      match ref_param o with
      | Some r => py_truthy r
      | None => false
      end
  | None => false
  end.

(** The loop of [get_reference_param], from the values [ref_param] and
    [other] have when it reaches [params]. *)
Fixpoint get_reference_param_from (params : list Node)
    (fnopts : option FuncOpts) (ref_param other : option Node)
    : option (option Node) :=
  match params with
  | [] => Some (match ref_param with Some _ => ref_param | None => other end)
  | p :: params =>
      ptype ← param_type p;
      cptype ← type_core ptype;
      pname ← param_name p;
      if fnopts_names fnopts pname then Some (Some p)
      else
        let other :=
          if negb (bool_decide (is_Some other)) &&
             (String.eqb cptype "TensorOptions" || String.eqb cptype "TensorList")
          then Some p else other in
        if negb (String.eqb cptype "Tensor") then
          get_reference_param_from params fnopts ref_param other
        else
          elected ←
            (if bool_decide (is_Some ref_param) then Some false
             else if String.eqb pname "self" then Some true
             else type_is_const ptype);
          let ref_param := if elected : bool then Some p else ref_param in
          get_reference_param_from params fnopts ref_param (Some p)
  end.

Definition get_reference_param (params : list Node) (fnopts : option FuncOpts)
    : option (option Node) :=
  get_reference_param_from params fnopts None None.

(** ** Wrapper synthesis *)

Record Context : Type := {
  gen_class_mode : bool;
  defdb : gmap string Z;
  functions_data : string;
  native_functions_data : string;
}.

Definition set_defdb (ctx : Context) (d : gmap string Z) : Context :=
  {| gen_class_mode := gen_class_mode ctx;
     defdb := d;
     functions_data := functions_data ctx;
     native_functions_data := native_functions_data ctx |}.

(** [Context.get_function] *)
Definition get_function (ctx : Context) (name : string)
    (ref_param : option string) : string :=
  if 0 <=? py_find (functions_data ctx) (" " +:+ name +:+ "(") then
    "at::" +:+ name
  else if 0 <=? py_find (native_functions_data ctx) (" " +:+ name +:+ "(") then
    "at::native::" +:+ name
  else "at::detail::infer_type(" +:+ py_str_opt ref_param +:+ ")." +:+ name.

Module TensorFetcher.

Record t : Type := mk {
  var_name : string;
  tensors : list string;
  writeable : list string;
}.

Definition init (var_name : string) : t := mk var_name [] [].

Definition add (f : t) (name : string) (w : bool) : string * t :=
  let tensors := tensors f ++ [name] in
  let writeable := writeable f ++ [if w then "true" else "false"] in
  (var_name f +:+ "[" +:+ pretty (Z.of_nat (length tensors) - 1) +:+ "]",
   mk (var_name f) tensors writeable).

Definition generate (f : t) : string :=
  let tvar_name := var_name f +:+ "_tensors" in
  let wvar_name := var_name f +:+ "_writeables" in
  "  std::vector<at::Tensor> " +:+ tvar_name +:+ " = {" +:+
    py_join ", " (tensors f) +:+ "};" +:+ nl +:+
  "  std::vector<bool> " +:+ wvar_name +:+ " = {" +:+
    py_join ", " (writeable f) +:+ "};" +:+ nl +:+
  "  auto " +:+ var_name f +:+ " = bridge::XlaCreateTensorList(" +:+
    tvar_name +:+ ", &" +:+ wvar_name +:+ ");" +:+ nl.

End TensorFetcher.

Definition is_blacklisted_fn (E : Env) (fname mapsig : string) : bool :=
  if bool_decide (fname ∈ fn_blacklist E) || bool_decide (mapsig ∈ fn_blacklist E)
  then true
  else existsb (fun frx => frx fname || frx mapsig) (fn_blacklist_regex E).

(** State of one run: the functions that call [gen_fnname] take the context
    and give it back, also when they raise. *)
Definition M (A : Type) : Type := Context -> option A * Context.

Definition ret {A} (a : A) : M A := fun ctx => (Some a, ctx).

Definition bind {A B} (m : M A) (k : A -> M B) : M B :=
  fun ctx =>
    match m ctx with
    | (Some a, ctx') => k a ctx'
    | (None, ctx') => (None, ctx')
    end.

Definition lift {A} (o : option A) : M A := fun ctx => (o, ctx).

#[global] Instance M_ret : MRet M := @ret.
#[global] Instance M_bind : MBind M := fun A B k m => bind m k.

(** The name of the wrapper, with the overload counter of the run. *)
Definition gen_fnname (x : string) : M string :=
  fun ctx =>
    if gen_class_mode ctx then (Some ("AtenXlaTypeBase::" +:+ x), ctx)
    else
      match defdb ctx !! x with
      | Some n =>
          (Some ("xla_" +:+ x +:+ ("_" +:+ pretty n)),
           set_defdb ctx (<[x := n + 1]> (defdb ctx)))
      | None =>
          (Some ("xla_" +:+ x +:+ ""), set_defdb ctx (<[x := 1]> (defdb ctx)))
      end.

Definition get_function_signature (t : Node) (orig_sig : string)
    (namefn : string -> M string) : M (string * string * string) :=
  let emit := StringEmit.init orig_sig in
  c ← lift (typed_child t 0 "type");
  emit ← lift (emit_string c emit_all emit);
  fnname ← lift (c ← typed_child t 1 "fnname"; cs ← children c; py_nth cs 0);
  fname ← lift (value fnname);
  xfname ← namefn fname;
  let emit := StringEmit.append emit (" " +:+ xfname +:+ "(") in
  c ← lift (typed_child t 3 "params");
  emit ← lift (emit_string c emit_all emit);
  let emit := StringEmit.append emit ")" in
  ret (StringEmit.repr emit, fname, xfname).

(** [get_return_value]: [rname] and the result are Python values that are a
    string or [None]; [param] is a tree or [None]. *)
Definition get_return_value (rtype : Node) (rname : option string)
    (param : option Node) (var : option string) (ref_param : option Node)
    : option (option string) :=
  crtype ← type_core rtype;
  is_const ← type_is_const rtype;
  is_ref ← (if is_const : bool then Some true else type_is_refptr rtype "&");
  if is_ref : bool then
    param ← param;
    name ← param_name param;
    Some (Some name)
  else if negb (String.eqb crtype "Tensor") then Some rname
  else
    ref_param ← ref_param;
    name ← param_name ref_param;
    Some (Some ("bridge::CreateXlaTensor(" +:+ py_str_opt rname +:+
                ", bridge::GetXlaDevice(" +:+ name +:+ "))")).

Fixpoint get_tuple_return_from (types : list Node) (i : nat) (retstr : string)
    (rname : option string) (params : list Node) (param_vars : list string)
    (ref_param : option Node) : option string :=
  match types with
  | [] => Some retstr
  | ttype :: types =>
      let retstr := if (0 <? i)%nat then retstr +:+ ", " else retstr in
      let tuple_var :=
        "std::get<" +:+ pretty (Z.of_nat i) +:+ ">(" +:+ py_str_opt rname +:+ ")" in
      v ← get_return_value ttype (Some tuple_var) (list_get params i)
            (list_get param_vars i) ref_param;
      v ← v;
      get_tuple_return_from types (S i) (retstr +:+ v) rname params param_vars
        ref_param
  end.

Definition get_tuple_return (rtype : Node) (rtype_str : string)
    (rname : option string) (params : list Node) (param_vars : list string)
    (ref_param : option Node) : option string :=
  types ← tuple_type_list rtype;
  retstr ← get_tuple_return_from types 0 (rtype_str +:+ "(") rname params
              param_vars ref_param;
  Some (retstr +:+ ")").

Definition get_return_type_str (t : Node) (orig_sig : string) : option string :=
  cs ← children t;
  fname ← py_nth cs 1;
  _ ← assert (is_Tree_with "fnname" fname);
  cs ← children fname;
  token ← py_nth cs 0;
  match token with
  | Token _ _ column _ => Some (py_slice orig_sig 0 (column - 2))
  | Tree _ _ => None
  end.

Definition generate_debug_code (t : Node) (fname : string)
    (rname : option string) (params : list Node) (param_vars : list string)
    (ref_param : option Node) : string :=
  "  XLA_COUNTER(" +:+ dq +:+ "aten::" +:+ fname +:+ dq +:+ ", 1);" +:+ nl.

Definition generate_return_stmt (t : Node) (rtype_str : string) (fname : string)
    (rname : option string) (params : list Node) (param_vars : list string)
    (ref_param : option Node) : option string :=
  cs ← children t;
  rtype ← py_nth cs 0;
  ctype ← type_core rtype;
  let finish (retstr : option string) :=
    "  return " +:+ py_str_opt retstr +:+ ";" +:+ nl in
  if String.eqb ctype "std::tuple" then
    retstr ← get_tuple_return rtype rtype_str rname params param_vars ref_param;
    Some (finish (Some retstr))
  else if String.eqb ctype "std::vector" then
    ref_param ← ref_param;
    name ← param_name ref_param;
    Some (finish (Some ("bridge::CreateXlaTensors(" +:+ py_str_opt rname +:+
                        ", bridge::GetXlaDevice(" +:+ name +:+ "))")))
  else if String.eqb ctype "Tensor" then
    param ← py_nth params 0;
    var ← py_nth param_vars 0;
    retstr ← get_return_value rtype rname (Some param) (Some var) ref_param;
    Some (finish retstr)
  else
    is_void ← (if String.eqb ctype "void" then
                 is_ptr ← type_is_refptr rtype "*"; Some (negb is_ptr)
               else Some false);
    if is_void : bool then Some "" else Some (finish rname).

Definition generate_result_assignment (t : Node) (rname : string)
    : option string :=
  cs ← children t;
  rtype ← py_nth cs 0;
  ctype ← type_core rtype;
  is_void ← (if String.eqb ctype "void" then
               is_ptr ← type_is_refptr rtype "*"; Some (negb is_ptr)
             else Some false);
  if is_void : bool then Some "" else Some ("auto&& " +:+ rname +:+ " = ").

Definition get_handling_function (E : Env) (ctx : Context) (fname : string)
    (xla_ref_param : option string) : string :=
  match xla_functions E !! fname with
  | Some xla_function =>
      if py_truthy xla_function then xla_function
      else get_function ctx fname xla_ref_param
  | None => get_function ctx fname xla_ref_param
  end.

Definition rewrite_tensor_options (E : Env) (fname pname : string)
    : string * string :=
  match ctor_functions E !! fname with
  | None => ("", pname)
  | Some rw =>
      let xname := "o_" +:+ pname in
      ("  at::TensorOptions " +:+ xname +:+ " = " +:+ pname +:+ rw +:+ ";" +:+ nl, xname)
  end.

Module FuncGen.
Record t : Type := mk {
  tree : Node;
  xtree : Node;
  rwxtree : Node;
  func : string;
  xfunc : string;
  code : string;
  sig : string;
  rwsig : string;
  cppsig : string;
  funsig : string;
  mapsig : string;
}.
End FuncGen.

(** [p == ref_param], with [ref_param] a tree or [None]. *)
Definition is_ref_param (p : Node) (ref_param : option Node) : bool :=
  match ref_param with
  | Some r => node_eqb p r
  | None => false
  end.

(** The loop over the parameters in [get_xla_wrapper]: the code so far, the
    tensor fetcher, the variables of the parameters and the variable of the
    reference parameter. *)
Fixpoint wrapper_params (E : Env) (fname : string) (params : list Node)
    (ref_param : option Node) (fnopts : option FuncOpts) (code : string)
    (tfetcher : TensorFetcher.t) (param_vars : list string)
    (xla_ref_param : option string)
    : option (string * TensorFetcher.t * list string * option string) :=
  match params with
  | [] => Some (code, tfetcher, param_vars, xla_ref_param)
  | p :: params =>
      ptype ← param_type p;
      cptype ← type_core ptype;
      pname ← param_name p;
      '(code, tfetcher, param_vars) ←
        (if String.eqb cptype "TensorList" then
           let xname := "l_" +:+ pname in
           Some (code +:+ ("  auto " +:+ xname +:+
                           " = bridge::XlaCreateTensorList(" +:+ pname +:+
                           ", /*writeable=*/nullptr);" +:+ nl),
                 tfetcher, param_vars ++ [xname])
         else if String.eqb cptype "TensorOptions" then
           let '(gcode, xname) := rewrite_tensor_options E fname pname in
           Some (code +:+ gcode, tfetcher, param_vars ++ [xname])
         else if negb (String.eqb cptype "Tensor") then
           Some (code, tfetcher, param_vars ++ [pname])
         else
           is_const ← type_is_const ptype;
           let '(xname, tfetcher) :=
             TensorFetcher.add tfetcher pname (negb is_const) in
           Some (code, tfetcher, param_vars ++ [xname]));
      xla_ref_param ←
        (if is_ref_param p ref_param && negb (fnopts_has_ref_param fnopts)
         then v ← py_nth param_vars (-1); Some (Some v)
         else Some xla_ref_param);
      wrapper_params E fname params ref_param fnopts code tfetcher param_vars
        xla_ref_param
  end.

Definition get_ctx : M Context := fun ctx => (Some ctx, ctx).

Definition get_xla_wrapper (E : Env) (orig_sig : string)
    : M (option FuncGen.t) :=
  tree ← lift (parser E orig_sig);
  xtree ← lift (xparser E orig_sig);
  mapsig ← lift (create_map_sig xtree orig_sig);
  rwsig ← lift (rewrite_signature E orig_sig (type_nsmap E));
  rwxtree ← lift (xparser E rwsig);
  params ← lift (get_parameters tree);
  let fnopts := function_options E !! mapsig in
  ref_param ← lift (get_reference_param params fnopts);
  r ← get_function_signature rwxtree rwsig gen_fnname;
  let '(sig, fname, xfname) := r in
  if is_blacklisted_fn E fname mapsig then ret None
  else
    ctx ← get_ctx;
    let code :=
      sig +:+ " " +:+ (if gen_class_mode ctx then "const " else "") +:+ "{" +:+ nl in
    xla_ref_param ←
      lift (match ref_param with
            | Some r => name ← param_name r; Some (Some name)
            | None => Some None
            end);
    let tfetcher := TensorFetcher.init "xlatens" in
    r ← lift (wrapper_params E fname params ref_param fnopts code tfetcher []
                xla_ref_param);
    let '(code, tfetcher, param_vars, xla_ref_param) := r in
    let code := code +:+ TensorFetcher.generate tfetcher in
    result_assign ← lift (generate_result_assignment tree _RESULT_NAME);
    let code :=
      code +:+ ("  " +:+ result_assign +:+
                get_handling_function E ctx fname xla_ref_param +:+ "(") in
    let code := code +:+ py_join ", " param_vars in
    let code := code +:+ (");" +:+ nl) in
    let code :=
      if py_truthy result_assign then
        code +:+ ("  static_cast<void>(" +:+ _RESULT_NAME +:+
                  "); // Avoid warnings in case not used" +:+ nl)
      else code in
    let rname := if py_truthy result_assign then Some _RESULT_NAME else None in
    let code :=
      code +:+ generate_debug_code tree fname rname params param_vars ref_param in
    rtype_str ← lift (get_return_type_str rwxtree rwsig);
    stmt ← lift (generate_return_stmt tree rtype_str fname rname params
                   param_vars ref_param);
    let code := code +:+ stmt in
    let code := code +:+ "}" in
    funsig ← lift (create_stdfunc_sig rwxtree rwsig);
    ret (Some (FuncGen.mk tree xtree rwxtree fname xfname code orig_sig rwsig
                 sig funsig mapsig)).

(** ** The batch *)

(** The loop of [generate]: a signature whose wrapper raises is reported and
    left out, one whose wrapper is [None] is left out. *)
Fixpoint generate_fgens (E : Env) (fndefs : list string) (ctx : Context)
    : list FuncGen.t * Context :=
  match fndefs with
  | [] => ([], ctx)
  | ts :: fndefs =>
      match get_xla_wrapper E ts ctx with
      | (Some (Some fgen), ctx) =>
          let '(fgens, ctx) := generate_fgens E fndefs ctx in
          (fgen :: fgens, ctx)
      | (_, ctx) => generate_fgens E fndefs ctx
      end
  end.

Definition generate_registrations (fgens : list FuncGen.t) : string :=
  "void RegisterAtenTypeFunctions() {" +:+ nl +:+
  fold_left
    (fun code fgen =>
       code +:+ ("  at::register_extension_backend_op(" +:+ nl +:+
                 "    at::Backend::XLA," +:+ nl +:+ "    " +:+ dq +:+
                 FuncGen.mapsig fgen +:+ dq +:+ "," +:+ nl +:+ "    &" +:+
                 FuncGen.xfunc fgen +:+ ");" +:+ nl))
    fgens "" +:+
  "}" +:+ nl.

Definition generate_functions (fgens : list FuncGen.t) : string :=
  fold_left (fun code fgen => code +:+ (FuncGen.code fgen +:+ nl +:+ nl))
    fgens "".

Definition generate_class_functions (fgens : list FuncGen.t) : string :=
  fold_left
    (fun code fgen =>
       code +:+ ("  " +:+ FuncGen.rwsig fgen +:+ " const override;" +:+ nl))
    fgens "".

(** ** The tables of the script *)

Definition _FN_BLACKLIST : gset string :=
  list_to_set
    [ "toBackend"; "toScalarType"; "backward"; "set_data"; "tensorFromBlob";
      "tensorWithAllocator"; "storageFromBlob"; "storageWithAllocator";
      "unsafeStorageFromTH"; "unsafeTensorFromTH"; "ones_like"; "zeros_like" ].

(** [re.match(r'[^(]*cudnn', s)]: some prefix of [s] without an opening
    parenthesis is followed by [cudnn]. *)
Fixpoint re_match_cudnn (s : string) : bool :=
  String.prefix "cudnn" s ||
  match s with
  | EmptyString => false
  | String c r => negb (Ascii.eqb c "(") && re_match_cudnn r
  end.

Definition _FN_BLACKLIST_REGEX : list (string -> bool) := [ re_match_cudnn ].

Definition _TYPE_NSMAP : gmap string string :=
  list_to_map
    [ ("Tensor", "at::Tensor"); ("TensorList", "at::TensorList");
      ("Scalar", "at::Scalar"); ("Storage", "at::Storage");
      ("IntList", "at::IntList"); ("IntArrayRef", "at::IntArrayRef");
      ("Generator", "at::Generator"); ("ScalarType", "at::ScalarType");
      ("TensorOptions", "at::TensorOptions");
      ("SparseTensorRef", "at::SparseTensorRef"); ("Device", "c10::Device");
      ("optional", "at::optional") ].

Definition _XLA_FUNCTIONS : gmap string string := ∅.

Definition _CTOR_FUNCTIONS : gmap string string :=
  list_to_map
    [ ("empty", ".device(at::DeviceType::CPU)");
      ("linspace", ".device(at::DeviceType::CPU)");
      ("logspace", ".device(at::DeviceType::CPU)");
      ("ones", ".device(at::DeviceType::CPU)");
      ("randn", ".device(at::DeviceType::CPU)");
      ("zeros", ".device(at::DeviceType::CPU)") ].

Definition _FUNCTION_OPTIONS : gmap string FuncOpts :=
  list_to_map
    [ ("to(Tensor, TensorOptions, bool, bool) -> Tensor",
       {| ref_param := Some "options" |});
      ("to(Tensor, Device, ScalarType, bool, bool) -> Tensor",
       {| ref_param := Some "device" |});
      ("to(Tensor, Tensor, bool, bool) -> Tensor",
       {| ref_param := Some "other" |}) ].

(** The environment of the script, around two parsers. *)
Definition gen_env (P XP : string -> option Node) : Env :=
  {| parser := P;
     xparser := XP;
     fn_blacklist := _FN_BLACKLIST;
     fn_blacklist_regex := _FN_BLACKLIST_REGEX;
     type_nsmap := _TYPE_NSMAP;
     xla_functions := _XLA_FUNCTIONS;
     ctor_functions := _CTOR_FUNCTIONS;
     function_options := _FUNCTION_OPTIONS |}.

(** ** Derivations of the grammar *)

(** A parse tree before lark numbers its columns: every token comes with the
    ignored text in front of it ([gap], white space), the text it was read
    from ([src]) and the value it holds ([value], which [rewrite_signature]
    changes). *)
Inductive Lay : Type :=
| LTok (type gap src value : string)
| LTree (data : string) (children : list Lay).

(** The text a tree was read from. *)
Fixpoint ltext (l : Lay) : string :=
  match l with
  | LTok _ g src _ => g +:+ src
  | LTree _ cs => fold_right (fun c s => ltext c +:+ s) "" cs
  end.

Fixpoint width (l : Lay) : Z :=
  match l with
  | LTok _ g src _ => py_len g + py_len src
  | LTree _ cs => fold_right (fun c n => width c + n) 0 cs
  end.

(** The tree lark builds when the text of [l] starts at offset [p] of a
    one-line signature: a token that starts at offset [s] and ends before
    offset [e] has [column = s + 1] and [end_column = e + 1]. *)
Fixpoint locate (p : Z) (l : Lay) : Node :=
  match l with
  | LTok ty g src v =>
      let s := p + py_len g in
      Token ty v (s + 1) (s + py_len src + 1)
  | LTree d cs =>
      Tree d
        ((fix go (p : Z) (cs : list Lay) : list Node :=
            match cs with
            | [] => []
            | c :: r => locate p c :: go (p + width c) r
            end) p cs)
  end.

(** The tokens lark leaves out of a tree unless it keeps all tokens: those of
    the literals written inside the rules.  The script never reads the type
    of such a token; it reads the types [CONST], [REF], [PTR] and [TNAME]. *)
Definition anonymous (ty : string) : bool :=
  existsb (String.eqb ty)
    [ "LPAR"; "RPAR"; "COMMA"; "LESSTHAN"; "MORETHAN"; "EQUAL"; "TRUE";
      "FALSE"; "__ANON_0" ].

Definition filtered_out (t : Node) : bool :=
  match t with
  | Token ty _ _ _ => anonymous ty
  | Tree _ _ => false
  end.

(** The tree of [_PARSER] from the tree of [_XPARSER]. *)
Fixpoint compact (t : Node) : Node :=
  match t with
  | Token _ _ _ _ => t
  | Tree d cs =>
      Tree d
        ((fix go (cs : list Node) : list Node :=
            match cs with
            | [] => []
            | c :: r => if filtered_out c then go r else compact c :: go r
            end) cs)
  end.

Inductive RefKind : Type := Reference | Pointer.

(** [type], [core_type] with [template], and [typelist] of the grammar; a
    string in front of a token is the white space before it. *)
Inductive TypeSpec : Type :=
| MkType (is_const : option string) (core : CoreType)
    (ref_kind : option (string * RefKind))
with CoreType : Type :=
| Atomic (gap name : string)
| Template (gap name gap_lt : string) (args : TypeList) (gap_gt : string)
with TypeList : Type :=
| TOne (t : TypeSpec)
| TMore (t : TypeSpec) (gap_comma : string) (rest : TypeList).

Scheme TypeSpec_mut := Induction for TypeSpec Sort Prop
  with CoreType_mut := Induction for CoreType Sort Prop
  with TypeList_mut := Induction for TypeList Sort Prop.
Combined Scheme type_mutind from TypeSpec_mut, CoreType_mut, TypeList_mut.

(** [init_value] *)
Inductive Literal : Type :=
| LitTrue
| LitFalse
| LitBraces
| LitNumber (s : string)
| LitSigned (s : string)
| LitHex (s : string)
| LitString (s : string).

Record DefVal : Type := {
  gap_eq : string;
  gap_lit : string;
  lit : Literal;
}.

(** [param] *)
Record Param : Type := {
  p_type : TypeSpec;
  p_gap : string;
  p_name : string;
  p_default : option DefVal;
}.

(** [start]: the parameters are the first one and the others, each after the
    gap in front of its comma; [trailing] is the white space after the
    closing parenthesis. *)
Record Signature : Type := {
  return_type : TypeSpec;
  gap_name : string;
  name : string;
  gap_lpar : string;
  param0 : Param;
  params : list (string * Param);
  gap_rpar : string;
  trailing : string;
}.

Definition parameters (sg : Signature) : list Param :=
  param0 sg :: map snd (params sg).

Definition tok (ty g s : string) : Lay := LTok ty g s s.

Definition lay_refkind (k : RefKind) : string * string :=
  match k with
  | Reference => ("REF", "&")
  | Pointer => ("PTR", "*")
  end.

Fixpoint lay_type (t : TypeSpec) : Lay :=
  match t with
  | MkType c core r =>
      LTree "type"
        (match c with Some g => [tok "CONST" g "const"] | None => [] end ++
         [lay_core core] ++
         match r with
         | Some (g, k) =>
             [LTree "refspec" [tok (lay_refkind k).1 g (lay_refkind k).2]]
         | None => []
         end)
  end
with lay_core (c : CoreType) : Lay :=
  match c with
  | Atomic g n => LTree "core_type" [tok "TNAME" g n]
  | Template g n glt args ggt =>
      LTree "core_type"
        [LTree "template"
           [tok "TNAME" g n; tok "LESSTHAN" glt "<"; lay_typelist args;
            tok "MORETHAN" ggt ">"]]
  end
with lay_typelist (l : TypeList) : Lay :=
  match l with
  | TOne t => LTree "typelist" [lay_type t]
  | TMore t g r => LTree "typelist" [lay_type t; tok "COMMA" g ","; lay_typelist r]
  end.

Definition lay_literal (g : string) (v : Literal) : Lay :=
  match v with
  | LitTrue => tok "TRUE" g "true"
  | LitFalse => tok "FALSE" g "false"
  | LitBraces => tok "__ANON_0" g "{}"
  | LitNumber s => tok "NUMBER" g s
  | LitSigned s => tok "SIGNED_NUMBER" g s
  | LitHex s => tok "HEXNUMBER" g s
  | LitString s => tok "ESCAPED_STRING" g s
  end.

Definition lay_defval (d : DefVal) : Lay :=
  LTree "param_defval"
    [tok "EQUAL" (gap_eq d) "="; LTree "init_value" [lay_literal (gap_lit d) (lit d)]].

Definition lay_param (p : Param) : Lay :=
  LTree "param"
    ([lay_type (p_type p); LTree "param_name" [tok "CNAME" (p_gap p) (p_name p)]] ++
     match p_default p with
     | Some d => [lay_defval d]
     | None => []
     end).

Fixpoint lay_params (p : Param) (ps : list (string * Param)) : Lay :=
  match ps with
  | [] => LTree "params" [lay_param p]
  | (g, p') :: ps =>
      LTree "params" [lay_param p; tok "COMMA" g ","; lay_params p' ps]
  end.

Definition lay_sig (sg : Signature) : Lay :=
  LTree "start"
    [lay_type (return_type sg);
     LTree "fnname" [tok "CNAME" (gap_name sg) (name sg)];
     tok "LPAR" (gap_lpar sg) "(";
     lay_params (param0 sg) (params sg);
     tok "RPAR" (gap_rpar sg) ")"].

(** The text of a signature, and the trees the two parsers build from it. *)
Definition text (sg : Signature) : string := ltext (lay_sig sg) +:+ trailing sg.

Definition xtree_of (sg : Signature) : Node := locate 0 (lay_sig sg).

Definition tree_of (sg : Signature) : Node := compact (xtree_of sg).

(** A pair of parsers that know the signatures of a list and fail on any
    other text. *)
Definition lark_table (sgs : list Signature) (keep_all_tokens : bool)
    (s : string) : option Node :=
  match list_find (fun sg => String.eqb (text sg) s) sgs with
  | Some (_, sg) => Some (if keep_all_tokens then xtree_of sg else tree_of sg)
  | None => None
  end.

Definition table_env (sgs : list Signature) : Env :=
  gen_env (lark_table sgs false) (lark_table sgs true).

(** The parsers of [E] read the text of [sg] as the derivation [sg]. *)
Definition parses (E : Env) (sg : Signature) : Prop :=
  parser E (text sg) = Some (tree_of sg) /\
  xparser E (text sg) = Some (xtree_of sg).

(** ** What the emitter writes, on derivations *)

(** The node a policy sees: the type and value of a token, the rule of a
    tree. *)
Definition label (l : Lay) : Node :=
  match l with
  | LTok ty _ _ v => Token ty v 0 0
  | LTree d _ => Tree d []
  end.

(** A policy that reads nothing else. *)
Definition stable (pol : Node -> Z) : Prop :=
  (forall ty v c e, pol (Token ty v c e) = pol (Token ty v 0 0)) /\
  (forall d cs, pol (Tree d cs) = pol (Tree d [])).

(** Every tree has a child, so that [last_match] finds a token. *)
Fixpoint nonempty (l : Lay) : bool :=
  match l with
  | LTok _ _ _ _ => true
  | LTree _ cs =>
      negb (bool_decide (cs = [])) && forallb nonempty cs
  end.

(** The tokens of a tree in the order of the text, each with the gap in front
    of it. *)
Fixpoint alltoks (l : Lay) : list (string * string) :=
  match l with
  | LTok _ g _ v => [(g, v)]
  | LTree _ cs => concat (map alltoks cs)
  end.

(** The tokens a policy lets through. *)
Fixpoint ptoks (pol : Node -> Z) (l : Lay) : list (string * string) :=
  let status := pol (label l) in
  if 0 <? status then alltoks l
  else if status =? 0 then
    match l with
    | LTok _ g _ v => [(g, v)]
    | LTree _ cs => concat (map (ptoks pol) cs)
    end
  else [].

(** Tokens written one after the other, each after its gap; the gap of the
    first one is left out when nothing was written since the emitter was
    created or appended to ([fresh]). *)
Fixpoint render (fresh : bool) (toks : list (string * string)) : string :=
  match toks with
  | [] => ""
  | (g, v) :: r => (if fresh then "" else g) +:+ v +:+ render false r
  end.

(** [rewrite_signature_rewrite] on a derivation. *)
Fixpoint lrewrite (tmap : gmap string string) (l : Lay) : Lay :=
  match l with
  | LTok ty g src v =>
      if String.eqb ty "TNAME" then
        match tmap !! v with
        | Some new_type => LTok ty g src new_type
        | None => l
        end
      else l
  | LTree d cs => LTree d (map (lrewrite tmap) cs)
  end.

(** ** Signatures: their parts, and the transforms as the claims word them *)

Definition core_name (t : TypeSpec) : string :=
  match t with
  | MkType _ (Atomic _ n) _ => n
  | MkType _ (Template _ n _ _ _) _ => n
  end.

Definition type_const (t : TypeSpec) : bool :=
  match t with MkType c _ _ => bool_decide (is_Some c) end.

Definition type_ref (t : TypeSpec) : bool :=
  match t with
  | MkType _ _ (Some (_, Reference)) => true
  | _ => false
  end.

Definition type_ptr (t : TypeSpec) : bool :=
  match t with
  | MkType _ _ (Some (_, Pointer)) => true
  | _ => false
  end.

(** The white space in front of the first token of a signature. *)
Definition leading (sg : Signature) : string :=
  match return_type sg with
  | MkType (Some g) _ _ => g
  | MkType None (Atomic g _) _ => g
  | MkType None (Template g _ _ _ _) _ => g
  end.

Definition literal_text (v : Literal) : string :=
  match v with
  | LitTrue => "true"
  | LitFalse => "false"
  | LitBraces => "{}"
  | LitNumber s | LitSigned s | LitHex s | LitString s => s
  end.

(** The name a type name is rewritten to. *)
Definition rename (tmap : gmap string string) (n : string) : string :=
  match tmap !! n with
  | Some new_type => new_type
  | None => n
  end.

Fixpoint rw_type (tmap : gmap string string) (t : TypeSpec) : TypeSpec :=
  match t with
  | MkType c core r => MkType c (rw_core tmap core) r
  end
with rw_core (tmap : gmap string string) (c : CoreType) : CoreType :=
  match c with
  | Atomic g n => Atomic g (rename tmap n)
  | Template g n glt args ggt =>
      Template g (rename tmap n) glt (rw_typelist tmap args) ggt
  end
with rw_typelist (tmap : gmap string string) (l : TypeList) : TypeList :=
  match l with
  | TOne t => TOne (rw_type tmap t)
  | TMore t g r => TMore (rw_type tmap t) g (rw_typelist tmap r)
  end.

(** A parameter with its type names rewritten and without its default
    value. *)
Definition rw_param (tmap : gmap string string) (p : Param) : Param :=
  {| p_type := rw_type tmap (p_type p);
     p_gap := p_gap p;
     p_name := p_name p;
     p_default := None |}.

Definition strip_leading (t : TypeSpec) : TypeSpec :=
  match t with
  | MkType (Some _) core r => MkType (Some "") core r
  | MkType None (Atomic _ n) r => MkType None (Atomic "" n) r
  | MkType None (Template _ n glt args ggt) r =>
      MkType None (Template "" n glt args ggt) r
  end.

(** The signature [rewrite_signature] writes: type names rewritten, default
    values gone, no white space in front or behind. *)
Definition rw_sig (tmap : gmap string string) (sg : Signature) : Signature :=
  {| return_type := strip_leading (rw_type tmap (return_type sg));
     gap_name := gap_name sg;
     name := name sg;
     gap_lpar := gap_lpar sg;
     param0 := rw_param tmap (param0 sg);
     params := map (fun gp => (gp.1, rw_param tmap gp.2)) (params sg);
     gap_rpar := gap_rpar sg;
     trailing := "" |}.

(** The tokens of the dispatch key: type names, template brackets, commas and
    default values, not [const], [&], [*] or the names of parameters. *)
Fixpoint key_type (t : TypeSpec) : list (string * string) :=
  match t with
  | MkType _ core _ => key_core core
  end
with key_core (c : CoreType) : list (string * string) :=
  match c with
  | Atomic g n => [(g, n)]
  | Template g n glt args ggt =>
      [(g, n); (glt, "<")] ++ key_typelist args ++ [(ggt, ">")]
  end
with key_typelist (l : TypeList) : list (string * string) :=
  match l with
  | TOne t => key_type t
  | TMore t g r => key_type t ++ [(g, ",")] ++ key_typelist r
  end.

Definition key_param (p : Param) : list (string * string) :=
  key_type (p_type p) ++
  match p_default p with
  | Some d => [(gap_eq d, "="); (gap_lit d, literal_text (lit d))]
  | None => []
  end.

Fixpoint key_params (p : Param) (ps : list (string * Param))
    : list (string * string) :=
  match ps with
  | [] => key_param p
  | (g, p') :: ps => key_param p ++ [(g, ",")] ++ key_params p' ps
  end.

Definition mapsig_of (sg : Signature) : string :=
  name sg +:+ "(" +:+ render true (key_params (param0 sg) (params sg)) +:+
  ") -> " +:+ render true (key_type (return_type sg)).

(** ** Election, as a rule on the parameters *)

Definition is_opaque (p : Param) : bool :=
  String.eqb (core_name (p_type p)) "Tensor".

Definition is_bag_or_list (p : Param) : bool :=
  String.eqb (core_name (p_type p)) "TensorOptions" ||
  String.eqb (core_name (p_type p)) "TensorList".

Definition is_primary (p : Param) : bool :=
  is_opaque p && (String.eqb (p_name p) "self" || type_const (p_type p)).

Fixpoint first_index {A} (P : A -> bool) (l : list A) : option nat :=
  match l with
  | [] => None
  | x :: r => if P x then Some 0%nat else S <$> first_index P r
  end.

Fixpoint last_index {A} (P : A -> bool) (l : list A) : option nat :=
  match l with
  | [] => None
  | x :: r =>
      match last_index P r with
      | Some i => Some (S i)
      | None => if P x then Some 0%nat else None
      end
  end.

(** Without an override: the first primary tensor, else the last tensor, else
    the first options bag or tensor list. *)
Definition elect_default (ps : list Param) : option nat :=
  match first_index is_primary ps with
  | Some i => Some i
  | None =>
      match last_index is_opaque ps with
      | Some i => Some i
      | None => first_index is_bag_or_list ps
      end
  end.

(** With an override that names a parameter of the signature: that
    parameter. *)
Definition elect (fnopts : option FuncOpts) (ps : list Param) : option nat :=
  match first_index (fun p => fnopts_names fnopts (p_name p)) ps with
  | Some i => Some i
  | None => elect_default ps
  end.

(** The order the claim gives: the first options bag or tensor list before
    the last tensor. *)
Definition elect_as_claimed (ps : list Param) : option nat :=
  match first_index is_primary ps with
  | Some i => Some i
  | None =>
      match first_index is_bag_or_list ps with
      | Some i => Some i
      | None => last_index is_opaque ps
      end
  end.

(** The node of a parameter in the tree of [_PARSER], for some offset. *)
Definition param_node (prm : Param) (n : Node) : Prop :=
  exists p, n = compact (locate p (lay_param prm)).

(** ** Auxiliary functions: the loops over the children of a tree *)

Fixpoint locate_list (p : Z) (cs : list Lay) : list Node :=
  match cs with
  | [] => []
  | c :: r => locate p c :: locate_list (p + width c) r
  end.

Definition ltext_list (cs : list Lay) : string :=
  fold_right (fun c s => ltext c +:+ s) "" cs.

Definition width_list (cs : list Lay) : Z :=
  fold_right (fun c n => width c + n) 0 cs.

Definition advance_token (tok : Node) (e : StringEmit.t) : option StringEmit.t :=
  StringEmit.advance e tok.

(** A step run over the children of a tree, from left to right. *)
Fixpoint run_list (run : Node -> StringEmit.t -> option StringEmit.t)
    (cs : list Node) (e : StringEmit.t) : option StringEmit.t :=
  match cs with
  | [] => Some e
  | c :: r =>
      match run c e with
      | Some e' => run_list run r e'
      | None => None
      end
  end.

Fixpoint last_match_list (cs : list Node) : option Z :=
  match cs with
  | [] => None
  | [c] => last_match c
  | _ :: r => last_match_list r
  end.

Fixpoint compact_list (cs : list Node) : list Node :=
  match cs with
  | [] => []
  | c :: r => if filtered_out c then compact_list r else compact c :: compact_list r
  end.

Definition isnil {A} (l : list A) : bool :=
  match l with [] => true | _ :: _ => false end.

(** The emitter after it wrote [toks] and came to offset [q]. *)
Definition emitted (sref sval : string) (fresh : bool)
    (toks : list (string * string)) (q : Z) : StringEmit.t :=
  StringEmit.mk sref (sval +:+ render fresh toks)
    (if fresh && isnil toks then -1 else q).

(** [run] on the tree of [l] writes the tokens [toksf l]: the text of [l]
    starts at offset [p] of [sref], and the emitter is fresh or stands at
    [p]. *)
Definition simulates (sref : string)
    (run : Node -> StringEmit.t -> option StringEmit.t)
    (toksf : Lay -> list (string * string)) (l : Lay) : Prop :=
  forall p pre post sval fresh,
    sref = pre +:+ ltext l +:+ post ->
    py_len pre = p ->
    run (locate p l) (StringEmit.mk sref sval (if fresh : bool then -1 else p)) =
    Some (emitted sref sval fresh (toksf l) (p + width l)).

(** Every token holds the text it was read from. *)
Fixpoint pristine (l : Lay) : bool :=
  match l with
  | LTok _ _ src v => String.eqb src v
  | LTree _ cs => forallb pristine cs
  end.

(** The tokens without the gap in front of the first one. *)
Definition strip_first (toks : list (string * string)) : list (string * string) :=
  match toks with
  | [] => []
  | (_, v) :: r => ("", v) :: r
  end.

(** The parts of the derivation of a signature. *)
Definition lay_fnname (sg : Signature) : Lay :=
  LTree "fnname" [tok "CNAME" (gap_name sg) (name sg)].

(** The declaration [get_function_signature] writes for the wrapper named
    [xfname]. *)
Definition cppsig_of (sg : Signature) (xfname : string) : string :=
  render true (alltoks (lay_type (return_type sg))) +:+ " " +:+ xfname +:+ "(" +:+
  render true (alltoks (lay_params (param0 sg) (params sg))) +:+ ")".

(** The name-free declarator. *)
Definition funsig_of (sg : Signature) : string :=
  render true (ptoks create_stdfunc_sig_emit_fn (lay_type (return_type sg))) +:+
  "(" +:+
  render true
    (ptoks create_stdfunc_sig_emit_fn (lay_params (param0 sg) (params sg))) +:+
  ")".

(** Offsets of the parts of a signature in its text. *)
Definition off_name (sg : Signature) : Z := width (lay_type (return_type sg)).
Definition off_lpar (sg : Signature) : Z := off_name sg + width (lay_fnname sg).
Definition off_params (sg : Signature) : Z :=
  off_lpar sg + (py_len (gap_lpar sg) + py_len "(").
Definition off_rpar (sg : Signature) : Z :=
  off_params sg + width (lay_params (param0 sg) (params sg)).

(** The loop of [get_reference_param] on the parameters [ps] of a signature,
    with [xs] in the place of their nodes. *)
Fixpoint elect_loop {A} (ps : list Param) (xs : list A)
    (fnopts : option FuncOpts) (ref other : option A) : option A :=
  match ps, xs with
  | prm :: ps, x :: xs =>
      if fnopts_names fnopts (p_name prm) then Some x
      else
        let other :=
          if negb (bool_decide (is_Some other)) && is_bag_or_list prm
          then Some x else other in
        if negb (is_opaque prm) then elect_loop ps xs fnopts ref other
        else
          let ref :=
            if negb (bool_decide (is_Some ref)) &&
               (String.eqb (p_name prm) "self" || type_const (p_type prm))
            then Some x else ref in
          elect_loop ps xs fnopts ref (Some x)
  | _, _ => match ref with Some _ => ref | None => other end
  end.

(** The element at an index that may be missing. *)
Definition pick {A} (xs : list A) (i : option nat) : option A :=
  match i with
  | Some i => xs !! i
  | None => None
  end.

(** [get_xla_wrapper] after the blacklist let the signature through. *)
Definition wrapper_body (E : Env) (tree xtree rwxtree : Node)
    (orig_sig mapsig rwsig : string) (params : list Node)
    (fnopts : option FuncOpts) (ref_param : option Node)
    (sig fname xfname : string) : M (option FuncGen.t) :=
    ctx ← get_ctx;
    let code :=
      sig +:+ " " +:+ (if gen_class_mode ctx then "const " else "") +:+ "{" +:+ nl in
    xla_ref_param ←
      lift (match ref_param with
            | Some r => name ← param_name r; Some (Some name)
            | None => Some None
            end);
    let tfetcher := TensorFetcher.init "xlatens" in
    r ← lift (wrapper_params E fname params ref_param fnopts code tfetcher []
                xla_ref_param);
    let '(code, tfetcher, param_vars, xla_ref_param) := r in
    let code := code +:+ TensorFetcher.generate tfetcher in
    result_assign ← lift (generate_result_assignment tree _RESULT_NAME);
    let code :=
      code +:+ ("  " +:+ result_assign +:+
                get_handling_function E ctx fname xla_ref_param +:+ "(") in
    let code := code +:+ py_join ", " param_vars in
    let code := code +:+ (");" +:+ nl) in
    let code :=
      if py_truthy result_assign then
        code +:+ ("  static_cast<void>(" +:+ _RESULT_NAME +:+
                  "); // Avoid warnings in case not used" +:+ nl)
      else code in
    let rname := if py_truthy result_assign then Some _RESULT_NAME else None in
    let code :=
      code +:+ generate_debug_code tree fname rname params param_vars ref_param in
    rtype_str ← lift (get_return_type_str rwxtree rwsig);
    stmt ← lift (generate_return_stmt tree rtype_str fname rname params
                   param_vars ref_param);
    let code := code +:+ stmt in
    let code := code +:+ "}" in
    funsig ← lift (create_stdfunc_sig rwxtree rwsig);
    ret (Some (FuncGen.mk tree xtree rwxtree fname xfname code orig_sig rwsig
                 sig funsig mapsig)).

(** The name [gen_fnname] gives, and the context it leaves. *)
Definition wrapper_name (x : string) (ctx : Context) : string :=
  if gen_class_mode ctx then "AtenXlaTypeBase::" +:+ x
  else
    match defdb ctx !! x with
    | Some n => "xla_" +:+ x +:+ ("_" +:+ pretty n)
    | None => "xla_" +:+ x +:+ ""
    end.

Definition count_name (x : string) (ctx : Context) : Context :=
  if gen_class_mode ctx then ctx
  else
    match defdb ctx !! x with
    | Some n => set_defdb ctx (<[x := n + 1]> (defdb ctx))
    | None => set_defdb ctx (<[x := 1]> (defdb ctx))
    end.

(** The return type takes no result: [void] that is not a pointer. *)
Definition returns_nothing (t : TypeSpec) : bool :=
  String.eqb (core_name t) "void" && negb (type_ptr t).

Definition result_assign_of (t : TypeSpec) : string :=
  if returns_nothing t then "" else "auto&& " +:+ _RESULT_NAME +:+ " = ".

Definition rname_of (t : TypeSpec) : option string :=
  if returns_nothing t then None else Some _RESULT_NAME.

(** The text of a wrapper around its return statement. *)
Definition wrapper_code (E : Env) (ctx : Context) (sg : Signature)
    (sig : string) (code : string) (tfetcher : TensorFetcher.t)
    (param_vars : list string) (xla_ref_param : option string) : string :=
  let code := code +:+ TensorFetcher.generate tfetcher in
  let code :=
    code +:+ ("  " +:+ result_assign_of (return_type sg) +:+
              get_handling_function E ctx (name sg) xla_ref_param +:+ "(") in
  let code := code +:+ py_join ", " param_vars in
  let code := code +:+ (");" +:+ nl) in
  let code :=
    if py_truthy (result_assign_of (return_type sg)) then
      code +:+ ("  static_cast<void>(" +:+ _RESULT_NAME +:+
                "); // Avoid warnings in case not used" +:+ nl)
    else code in
  code +:+ ("  XLA_COUNTER(" +:+ dq +:+ "aten::" +:+ name sg +:+ dq +:+ ", 1);" +:+ nl).

(** The value a wrapper returns for a return type whose core is [Tensor]:
    the first parameter for a const or reference return type, a new tensor
    on the device of the reference parameter named [refname] otherwise. *)
Definition tensor_return (sg : Signature) (refname : string) : string :=
  if type_const (return_type sg) || type_ref (return_type sg)
  then p_name (param0 sg)
  else "bridge::CreateXlaTensor(" +:+ _RESULT_NAME +:+
       ", bridge::GetXlaDevice(" +:+ refname +:+ "))".

Definition return_stmt (retstr : string) : string :=
  "  return " +:+ retstr +:+ ";" +:+ nl.


(** The types and the values of the tokens of a derivation, white space
    left out. *)
Fixpoint token_seq (l : Lay) : list (string * string) :=
  match l with
  | LTok ty _ src _ => [(ty, src)]
  | LTree _ cs => concat (map token_seq cs)
  end.

(** [sub] occurs in [s]. *)
Definition occurs (sub s : string) : Prop :=
  exists a b, s = a +:+ sub +:+ b.

(** No value of the table is one of its keys. *)
Definition values_not_keys (tmap : gmap string string) : Prop :=
  forall k v, tmap !! k = Some v -> tmap !! v = None.

(** ** Example signatures *)

Definition plain (g n : string) : TypeSpec := MkType None (Atomic g n) None.

Definition const_ref (g n : string) : TypeSpec :=
  MkType (Some g) (Atomic " " n) (Some (" ", Reference)).

Definition param (t : TypeSpec) (n : string) : Param :=
  {| p_type := t; p_gap := " "; p_name := n; p_default := None |}.

Definition param_default (t : TypeSpec) (n : string) (v : Literal) : Param :=
  {| p_type := t; p_gap := " "; p_name := n;
     p_default := Some {| gap_eq := " "; gap_lit := " "; lit := v |} |}.

Definition signature (ret : TypeSpec) (n : string) (p : Param)
    (ps : list (string * Param)) (trail : string) : Signature :=
  {| return_type := ret; gap_name := " "; name := n; gap_lpar := "";
     param0 := p; params := ps; gap_rpar := ""; trailing := trail |}.

(** [Tensor add(const Tensor & self, const Tensor & other)] *)
Definition sig_add : Signature :=
  signature (plain "" "Tensor") "add" (param (const_ref "" "Tensor") "self")
    [("", param (const_ref " " "Tensor") "other")] "".

(** [Tensor & add_(Tensor & self, const Tensor & other)] *)
Definition ref_to (g n : string) : TypeSpec :=
  MkType None (Atomic g n) (Some (" ", Reference)).

Definition sig_add_inplace : Signature :=
  signature (ref_to "" "Tensor") "add_" (param (ref_to "" "Tensor") "self")
    [("", param (const_ref " " "Tensor") "other")] "".

(** [Tensor add(Tensor self, Tensor other)] and the same tokens with no space
    after the comma. *)
Definition sig_add_spaced : Signature :=
  signature (plain "" "Tensor") "add" (param (plain "" "Tensor") "self")
    [("", param (plain " " "Tensor") "other")] "".

Definition sig_add_tight : Signature :=
  signature (plain "" "Tensor") "add" (param (plain "" "Tensor") "self")
    [("", param (plain "" "Tensor") "other")] "".

(** [Tensor to(const Tensor & self, Device device, ScalarType dtype, bool non_blocking, bool copy)] *)
Definition sig_to : Signature :=
  signature (plain "" "Tensor") "to" (param (const_ref "" "Tensor") "self")
    [("", param (plain " " "Device") "device");
     ("", param (plain " " "ScalarType") "dtype");
     ("", param (plain " " "bool") "non_blocking");
     ("", param (plain " " "bool") "copy")] "".

(** [Tensor stack(TensorList tensors, Tensor other)] *)
Definition sig_stack : Signature :=
  signature (plain "" "Tensor") "stack" (param (plain "" "TensorList") "tensors")
    [("", param (plain " " "Tensor") "other")] "".

(** [Tensor sum(const Tensor & self, bool keepdim = false)] *)
Definition sig_sum : Signature :=
  signature (plain "" "Tensor") "sum" (param (const_ref "" "Tensor") "self")
    [("", param_default (plain " " "bool") "keepdim" LitFalse)] "".

(** [Tensor eye(int64_t n)]: no parameter to take a device from. *)
Definition sig_eye : Signature :=
  signature (plain "" "Tensor") "eye" (param (plain "" "int64_t") "n") [] "".

(** [bool is_signed(ScalarType t)] *)
Definition sig_is_signed : Signature :=
  signature (plain "" "bool") "is_signed" (param (plain "" "ScalarType") "t")
    [] "".

(** [void backward(Tensor self)] with a space behind it, and without. *)
Definition sig_backward_trailing : Signature :=
  signature (plain "" "void") "backward" (param (plain "" "Tensor") "self")
    [] " ".

Definition sig_backward : Signature :=
  signature (plain "" "void") "backward" (param (plain "" "Tensor") "self")
    [] "".

(** [Tensor relu(Tensor self)] and [Tensor relu(Tensor self, Tensor other)] *)
Definition sig_relu : Signature :=
  signature (plain "" "Tensor") "relu" (param (plain "" "Tensor") "self") [] "".

Definition sig_relu2 : Signature :=
  signature (plain "" "Tensor") "relu" (param (plain "" "Tensor") "self")
    [("", param (plain " " "Tensor") "other")] "".

(** The environment of the script with parsers for the example signatures
    and their rewritten texts. *)
Definition examples : list Signature :=
  [sig_add; sig_add_inplace; sig_add_spaced; sig_add_tight; sig_to; sig_stack; sig_sum;
   sig_eye; sig_is_signed; sig_backward_trailing; sig_backward; sig_relu;
   sig_relu2].

Definition example_env : Env :=
  table_env (examples ++ map (rw_sig _TYPE_NSMAP) examples).

(** The same with a blacklist that names one dispatch key. *)
Definition example_env_key_blacklist : Env :=
  {| parser := parser example_env;
     xparser := xparser example_env;
     fn_blacklist := {[ "relu(Tensor) -> Tensor" ]};
     fn_blacklist_regex := [];
     type_nsmap := _TYPE_NSMAP;
     xla_functions := _XLA_FUNCTIONS;
     ctor_functions := _CTOR_FUNCTIONS;
     function_options := _FUNCTION_OPTIONS |}.

Definition example_ctx : Context :=
  {| gen_class_mode := false;
     defdb := ∅;
     functions_data := "static inline Tensor add(const Tensor & self);";
     native_functions_data := "" |}.
(** The text [Context.get_function] looks for in a corpus of declarations:
    the name after a space and before an opening parenthesis. *)
Definition symbol_pattern (fname : string) : string :=
  " " +:+ fname +:+ "(".


(** The call a wrapper makes: the result assignment, the callee and the
    opening parenthesis. *)
Definition call_of (sg : Signature) (callee : string) : string :=
  "  " +:+ result_assign_of (return_type sg) +:+ callee +:+ "(".

(** The count of wrappers named so far for [x]. *)
Definition overloads (ctx : Context) (x : string) : Z :=
  default 0 (defdb ctx !! x).

(** The parsers of [E] read [sg] and the signature rewritten with the type
    table of [E]. *)
Definition readable (E : Env) (sg : Signature) : Prop :=
  parses E sg /\
  xparser E (text (rw_sig (type_nsmap E) sg)) =
    Some (xtree_of (rw_sig (type_nsmap E) sg)).

(** The signatures of a batch that have the name [x]. *)
Definition named (x : string) (sgs : list Signature) : nat :=
  length (List.filter (fun sg => String.eqb (name sg) x) sgs).
(** ** Further functions of the script *)

(** [get_function_name] *)
Definition get_function_name (t : Node) : option string :=
  cs ← children t;
  fname ← py_nth cs 1;
  _ ← assert (is_Tree_with "fnname" fname);
  cs ← children fname;
  token ← py_nth cs 0;
  value token.

(** The tokens of a parameter without its name: the type as it is written,
    and the default value. *)
Definition decl_param (p : Param) : list (string * string) :=
  alltoks (lay_type (p_type p)) ++
  match p_default p with
  | Some d => [(gap_eq d, "="); (gap_lit d, literal_text (lit d))]
  | None => []
  end.

Fixpoint decl_params (p : Param) (ps : list (string * Param))
    : list (string * string) :=
  match ps with
  | [] => decl_param p
  | (g, p') :: ps => decl_param p ++ [(g, ",")] ++ decl_params p' ps
  end.

(** An opening parenthesis is among the characters of [s]. *)
Fixpoint has_paren (s : string) : bool :=
  match s with
  | EmptyString => false
  | String c r => Ascii.eqb c "(" || has_paren r
  end.

(** ** The parts of a wrapper, by the parameters of the signature *)

(** The argument the wrapper passes for a parameter, when [k] tensors have
    been handed to the fetcher [vname] before it. *)
Definition arg_of (E : Env) (fname vname : string) (k : nat) (p : Param)
    : string :=
  if String.eqb (core_name (p_type p)) "TensorList" then "l_" +:+ p_name p
  else if String.eqb (core_name (p_type p)) "TensorOptions" then
    (rewrite_tensor_options E fname (p_name p)).2
  else if negb (String.eqb (core_name (p_type p)) "Tensor") then p_name p
  else vname +:+ "[" +:+ pretty (Z.of_nat k) +:+ "]".

Fixpoint args_of (E : Env) (fname vname : string) (k : nat) (ps : list Param)
    : list string :=
  match ps with
  | [] => []
  | p :: ps =>
      arg_of E fname vname k p ::
      args_of E fname vname (if is_opaque p then S k else k) ps
  end.

(** The statement the wrapper writes for a parameter before the call. *)
Definition prelude_of (E : Env) (fname : string) (p : Param) : string :=
  if String.eqb (core_name (p_type p)) "TensorList" then
    "  auto " +:+ ("l_" +:+ p_name p) +:+ " = bridge::XlaCreateTensorList(" +:+
    p_name p +:+ ", /*writeable=*/nullptr);" +:+ nl
  else if String.eqb (core_name (p_type p)) "TensorOptions" then
    (rewrite_tensor_options E fname (p_name p)).1
  else "".

Fixpoint preludes_of (E : Env) (fname : string) (ps : list Param) : string :=
  match ps with
  | [] => ""
  | p :: ps => prelude_of E fname p +:+ preludes_of E fname ps
  end.

(** The tensors handed to the fetcher, and their flags. *)
Definition tensors_of (ps : list Param) : list string :=
  map p_name (List.filter is_opaque ps).

Definition flags_of (ps : list Param) : list string :=
  map (fun p => if type_const (p_type p) then "false" else "true")
    (List.filter is_opaque ps).

Definition fetch (tf : TensorFetcher.t) (ps : list Param) : TensorFetcher.t :=
  TensorFetcher.mk (TensorFetcher.var_name tf)
    (TensorFetcher.tensors tf ++ tensors_of ps)
    (TensorFetcher.writeable tf ++ flags_of ps).

(** The first line of a wrapper. *)
Definition header_of (ctx : Context) (sig : string) : string :=
  sig +:+ " " +:+ (if gen_class_mode ctx then "const " else "") +:+ "{" +:+ nl.

(** A run of [TensorFetcher.add], with the expressions it returns. *)
Fixpoint add_all (f : TensorFetcher.t) (l : list (string * bool))
    : list string * TensorFetcher.t :=
  match l with
  | [] => ([], f)
  | (n, w) :: l =>
      let '(x, f) := TensorFetcher.add f n w in
      let '(xs, f) := add_all f l in
      (x :: xs, f)
  end.

(** The text of a wrapper: the first line, the statements for the tensor
    lists and the options, the tensors fetched, the call with its arguments,
    the counter, the return statement and the closing brace. *)
Definition wrapper_text (E : Env) (ctx : Context) (sg : Signature)
    (sig callee stmt : string) : string :=
  header_of ctx sig +:+
  preludes_of E (name sg) (parameters sg) +:+
  TensorFetcher.generate
    (fetch (TensorFetcher.init "xlatens") (parameters sg)) +:+
  call_of sg callee +:+
  py_join ", " (args_of E (name sg) "xlatens" 0 (parameters sg)) +:+
  (");" +:+ nl) +:+
  (if returns_nothing (return_type sg) then ""
   else "  static_cast<void>(" +:+ _RESULT_NAME +:+
        "); // Avoid warnings in case not used" +:+ nl) +:+
  ("  XLA_COUNTER(" +:+ dq +:+ "aten::" +:+ name sg +:+ dq +:+ ", 1);" +:+ nl) +:+
  stmt +:+ "}".

(** A return type that is returned as the call gives it: not a tuple, a
    vector or a tensor. *)
Definition plain_return (t : TypeSpec) : bool :=
  negb (String.eqb (core_name t) "std::tuple") &&
  negb (String.eqb (core_name t) "std::vector") &&
  negb (String.eqb (core_name t) "Tensor").

(** ** More example signatures *)

Definition template (n : string) (args : TypeList) : TypeSpec :=
  MkType None (Template "" n "" args "") None.

(** [std::vector<Tensor> unbind(const Tensor & self, int64_t dim)] *)
Definition sig_unbind : Signature :=
  signature (template "std::vector" (TOne (plain "" "Tensor"))) "unbind"
    (param (const_ref "" "Tensor") "self")
    [("", param (plain " " "int64_t") "dim")] "".

(** [void set_requires(Tensor & self, bool r)] *)
Definition sig_set : Signature :=
  signature (plain "" "void") "set_requires" (param (ref_to "" "Tensor") "self")
    [("", param (plain " " "bool") "r")] "".

(** [std::tuple<Tensor,Tensor> max(const Tensor & self, int64_t dim)] *)
Definition sig_max : Signature :=
  signature
    (template "std::tuple"
       (TMore (plain "" "Tensor") "" (TOne (plain "" "Tensor")))) "max"
    (param (const_ref "" "Tensor") "self")
    [("", param (plain " " "int64_t") "dim")] "".

(** [Tensor zeros(IntList size, const TensorOptions & options)] *)
Definition sig_zeros : Signature :=
  signature (plain "" "Tensor") "zeros" (param (plain "" "IntList") "size")
    [("", param (const_ref " " "TensorOptions") "options")] "".

Definition more_examples : list Signature :=
  [sig_unbind; sig_set; sig_max; sig_zeros].

Definition example_env2 : Env :=
  table_env (more_examples ++ map (rw_sig _TYPE_NSMAP) more_examples).

(** The example context in class mode. *)
Definition example_class_ctx : Context :=
  {| gen_class_mode := true;
     defdb := ∅;
     functions_data := functions_data example_ctx;
     native_functions_data := native_functions_data example_ctx |}.

(** One entry of the registration function. *)
Definition registration (fgen : FuncGen.t) : string :=
  "  at::register_extension_backend_op(" +:+ nl +:+
  "    at::Backend::XLA," +:+ nl +:+ "    " +:+ dq +:+
  FuncGen.mapsig fgen +:+ dq +:+ "," +:+ nl +:+ "    &" +:+
  FuncGen.xfunc fgen +:+ ");" +:+ nl.

(** Texts written one after the other. *)
Definition concat_s (l : list string) : string :=
  fold_right String.append "" l.

(** The variable the wrapper holds for the reference parameter after the
    loop over the parameters: the argument of the last parameter that was
    flagged as the reference parameter, if any. *)
Fixpoint track (flags : list bool) (args : list string) (xr : option string)
    : option string :=
  match flags, args with
  | b :: flags, a :: args => track flags args (if b then Some a else xr)
  | _, _ => xr
  end.

(** The parameters the loop takes for the reference parameter: those equal
    to it, when no override names one. *)
Definition ref_flags (nodes : list Node) (ref : option Node)
    (fnopts : option FuncOpts) : list bool :=
  map (fun n => is_ref_param n ref && negb (fnopts_has_ref_param fnopts)) nodes.

(** [param_name(ref_param) if ref_param else None] *)
Definition ref_name (ref : option Node) : option (option string) :=
  match ref with
  | Some r => name ← param_name r; Some (Some name)
  | None => Some None
  end.

(** What the wrapper of a parsed signature holds for its reference
    parameter when it resolves the callee: nothing when no parameter is
    elected; the name of the elected parameter when the signature has an
    override; else the argument passed for the elected parameter. *)
Definition ref_var (E : Env) (sg : Signature) : option string :=
  let fnopts := function_options E !! mapsig_of sg in
  i ← elect fnopts (parameters sg);
  if fnopts_has_ref_param fnopts then p_name <$> parameters sg !! i
  else args_of E (name sg) "xlatens" 0 (parameters sg) !! i.

(** ** Tuples *)

(** The types of a type list, in order. *)
Fixpoint types_of (l : TypeList) : list TypeSpec :=
  match l with
  | TOne t => [t]
  | TMore t _ r => t :: types_of r
  end.

(** The node of a type in the tree of [_PARSER], for some offset. *)
Definition type_node (t : TypeSpec) (n : Node) : Prop :=
  exists p, n = compact (locate p (lay_type t)).

(** The entry of a returned tuple for the element [i] of type [t]: the
    parameter [i] for a const or reference element, the element of the
    result for one that is not a tensor, and else a new XLA tensor on the
    device of the reference parameter. *)
Definition tuple_entry (ps : list Param) (refname : option string) (i : nat)
    (t : TypeSpec) : option string :=
  let tuple_var :=
    "std::get<" +:+ pretty (Z.of_nat i) +:+ ">(" +:+ _RESULT_NAME +:+ ")" in
  if type_const t || type_ref t then p_name <$> ps !! i
  else if negb (String.eqb (core_name t) "Tensor") then Some tuple_var
  else
    r ← refname;
    Some ("bridge::CreateXlaTensor(" +:+ tuple_var +:+
          ", bridge::GetXlaDevice(" +:+ r +:+ "))").

(** The entries from the element [i] on. *)
Fixpoint tuple_entries (ps : list Param) (refname : option string) (i : nat)
    (ts : list TypeSpec) : option (list string) :=
  match ts with
  | [] => Some []
  | t :: ts =>
      v ← tuple_entry ps refname i t;
      vs ← tuple_entries ps refname (S i) ts;
      Some (v :: vs)
  end.

(** The white space in front of the first token of a derivation. *)
Fixpoint lead (l : Lay) : string :=
  match l with
  | LTok _ g _ _ => g
  | LTree _ cs =>
      match cs with
      | [] => ""
      | c :: _ => lead c
      end
  end.

(** ** Return statements that do not name the reference parameter *)

(** The return statement of the signature is written without the name of a
    reference parameter: for a tuple, the type is a template that is not
    const and every entry is written without it (an element that is not a
    tensor, or a const or reference element with a parameter at its
    position); never for a vector; for a tensor, when it is const or a
    reference; always for any other type. *)
Definition reference_free_return (sg : Signature) : bool :=
  if String.eqb (core_name (return_type sg)) "std::tuple" then
    match return_type sg with
    | MkType None (Template _ _ _ args _) _ =>
        bool_decide
          (is_Some (tuple_entries (parameters sg) None 0 (types_of args)))
    | _ => false
    end
  else if String.eqb (core_name (return_type sg)) "std::vector" then false
  else if String.eqb (core_name (return_type sg)) "Tensor" then
    type_const (return_type sg) || type_ref (return_type sg)
  else true.

(** [std::tuple<int64_t,int64_t> sizes(int64_t n)] and
    [std::tuple<Tensor,int64_t> make(int64_t n)] *)
Definition sig_sizes : Signature :=
  signature
    (template "std::tuple"
       (TMore (plain "" "int64_t") "" (TOne (plain "" "int64_t")))) "sizes"
    (param (plain "" "int64_t") "n") [] "".

Definition sig_make : Signature :=
  signature
    (template "std::tuple"
       (TMore (plain "" "Tensor") "" (TOne (plain "" "int64_t")))) "make"
    (param (plain "" "int64_t") "n") [] "".

Definition example_env3 : Env :=
  table_env ([sig_sizes; sig_make] ++
             map (rw_sig _TYPE_NSMAP) [sig_sizes; sig_make]).

(** * Properties *)

(** ** Strings *)

Lemma app_cons_s (x : ascii) (a b : string) :
  String x a +:+ b = String x (a +:+ b).
Proof. reflexivity. Qed.

Lemma app_nil_l_s (b : string) : "" +:+ b = b.
Proof. reflexivity. Qed.

Lemma app_assoc_s (a b c : string) : (a +:+ b) +:+ c = a +:+ (b +:+ c).
Proof.
  induction a as [|x a IH]; [reflexivity|].
  rewrite !app_cons_s. now rewrite IH.
Qed.

Lemma app_nil_r_s (a : string) : a +:+ "" = a.
Proof.
  induction a as [|x a IH]; [reflexivity|]. rewrite app_cons_s. now rewrite IH.
Qed.

Lemma length_app_s (a b : string) :
  String.length (a +:+ b) = (String.length a + String.length b)%nat.
Proof.
  induction a as [|x a IH]; [reflexivity|]. rewrite app_cons_s. simpl.
  now rewrite IH.
Qed.

Lemma py_len_app (a b : string) : py_len (a +:+ b) = py_len a + py_len b.
Proof. unfold py_len. rewrite length_app_s. lia. Qed.

Lemma py_len_nonneg (a : string) : 0 <= py_len a.
Proof. unfold py_len. lia. Qed.

Lemma py_len_0 (a : string) : py_len a = 0 -> a = "".
Proof. destruct a; [reflexivity|]. unfold py_len. simpl. lia. Qed.

Lemma substring_prefix (g post : string) :
  substring 0 (String.length g) (g +:+ post) = g.
Proof.
  induction g as [|x g IH].
  - destruct post; reflexivity.
  - rewrite app_cons_s. simpl. now rewrite IH.
Qed.

Lemma substring_skip (pre s : string) (m : nat) :
  substring (String.length pre) m (pre +:+ s) = substring 0 m s.
Proof.
  induction pre as [|x pre IH]; [reflexivity|]. rewrite app_cons_s. simpl.
  apply IH.
Qed.

Lemma py_slice_mid (pre g post : string) :
  py_slice (pre +:+ g +:+ post) (py_len pre) (py_len pre + py_len g) = g.
Proof.
  unfold py_slice, py_clamp.
  rewrite !py_len_app.
  pose proof (py_len_nonneg pre). pose proof (py_len_nonneg g).
  pose proof (py_len_nonneg post).
  destruct (Z.ltb_spec (py_len pre) 0); [lia|].
  destruct (Z.ltb_spec (py_len pre + py_len g) 0); [lia|].
  rewrite !Z.min_l by lia.
  replace (py_len pre + py_len g - py_len pre) with (py_len g) by lia.
  unfold py_len. rewrite !Nat2Z.id.
  rewrite substring_skip. apply substring_prefix.
Qed.

(** ** Trees and their loops *)

Lemma Lay_ind' (P : Lay -> Prop) :
  (forall ty g s v, P (LTok ty g s v)) ->
  (forall d cs, Forall P cs -> P (LTree d cs)) ->
  forall l, P l.
Proof.
  intros Ht HT. fix IH 1. intros [ty g s v|d cs]; [apply Ht|].
  apply HT. induction cs as [|c cs IHcs]; constructor; [apply IH|apply IHcs].
Qed.

Lemma locate_tree p d cs : locate p (LTree d cs) = Tree d (locate_list p cs).
Proof. reflexivity. Qed.

Lemma emit_string_tree d cs f e :
  emit_string (Tree d cs) f e =
  if 0 <? f (Tree d cs) then for_every_token (Tree d cs) advance_token e
  else if f (Tree d cs) =? 0 then run_list (fun c => emit_string c f) cs e
  else StringEmit.skip e (Tree d cs).
Proof.
  unfold emit_string at 1. fold emit_string.
  destruct (0 <? f (Tree d cs)); [reflexivity|].
  destruct (f (Tree d cs) =? 0); [|reflexivity].
  revert e. induction cs as [|c cs IH]; intros e; [reflexivity|].
  simpl. destruct (emit_string c f e); [apply IH|reflexivity].
Qed.

Lemma for_every_token_tree d cs e :
  for_every_token (Tree d cs) advance_token e =
  run_list (fun c => for_every_token c advance_token) cs e.
Proof.
  simpl. revert e. induction cs as [|c cs IH]; intros e; [reflexivity|].
  simpl. destruct (for_every_token c advance_token e); [apply IH|reflexivity].
Qed.

Lemma last_match_tree d cs : last_match (Tree d cs) = last_match_list cs.
Proof. reflexivity. Qed.

Lemma compact_tree d cs : compact (Tree d cs) = Tree d (compact_list cs).
Proof. reflexivity. Qed.

Lemma width_nonneg l : 0 <= width l.
Proof.
  induction l as [ty g s v|d cs IH] using Lay_ind'; simpl.
  - pose proof (py_len_nonneg g). pose proof (py_len_nonneg s). lia.
  - induction IH as [|c cs Hc _ IHcs]; simpl; lia.
Qed.

Lemma width_list_nonneg cs : 0 <= width_list cs.
Proof.
  induction cs as [|c cs IH]; simpl; [lia|]. pose proof (width_nonneg c). lia.
Qed.

Lemma py_len_ltext l : py_len (ltext l) = width l.
Proof.
  induction l as [ty g s v|d cs IH] using Lay_ind'; simpl.
  - apply py_len_app.
  - induction IH as [|c cs Hc _ IHcs]; simpl; [reflexivity|].
    rewrite py_len_app. lia.
Qed.

Lemma last_match_locate l :
  nonempty l = true -> forall p, last_match (locate p l) = Some (p + width l).
Proof.
  induction l as [ty g s v|d cs IH] using Lay_ind'; intros Hne p.
  - simpl. f_equal. lia.
  - rewrite locate_tree, last_match_tree. simpl in Hne.
    apply andb_true_iff in Hne as [Hcs Hall].
    change (fold_right (fun c n => width c + n) 0 cs) with (width_list cs).
    revert p. induction IH as [|c cs Hc Hrest IHcs]; intros p.
    + discriminate.
    + simpl in Hall. apply andb_true_iff in Hall as [Hnc Hall].
      destruct cs as [|c' cs'].
      * simpl. rewrite Hc by assumption. f_equal. lia.
      * change (locate_list p (c :: c' :: cs')) with
          (locate p c :: locate_list (p + width c) (c' :: cs')).
        change (last_match_list (locate p c :: locate_list (p + width c) (c' :: cs')))
          with (last_match_list (locate_list (p + width c) (c' :: cs'))).
        rewrite IHcs by (assumption || reflexivity).
        f_equal. simpl. lia.
Qed.

(** ** The emitter on a located tree *)

Lemma render_app fresh a b :
  render fresh (a ++ b) = render fresh a +:+ render (fresh && isnil a) b.
Proof.
  revert fresh. induction a as [|[g v] a IH]; intros fresh.
  - simpl. now rewrite andb_true_r.
  - simpl. rewrite IH, andb_false_r. simpl. now rewrite !app_assoc_s.
Qed.

Lemma isnil_app {A} (a b : list A) : isnil (a ++ b) = isnil a && isnil b.
Proof. destruct a; reflexivity. Qed.

Lemma emitted_nil sref sval fresh q :
  emitted sref sval fresh [] q =
  StringEmit.mk sref sval (if fresh then -1 else q).
Proof. unfold emitted. simpl. rewrite app_nil_r_s, andb_true_r. reflexivity. Qed.

Lemma emitted_app sref sval fresh a b q :
  emitted sref (sval +:+ render fresh a) (fresh && isnil a) b q =
  emitted sref sval fresh (a ++ b) q.
Proof.
  unfold emitted. rewrite render_app, isnil_app, app_assoc_s, andb_assoc.
  reflexivity.
Qed.

Lemma emitted_state sref sval fresh toks q :
  emitted sref sval fresh toks q =
  StringEmit.mk sref (sval +:+ render fresh toks)
    (if fresh && isnil toks then -1 else q).
Proof. reflexivity. Qed.

(** A step that writes the tokens of every child writes those of the
    children one after the other. *)
Lemma simulates_list sref run toksf cs :
  Forall (simulates sref run toksf) cs ->
  forall p pre post sval fresh,
    sref = pre +:+ ltext_list cs +:+ post ->
    py_len pre = p ->
    run_list run (locate_list p cs)
      (StringEmit.mk sref sval (if fresh : bool then -1 else p)) =
    Some (emitted sref sval fresh (concat (map toksf cs)) (p + width_list cs)).
Proof.
  induction 1 as [|c cs Hc _ IH]; intros p pre post sval fresh Hsref Hp.
  - simpl. rewrite emitted_nil. do 3 f_equal. destruct fresh; lia.
  - simpl in Hsref. rewrite app_assoc_s in Hsref.
    simpl. rewrite (Hc p pre _ sval fresh Hsref Hp).
    rewrite emitted_state.
    rewrite (IH (p + width c) (pre +:+ ltext c) post
               (sval +:+ render fresh (toksf c)) (fresh && isnil (toksf c))).
    + rewrite emitted_app. do 2 f_equal. lia.
    + rewrite Hsref. now rewrite !app_assoc_s.
    + rewrite py_len_app, py_len_ltext. lia.
Qed.

Lemma advance_fresh sref sval ty v c e :
  StringEmit.advance (StringEmit.mk sref sval (-1)) (Token ty v c e) =
  Some (StringEmit.mk sref (sval +:+ v) (e - 1)).
Proof.
  unfold StringEmit.advance. simpl. now rewrite Z.ltb_irrefl.
Qed.

Lemma advance_at sref sval ty g src v pre post :
  sref = pre +:+ (g +:+ src) +:+ post ->
  StringEmit.advance (StringEmit.mk sref sval (py_len pre))
    (locate (py_len pre) (LTok ty g src v)) =
  Some (StringEmit.mk sref (sval +:+ g +:+ v)
          (py_len pre + (py_len g + py_len src))).
Proof.
  intros Hsref. unfold StringEmit.advance. simpl.
  pose proof (py_len_nonneg pre) as Hpre. pose proof (py_len_nonneg g) as Hg.
  destruct (Z.leb_spec 0 (py_len pre)); [|lia].
  replace (py_len pre + py_len g + 1 - 1) with (py_len pre + py_len g) by lia.
  replace (py_len pre + py_len g + py_len src + 1 - 1)
    with (py_len pre + (py_len g + py_len src)) by lia.
  destruct (Z.ltb_spec (py_len pre) (py_len pre + py_len g)).
  - rewrite Hsref, app_assoc_s, py_slice_mid. now rewrite app_assoc_s.
  - assert (g = "") as -> by (apply py_len_0; lia). reflexivity.
Qed.

Lemma advance_locate sref ty g src v :
  simulates sref advance_token (fun l => alltoks l) (LTok ty g src v).
Proof.
  intros p pre post sval fresh Hsref <-. unfold advance_token.
  destruct fresh.
  - simpl locate. rewrite advance_fresh. unfold emitted. simpl.
    rewrite app_nil_r_s. do 2 f_equal. lia.
  - rewrite (advance_at _ _ _ _ _ _ _ _ Hsref). unfold emitted. simpl.
    now rewrite app_nil_r_s.
Qed.

(** Copying a tree writes all its tokens. *)
Lemma copy_locate sref l :
  simulates sref (fun c => for_every_token c advance_token) alltoks l.
Proof.
  induction l as [ty g s v|d cs IH] using Lay_ind'.
  - apply advance_locate.
  - intros p pre post sval fresh Hsref Hp.
    rewrite locate_tree, for_every_token_tree.
    apply (simulates_list _ _ _ _ IH _ _ _ _ _ Hsref Hp).
Qed.

Lemma stable_label pol l p : stable pol -> pol (locate p l) = pol (label l).
Proof.
  intros [Ht HT]. destruct l as [ty g s v|d cs].
  - simpl. apply Ht.
  - rewrite locate_tree. simpl. apply HT.
Qed.

(** The emitter under a policy writes the tokens the policy lets through. *)
Lemma emit_string_locate sref pol l :
  stable pol -> nonempty l = true ->
  simulates sref (fun c => emit_string c pol) (ptoks pol) l.
Proof.
  intros Hst. induction l as [ty g s v|d cs IH] using Lay_ind'; intros Hne.
  - intros p pre post sval fresh Hsref Hp.
    pose proof (stable_label pol (LTok ty g s v) p Hst) as Hl.
    simpl locate in *. unfold emit_string, ptoks. rewrite Hl.
    destruct (0 <? pol (label (LTok ty g s v))).
    + apply (advance_locate sref ty g s v p pre post sval fresh Hsref Hp).
    + destruct (pol (label (LTok ty g s v)) =? 0).
      * apply (advance_locate sref ty g s v p pre post sval fresh Hsref Hp).
      * rewrite emitted_nil. unfold StringEmit.skip. simpl.
        pose proof (py_len_nonneg pre). destruct fresh; simpl.
        -- reflexivity.
        -- destruct (Z.leb_spec 0 p); [|lia]. do 2 f_equal. lia.
  - intros p pre post sval fresh Hsref Hp.
    pose proof (stable_label pol (LTree d cs) p Hst) as Hl.
    rewrite locate_tree in *. rewrite emit_string_tree, Hl.
    unfold ptoks; fold (ptoks pol).
    destruct (0 <? pol (label (LTree d cs))).
    + rewrite <- locate_tree.
      apply (copy_locate sref (LTree d cs) p pre post sval fresh Hsref Hp).
    + destruct (pol (label (LTree d cs)) =? 0).
      * simpl in Hne. apply andb_true_iff in Hne as [_ Hall].
        assert (Forall (simulates sref (fun c => emit_string c pol) (ptoks pol)) cs)
          as Hsim.
        { clear -IH Hall. induction IH as [|c cs Hc _ IHcs]; constructor;
            simpl in Hall; apply andb_true_iff in Hall as [? ?]; auto. }
        apply (simulates_list _ _ _ _ Hsim _ _ _ _ _ Hsref Hp).
      * rewrite emitted_nil. unfold StringEmit.skip. simpl StringEmit.pos.
        pose proof (py_len_nonneg pre). destruct fresh.
        -- reflexivity.
        -- destruct (Z.leb_spec 0 p); [|lia].
           rewrite <- locate_tree, (last_match_locate _ Hne). reflexivity.
Qed.

(** ** Derivations are well formed *)

Lemma lay_type_good :
  (forall t, nonempty (lay_type t) = true /\ pristine (lay_type t) = true) /\
  (forall c, nonempty (lay_core c) = true /\ pristine (lay_core c) = true) /\
  (forall l, nonempty (lay_typelist l) = true /\ pristine (lay_typelist l) = true).
Proof.
  apply type_mutind.
  - intros c core [Hn Hp] r. destruct c as [g|], r as [[g' k]|]; simpl;
      rewrite ?Hn, ?Hp, ?String.eqb_refl; auto.
  - intros g n. simpl. rewrite String.eqb_refl. auto.
  - intros g n glt args [Hn Hp] ggt. simpl.
    rewrite Hn, Hp, !String.eqb_refl. auto.
  - intros t [Hn Hp]. simpl. rewrite Hn, Hp. auto.
  - intros t [Hn Hp] g r [Hn' Hp']. simpl.
    rewrite Hn, Hp, Hn', Hp'. auto.
Qed.

Lemma lay_literal_good g v :
  nonempty (lay_literal g v) = true /\ pristine (lay_literal g v) = true.
Proof. destruct v; simpl; rewrite ?String.eqb_refl; auto. Qed.

Lemma lay_param_good p :
  nonempty (lay_param p) = true /\ pristine (lay_param p) = true.
Proof.
  destruct (proj1 lay_type_good (p_type p)) as [Hn Hp].
  unfold lay_param. remember (lay_type (p_type p)) as lt.
  destruct (p_default p) as [d|]; simpl;
    rewrite Hn, Hp, ?String.eqb_refl; simpl; auto.
  destruct (lay_literal_good (gap_lit d) (lit d)) as [Hn' Hp'].
  rewrite Hn', Hp'. auto.
Qed.

Lemma lay_params_good p ps :
  nonempty (lay_params p ps) = true /\ pristine (lay_params p ps) = true.
Proof.
  revert p. induction ps as [|[g p'] ps IH]; intros p;
    destruct (lay_param_good p) as [Hn Hp]; cbn [lay_params].
  - remember (lay_param p) as lp. simpl. rewrite Hn, Hp. auto.
  - destruct (IH p') as [Hn' Hp'].
    remember (lay_param p) as lp. remember (lay_params p' ps) as lps.
    simpl. rewrite Hn, Hp, Hn', Hp'. auto.
Qed.

Lemma lay_sig_good sg :
  nonempty (lay_sig sg) = true /\ pristine (lay_sig sg) = true.
Proof.
  destruct (proj1 lay_type_good (return_type sg)) as [Hn Hp].
  destruct (lay_params_good (param0 sg) (params sg)) as [Hn' Hp'].
  unfold lay_sig. remember (lay_params (param0 sg) (params sg)) as lp.
  remember (lay_type (return_type sg)) as lt. simpl. rewrite Hn, Hp, Hn', Hp', !String.eqb_refl. auto.
Qed.

Lemma ltext_pristine l :
  pristine l = true -> ltext l = render false (alltoks l).
Proof.
  induction l as [ty g s v|d cs IH] using Lay_ind'; intros Hp.
  - simpl in *. apply String.eqb_eq in Hp as ->. now rewrite app_nil_r_s.
  - simpl in *. induction IH as [|c cs Hc _ IHcs]; [reflexivity|].
    simpl in Hp. apply andb_true_iff in Hp as [Hpc Hpr].
    simpl. rewrite render_app, Hc, IHcs by assumption.
    reflexivity.
Qed.

(** ** The policies *)

Lemma stable_emit_all : stable emit_all.
Proof. split; reflexivity. Qed.

Lemma stable_rewrite_signature_emit_fn : stable rewrite_signature_emit_fn.
Proof. split; reflexivity. Qed.

Lemma stable_create_stdfunc_sig_emit_fn : stable create_stdfunc_sig_emit_fn.
Proof. split; reflexivity. Qed.

Lemma stable_create_map_sig_emit_fn : stable create_map_sig_emit_fn.
Proof. split; reflexivity. Qed.

Lemma ptoks_emit_all l : ptoks emit_all l = alltoks l.
Proof.
  induction l as [ty g s v|d cs IH] using Lay_ind'; [reflexivity|].
  simpl. f_equal. induction IH as [|c cs Hc _ IHcs]; [reflexivity|].
  simpl. now rewrite Hc, IHcs.
Qed.

(** An emitter created on the text of [l] and run on its tree. *)
Lemma emit_string_init pol l post :
  stable pol -> nonempty l = true ->
  emit_string (locate 0 l) pol (StringEmit.init (ltext l +:+ post)) =
  Some (emitted (ltext l +:+ post) "" true (ptoks pol l) (width l)).
Proof.
  intros Hst Hne.
  apply (emit_string_locate _ pol l Hst Hne 0 "" post "" true); reflexivity.
Qed.

Lemma rewrite_sig_locate pol l post :
  stable pol -> nonempty l = true ->
  rewrite_sig (locate 0 l) (ltext l +:+ post) pol =
  Some (render true (ptoks pol l)).
Proof.
  intros Hst Hne. unfold rewrite_sig. rewrite emit_string_init by assumption.
  reflexivity.
Qed.

(** ** The text of a signature *)

Lemma render_false_cons g v r :
  render false ((g, v) :: r) = g +:+ render true ((g, v) :: r).
Proof. reflexivity. Qed.

Lemma render_strip_first toks : render false (strip_first toks) = render true toks.
Proof. destruct toks as [|[g v] r]; reflexivity. Qed.

Lemma alltoks_lay_type_head t :
  exists g v r, alltoks (lay_type t) = (g, v) :: r /\
    g = match t with
        | MkType (Some g) _ _ => g
        | MkType None (Atomic g _) _ => g
        | MkType None (Template g _ _ _ _) _ => g
        end.
Proof.
  destruct t as [[g|] [g' n|g' n glt args ggt] r]; simpl; eauto.
Qed.

Lemma alltoks_lay_sig sg :
  alltoks (lay_sig sg) =
  alltoks (lay_type (return_type sg)) ++
  [(gap_name sg, name sg); (gap_lpar sg, "(")] ++
  alltoks (lay_params (param0 sg) (params sg)) ++ [(gap_rpar sg, ")")].
Proof.
  unfold lay_sig. remember (lay_type (return_type sg)) as lt.
  remember (lay_params (param0 sg) (params sg)) as lp.
  reflexivity.
Qed.

Lemma alltoks_lay_sig_head sg :
  exists v r, alltoks (lay_sig sg) = (leading sg, v) :: r.
Proof.
  rewrite alltoks_lay_sig. unfold leading.
  destruct (alltoks_lay_type_head (return_type sg)) as (g & v & r & -> & ->).
  simpl. eauto.
Qed.

Lemma text_render sg :
  text sg = render false (alltoks (lay_sig sg)) +:+ trailing sg.
Proof.
  unfold text. now rewrite (ltext_pristine _ (proj2 (lay_sig_good sg))).
Qed.

(** The identity policy writes the text of a signature from its first token
    to its last one. *)
Lemma rewrite_sig_emit_all sg :
  exists r, rewrite_sig (xtree_of sg) (text sg) emit_all = Some r /\
    text sg = leading sg +:+ r +:+ trailing sg.
Proof.
  exists (render true (alltoks (lay_sig sg))). split.
  - unfold xtree_of, text.
    rewrite rewrite_sig_locate, ptoks_emit_all;
      [reflexivity|apply stable_emit_all|apply lay_sig_good].
  - rewrite text_render.
    destruct (alltoks_lay_sig_head sg) as (v & r & ->).
    rewrite render_false_cons. now rewrite app_assoc_s.
Qed.

(** ** The namespace rewrite *)

Lemma width_lrewrite tmap l : width (lrewrite tmap l) = width l.
Proof.
  induction l as [ty g s v|d cs IH] using Lay_ind'.
  - simpl. destruct (String.eqb ty "TNAME"); [|reflexivity].
    destruct (tmap !! v); reflexivity.
  - simpl. induction IH as [|c cs Hc _ IHcs]; [reflexivity|].
    simpl. now rewrite Hc, IHcs.
Qed.

Lemma ltext_lrewrite tmap l : ltext (lrewrite tmap l) = ltext l.
Proof.
  induction l as [ty g s v|d cs IH] using Lay_ind'.
  - simpl. destruct (String.eqb ty "TNAME"); [|reflexivity].
    destruct (tmap !! v); reflexivity.
  - simpl. induction IH as [|c cs Hc _ IHcs]; [reflexivity|].
    simpl. now rewrite Hc, IHcs.
Qed.

Lemma nonempty_lrewrite tmap l : nonempty (lrewrite tmap l) = nonempty l.
Proof.
  induction l as [ty g s v|d cs IH] using Lay_ind'.
  - simpl. destruct (String.eqb ty "TNAME"); [|reflexivity].
    destruct (tmap !! v); reflexivity.
  - simpl. f_equal.
    + destruct cs; reflexivity.
    + induction IH as [|c cs Hc _ IHcs]; [reflexivity|].
      simpl. now rewrite Hc, IHcs.
Qed.

Lemma for_every_token_upd_locate tmap l p :
  for_every_token_upd (locate p l) (rewrite_signature_rewrite tmap) =
  locate p (lrewrite tmap l).
Proof.
  revert p. induction l as [ty g s v|d cs IH] using Lay_ind'; intros p.
  - simpl. destruct (String.eqb ty "TNAME"); [|reflexivity].
    destruct (tmap !! v); reflexivity.
  - cbn [lrewrite]. rewrite !locate_tree. simpl. f_equal.
    revert p. induction IH as [|c cs Hc _ IHcs]; intros p; [reflexivity|].
    simpl. now rewrite Hc, IHcs, width_lrewrite.
Qed.

Lemma rewrite_signature_lay E sg tmap :
  xparser E (text sg) = Some (xtree_of sg) ->
  rewrite_signature E (text sg) tmap =
  Some (render true
          (ptoks rewrite_signature_emit_fn (lrewrite tmap (lay_sig sg)))).
Proof.
  intros Hx. unfold rewrite_signature. rewrite Hx. cbn [mbind option_bind].
  unfold xtree_of, text. rewrite for_every_token_upd_locate.
  rewrite <- (ltext_lrewrite tmap).
  apply rewrite_sig_locate; [apply stable_rewrite_signature_emit_fn|].
  rewrite nonempty_lrewrite. apply lay_sig_good.
Qed.

Lemma ptoks_rewrite_type tmap :
  (forall t, ptoks rewrite_signature_emit_fn (lrewrite tmap (lay_type t)) =
             alltoks (lay_type (rw_type tmap t))) /\
  (forall c, ptoks rewrite_signature_emit_fn (lrewrite tmap (lay_core c)) =
             alltoks (lay_core (rw_core tmap c))) /\
  (forall l, ptoks rewrite_signature_emit_fn (lrewrite tmap (lay_typelist l)) =
             alltoks (lay_typelist (rw_typelist tmap l))).
Proof.
  apply type_mutind.
  - intros c core IH r. destruct c as [g|], r as [[g' []]|]; simpl in *;
      rewrite ?app_nil_r in *; now rewrite IH.
  - intros g n. simpl. unfold rename. destruct (tmap !! n); reflexivity.
  - intros g n glt args IH ggt. simpl in *. unfold rename.
    rewrite ?app_nil_r in *. rewrite IH. destruct (tmap !! n); reflexivity.
  - intros t IH. simpl in *. now rewrite IH.
  - intros t IH g r IHr. simpl in *. rewrite ?app_nil_r in *.
    now rewrite IH, IHr.
Qed.

Lemma ptoks_rewrite_param tmap p :
  ptoks rewrite_signature_emit_fn (lrewrite tmap (lay_param p)) =
  alltoks (lay_param (rw_param tmap p)).
Proof.
  pose proof (proj1 (ptoks_rewrite_type tmap) (p_type p)) as Ht.
  unfold lay_param. cbn [rw_param p_type p_gap p_name p_default].
  remember (lay_type (p_type p)) as lt.
  remember (lay_type (rw_type tmap (p_type p))) as lt'.
  destruct (p_default p) as [d|]; simpl; now rewrite Ht.
Qed.

Lemma ptoks_rewrite_params tmap p ps :
  ptoks rewrite_signature_emit_fn (lrewrite tmap (lay_params p ps)) =
  alltoks (lay_params (rw_param tmap p)
             (map (fun gp => (gp.1, rw_param tmap gp.2)) ps)).
Proof.
  revert p. induction ps as [|[g p'] ps IH]; intros p;
    pose proof (ptoks_rewrite_param tmap p) as Hp; cbn [lay_params map fst snd].
  - remember (lay_param p) as lp. remember (lay_param (rw_param tmap p)) as lp'.
    simpl. now rewrite Hp.
  - specialize (IH p').
    remember (lay_param p) as lp. remember (lay_param (rw_param tmap p)) as lp'.
    remember (lay_params p' ps) as lps.
    remember (lay_params (rw_param tmap p') _) as lps'.
    simpl. now rewrite Hp, IH.
Qed.

Lemma alltoks_strip_leading t :
  alltoks (lay_type (strip_leading t)) = strip_first (alltoks (lay_type t)).
Proof. destruct t as [[g|] [g' n|g' n glt args ggt] r]; reflexivity. Qed.

Lemma strip_first_app a b :
  a <> [] -> strip_first (a ++ b) = strip_first a ++ b.
Proof. destruct a as [|[g v] a]; [congruence|reflexivity]. Qed.

Lemma alltoks_lay_type_nonnil t : alltoks (lay_type t) <> [].
Proof.
  destruct (alltoks_lay_type_head t) as (g & v & r & -> & _). discriminate.
Qed.

Lemma alltoks_rw_sig tmap sg :
  alltoks (lay_sig (rw_sig tmap sg)) =
  strip_first (ptoks rewrite_signature_emit_fn (lrewrite tmap (lay_sig sg))).
Proof.
  rewrite alltoks_lay_sig. cbn [rw_sig return_type gap_name name gap_lpar param0
    params gap_rpar].
  rewrite alltoks_strip_leading, <- strip_first_app
    by apply alltoks_lay_type_nonnil.
  f_equal.
  pose proof (proj1 (ptoks_rewrite_type tmap) (return_type sg)) as Ht.
  pose proof (ptoks_rewrite_params tmap (param0 sg) (params sg)) as Hp.
  unfold lay_sig.
  remember (lay_type (return_type sg)) as lt.
  remember (lay_params (param0 sg) (params sg)) as lp.
  simpl. now rewrite Ht, Hp.
Qed.

(** [rewrite_signature] writes the text of [rw_sig]. *)
Lemma rewrite_signature_text E sg tmap :
  xparser E (text sg) = Some (xtree_of sg) ->
  rewrite_signature E (text sg) tmap = Some (text (rw_sig tmap sg)).
Proof.
  intros Hx. rewrite (rewrite_signature_lay _ _ _ Hx). f_equal.
  rewrite text_render, alltoks_rw_sig, render_strip_first.
  cbn [rw_sig trailing]. now rewrite app_nil_r_s.
Qed.

(** ** The dispatch key *)

Lemma ptoks_key_type :
  (forall t, ptoks create_map_sig_emit_fn (lay_type t) = key_type t) /\
  (forall c, ptoks create_map_sig_emit_fn (lay_core c) = key_core c) /\
  (forall l, ptoks create_map_sig_emit_fn (lay_typelist l) = key_typelist l).
Proof.
  apply type_mutind.
  - intros c core IH r. destruct c as [g|], r as [[g' []]|]; simpl in *;
      rewrite ?app_nil_r in *; now rewrite IH.
  - intros g n. reflexivity.
  - intros g n glt args IH ggt. simpl in *. rewrite ?app_nil_r in *.
    now rewrite IH.
  - intros t IH. simpl in *. rewrite ?app_nil_r in *. now rewrite IH.
  - intros t IH g r IHr. simpl in *. rewrite ?app_nil_r in *.
    now rewrite IH, IHr.
Qed.

Lemma ptoks_key_param p :
  ptoks create_map_sig_emit_fn (lay_param p) = key_param p.
Proof.
  pose proof (proj1 ptoks_key_type (p_type p)) as Ht.
  unfold lay_param, key_param. remember (lay_type (p_type p)) as lt.
  destruct (p_default p) as [d|]; simpl; rewrite Ht, ?app_nil_r;
    [|reflexivity].
  destruct (lit d); reflexivity.
Qed.

Lemma ptoks_key_params p ps :
  ptoks create_map_sig_emit_fn (lay_params p ps) = key_params p ps.
Proof.
  revert p. induction ps as [|[g p'] ps IH]; intros p;
    pose proof (ptoks_key_param p) as Hp; cbn [lay_params key_params].
  - remember (lay_param p) as lp. simpl. now rewrite Hp, app_nil_r.
  - specialize (IH p'). remember (lay_param p) as lp.
    remember (lay_params p' ps) as lps. simpl. now rewrite Hp, IH, app_nil_r.
Qed.

(** ** The tree of a signature and its parts *)

Lemma xtree_of_parts sg :
  xtree_of sg =
  Tree "start"
    [locate 0 (lay_type (return_type sg));
     locate (off_name sg) (lay_fnname sg);
     locate (off_lpar sg) (tok "LPAR" (gap_lpar sg) "(");
     locate (off_params sg) (lay_params (param0 sg) (params sg));
     locate (off_rpar sg) (tok "RPAR" (gap_rpar sg) ")")].
Proof. reflexivity. Qed.

Lemma text_parts sg :
  text sg =
  ltext (lay_type (return_type sg)) +:+ ltext (lay_fnname sg) +:+
  (gap_lpar sg +:+ "(") +:+ ltext (lay_params (param0 sg) (params sg)) +:+
  (gap_rpar sg +:+ ")") +:+ trailing sg.
Proof.
  unfold text, lay_sig, lay_fnname.
  remember (lay_type (return_type sg)) as lt.
  remember (lay_params (param0 sg) (params sg)) as lp.
  simpl. now rewrite !app_assoc_s, ?app_nil_r_s.
Qed.

Lemma is_Tree_with_lay_type p t : is_Tree_with "type" (locate p (lay_type t)) = true.
Proof. destruct t; reflexivity. Qed.

Lemma is_Tree_with_lay_params q p ps :
  is_Tree_with "params" (locate q (lay_params p ps)) = true.
Proof. destruct ps as [|[g p'] ps]; reflexivity. Qed.

Lemma typed_child_nth d cs (n : nat) ty c :
  cs !! n = Some c -> is_Tree_with ty c = true ->
  typed_child (Tree d cs) (Z.of_nat n) ty = Some c.
Proof.
  intros Hn Hty. unfold typed_child. cbn [children mbind option_bind].
  pose proof (lookup_lt_Some _ _ _ Hn) as Hlt.
  destruct (Z.ltb_spec (Z.of_nat n) (Z.of_nat (length cs))); [|lia].
  cbn [assert mbind option_bind]. unfold py_nth.
  destruct (Z.ltb_spec (Z.of_nat n) 0); [lia|].
  rewrite Nat2Z.id, Hn. cbn [mbind option_bind]. now rewrite Hty.
Qed.

Lemma typed_child_type sg :
  typed_child (xtree_of sg) 0 "type" =
  Some (locate 0 (lay_type (return_type sg))).
Proof.
  rewrite xtree_of_parts.
  apply (typed_child_nth _ _ 0%nat); [reflexivity|apply is_Tree_with_lay_type].
Qed.

Lemma typed_child_fnname sg :
  typed_child (xtree_of sg) 1 "fnname" =
  Some (locate (off_name sg) (lay_fnname sg)).
Proof.
  rewrite xtree_of_parts.
  apply (typed_child_nth _ _ 1%nat); reflexivity.
Qed.

Lemma typed_child_params sg :
  typed_child (xtree_of sg) 3 "params" =
  Some (locate (off_params sg) (lay_params (param0 sg) (params sg))).
Proof.
  rewrite xtree_of_parts.
  apply (typed_child_nth _ _ 3%nat); [reflexivity|apply is_Tree_with_lay_params].
Qed.

(** A fresh emitter run on a part of a signature. *)
Lemma emit_string_part sref pol l pre post sval p :
  stable pol -> nonempty l = true ->
  sref = pre +:+ ltext l +:+ post -> p = py_len pre ->
  emit_string (locate p l) pol (StringEmit.mk sref sval (-1)) =
  Some (emitted sref sval true (ptoks pol l) (p + width l)).
Proof.
  intros Hst Hne Hsref ->.
  apply (emit_string_locate sref pol l Hst Hne (py_len pre) pre post sval true
           Hsref eq_refl).
Qed.

Lemma emit_type sg pol sval :
  stable pol ->
  emit_string (locate 0 (lay_type (return_type sg))) pol
    (StringEmit.mk (text sg) sval (-1)) =
  Some (emitted (text sg) sval true (ptoks pol (lay_type (return_type sg)))
          (0 + width (lay_type (return_type sg)))).
Proof.
  intros Hst.
  eapply (emit_string_part _ _ _ "");
    [exact Hst|apply lay_type_good|apply text_parts|reflexivity].
Qed.

Lemma nonempty_lay_fnname sg : nonempty (lay_fnname sg) = true.
Proof. reflexivity. Qed.

Lemma emit_fnname sg pol sval :
  stable pol ->
  emit_string (locate (off_name sg) (lay_fnname sg)) pol
    (StringEmit.mk (text sg) sval (-1)) =
  Some (emitted (text sg) sval true (ptoks pol (lay_fnname sg))
          (off_name sg + width (lay_fnname sg))).
Proof.
  intros Hst.
  eapply (emit_string_part _ _ _ (ltext (lay_type (return_type sg))));
    [exact Hst|apply nonempty_lay_fnname|apply text_parts|].
  unfold off_name. now rewrite py_len_ltext.
Qed.

Lemma emit_params sg pol sval :
  stable pol ->
  emit_string (locate (off_params sg) (lay_params (param0 sg) (params sg))) pol
    (StringEmit.mk (text sg) sval (-1)) =
  Some (emitted (text sg) sval true
          (ptoks pol (lay_params (param0 sg) (params sg)))
          (off_params sg + width (lay_params (param0 sg) (params sg)))).
Proof.
  intros Hst.
  eapply (emit_string_part _ _ _
            (ltext (lay_type (return_type sg)) +:+ ltext (lay_fnname sg) +:+
             (gap_lpar sg +:+ "(")));
    [exact Hst|apply lay_params_good| |].
  - rewrite text_parts. now rewrite !app_assoc_s.
  - unfold off_params, off_lpar, off_name.
    rewrite !py_len_app, !py_len_ltext. lia.
Qed.

Lemma append_emitted sref sval fresh toks q s :
  StringEmit.append (emitted sref sval fresh toks q) s =
  StringEmit.mk sref ((sval +:+ render fresh toks) +:+ s) (-1).
Proof. reflexivity. Qed.

Lemma render_true_single g v : render true [(g, v)] = v.
Proof. simpl. now rewrite app_nil_r_s. Qed.

Lemma ptoks_key_fnname sg :
  ptoks create_map_sig_emit_fn (lay_fnname sg) = [(gap_name sg, name sg)].
Proof. reflexivity. Qed.

(** [create_map_sig] writes [mapsig_of]. *)
Lemma create_map_sig_text sg :
  create_map_sig (xtree_of sg) (text sg) = Some (mapsig_of sg).
Proof.
  unfold create_map_sig, StringEmit.init.
  rewrite typed_child_fnname. cbn [mbind option_bind].
  rewrite emit_fnname by apply stable_create_map_sig_emit_fn.
  cbn [mbind option_bind]. rewrite append_emitted.
  rewrite typed_child_params. cbn [mbind option_bind].
  rewrite emit_params by apply stable_create_map_sig_emit_fn.
  cbn [mbind option_bind]. rewrite append_emitted.
  rewrite typed_child_type. cbn [mbind option_bind].
  rewrite emit_type by apply stable_create_map_sig_emit_fn.
  cbn [mbind option_bind]. unfold StringEmit.repr, emitted.
  cbn [StringEmit.sval]. f_equal.
  rewrite ptoks_key_params, (proj1 ptoks_key_type).
  rewrite ptoks_key_fnname, render_true_single. unfold mapsig_of.
  now rewrite !app_assoc_s.
Qed.

(** [create_stdfunc_sig] writes [funsig_of]. *)
Lemma create_stdfunc_sig_text sg :
  create_stdfunc_sig (xtree_of sg) (text sg) = Some (funsig_of sg).
Proof.
  unfold create_stdfunc_sig, StringEmit.init.
  rewrite typed_child_type. cbn [mbind option_bind].
  rewrite emit_type by apply stable_create_stdfunc_sig_emit_fn.
  cbn [mbind option_bind]. rewrite append_emitted.
  rewrite typed_child_params. cbn [mbind option_bind].
  rewrite emit_params by apply stable_create_stdfunc_sig_emit_fn.
  cbn [mbind option_bind]. rewrite append_emitted.
  unfold StringEmit.repr, StringEmit.append. cbn [StringEmit.sval]. f_equal.
  unfold funsig_of. now rewrite !app_assoc_s.
Qed.

(** [get_function_signature] names the wrapper once and writes
    [cppsig_of]. *)
Lemma get_function_signature_text sg (namefn : string -> M string) ctx :
  get_function_signature (xtree_of sg) (text sg) namefn ctx =
  match namefn (name sg) ctx with
  | (Some xfname, ctx') => (Some (cppsig_of sg xfname, name sg, xfname), ctx')
  | (None, ctx') => (None, ctx')
  end.
Proof.
  unfold get_function_signature, StringEmit.init.
  unfold mbind, M_bind, bind, lift.
  rewrite typed_child_type.
  rewrite emit_type by apply stable_emit_all.
  rewrite typed_child_fnname. cbn [mbind option_bind children lay_fnname].
  replace (option_bind _ _ _ (children (locate (off_name sg) (lay_fnname sg))))
    with (Some (locate (off_name sg) (tok "CNAME" (gap_name sg) (name sg))))
    by reflexivity.
  cbn [value locate tok].
  destruct (namefn (name sg) ctx) as [[xfname|] ctx']; [|reflexivity].
  rewrite append_emitted, typed_child_params.
  rewrite emit_params by apply stable_emit_all.
  rewrite append_emitted. unfold ret, StringEmit.repr. cbn [StringEmit.sval].
  do 3 f_equal. unfold cppsig_of. rewrite !ptoks_emit_all.
  now rewrite !app_assoc_s.
Qed.

Lemma get_return_type_str_ok sg :
  exists s, get_return_type_str (xtree_of sg) (text sg) = Some s.
Proof. rewrite xtree_of_parts. eexists. reflexivity. Qed.

(** ** Reading the compact tree of a signature *)

Lemma compact_locate_tree p d cs :
  compact (locate p (LTree d cs)) = Tree d (compact_list (locate_list p cs)).
Proof. reflexivity. Qed.

Lemma type_core_lay_type p t :
  type_core (compact (locate p (lay_type t))) = Some (core_name t).
Proof.
  destruct t as [[g|] [g' n|g' n glt args ggt] [[g'' []]|]]; reflexivity.
Qed.

Lemma type_is_const_lay_type p t :
  type_is_const (compact (locate p (lay_type t))) = Some (type_const t).
Proof.
  destruct t as [[g|] [g' n|g' n glt args ggt] [[g'' []]|]]; reflexivity.
Qed.

Lemma type_is_ref_lay_type p t :
  type_is_refptr (compact (locate p (lay_type t))) "&" = Some (type_ref t).
Proof.
  destruct t as [[g|] [g' n|g' n glt args ggt] [[g'' []]|]]; reflexivity.
Qed.

Lemma type_is_ptr_lay_type p t :
  type_is_refptr (compact (locate p (lay_type t))) "*" = Some (type_ptr t).
Proof.
  destruct t as [[g|] [g' n|g' n glt args ggt] [[g'' []]|]]; reflexivity.
Qed.

Lemma param_type_node prm n :
  param_node prm n ->
  exists p, param_type n = Some (compact (locate p (lay_type (p_type prm)))).
Proof.
  intros [p ->]. exists p. destruct prm as [[c core r] g nm d].
  destruct d; reflexivity.
Qed.

Lemma param_name_node prm n : param_node prm n -> param_name n = Some (p_name prm).
Proof.
  intros [p ->]. destruct prm as [[c core r] g nm d]. destruct d; reflexivity.
Qed.

Lemma param_core_node prm n :
  param_node prm n ->
  exists ptype, param_type n = Some ptype /\
    type_core ptype = Some (core_name (p_type prm)) /\
    type_is_const ptype = Some (type_const (p_type prm)).
Proof.
  intros Hn. destruct (param_type_node _ _ Hn) as [p Hp].
  eexists. split; [exact Hp|]. split.
  - apply type_core_lay_type.
  - apply type_is_const_lay_type.
Qed.

Lemma compact_lay_params_shape q p ps :
  exists cs, compact (locate q (lay_params p ps)) = Tree "params" cs.
Proof. destruct ps as [|[g p'] ps]; eexists; reflexivity. Qed.

Lemma extract_list_lay_params ps : forall p q l,
  exists nodes,
    extract_list (compact (locate q (lay_params p ps))) l = Some (l ++ nodes) /\
    Forall2 param_node (p :: map snd ps) nodes.
Proof.
  induction ps as [|[g p'] ps IH]; intros p q l.
  - exists [compact (locate q (lay_param p))]. split.
    + reflexivity.
    + repeat constructor. now exists q.
  - destruct (IH p' (q + width (lay_param p) + (py_len g + py_len ","))
                (l ++ [compact (locate q (lay_param p))]))
      as (nodes & Hex & Hall).
    exists (compact (locate q (lay_param p)) :: nodes). split.
    + cbn [lay_params]. rewrite compact_locate_tree.
      cbn [locate_list compact_list filtered_out tok locate anonymous existsb
           String.eqb Ascii.eqb Bool.eqb orb width].
      change (filtered_out (locate q (lay_param p))) with false.
      destruct (compact_lay_params_shape
                  (q + width (lay_param p) + (py_len g + py_len ",")) p' ps)
        as [cs Hcs].
      assert (filtered_out
                (locate (q + width (lay_param p) + (py_len g + py_len ","))
                   (lay_params p' ps)) = false) as ->
        by (destruct ps as [|[? ?] ?]; reflexivity).
      cbn [extract_list]. rewrite Hcs in *. cbn [String.eqb Ascii.eqb Bool.eqb].
      rewrite Hex. now rewrite <- app_assoc.
    + constructor; [now exists q|assumption].
Qed.

Lemma tree_of_parts sg :
  tree_of sg =
  Tree "start"
    [compact (locate 0 (lay_type (return_type sg)));
     compact (locate (off_name sg) (lay_fnname sg));
     compact (locate (off_params sg) (lay_params (param0 sg) (params sg)))].
Proof.
  unfold tree_of. rewrite xtree_of_parts, compact_tree.
  cbn [compact_list].
  assert (filtered_out (locate 0 (lay_type (return_type sg))) = false) as ->
    by (destruct (return_type sg); reflexivity).
  assert (filtered_out
            (locate (off_params sg) (lay_params (param0 sg) (params sg))) = false)
    as -> by (destruct (params sg) as [|[? ?] ?]; reflexivity).
  reflexivity.
Qed.

(** [get_parameters] gives the nodes of the parameters, in order. *)
Lemma get_parameters_nodes sg :
  exists nodes,
    get_parameters (tree_of sg) = Some nodes /\
    Forall2 param_node (parameters sg) nodes.
Proof.
  destruct (extract_list_lay_params (params sg) (param0 sg) (off_params sg) [])
    as (nodes & Hex & Hall).
  exists nodes. split; [|exact Hall].
  rewrite tree_of_parts. unfold get_parameters.
  cbn [children mbind option_bind].
  replace (py_nth _ 2)
    with (Some (compact (locate (off_params sg)
                           (lay_params (param0 sg) (params sg)))))
    by reflexivity.
  cbn [mbind option_bind].
  destruct (compact_lay_params_shape (off_params sg) (param0 sg) (params sg))
    as [cs Hcs].
  rewrite Hcs in *. cbn [is_Tree_with String.eqb Ascii.eqb Bool.eqb assert mbind
                         option_bind].
  exact Hex.
Qed.

(** The return type in the compact tree. *)
Lemma return_type_node sg :
  (cs ← children (tree_of sg); py_nth cs 0) =
  Some (compact (locate 0 (lay_type (return_type sg)))).
Proof. rewrite tree_of_parts. reflexivity. Qed.

(** ** Election of the reference parameter *)

Lemma get_reference_param_from_loop fnopts ps nodes :
  Forall2 param_node ps nodes ->
  forall ref other,
    get_reference_param_from nodes fnopts ref other =
    Some (elect_loop ps nodes fnopts ref other).
Proof.
  induction 1 as [|prm n ps nodes Hn _ IH]; intros ref other.
  - reflexivity.
  - cbn [get_reference_param_from elect_loop].
    destruct (param_core_node _ _ Hn) as (ptype & -> & Hcore & Hconst).
    cbn [mbind option_bind]. rewrite Hcore. cbn [mbind option_bind].
    rewrite (param_name_node _ _ Hn). cbn [mbind option_bind].
    destruct (fnopts_names fnopts (p_name prm)); [reflexivity|].
    fold (is_opaque prm).
    change (String.eqb (core_name (p_type prm)) "TensorOptions" ||
            String.eqb (core_name (p_type prm)) "TensorList")
      with (is_bag_or_list prm).
    destruct (is_opaque prm); cbn [negb].
    + rewrite Hconst.
      destruct ref as [r|]; cbn [bool_decide negb andb mbind option_bind];
        [apply IH|].
      replace (bool_decide (is_Some (@None Node))) with false by reflexivity.
      cbn [negb andb].
      destruct (String.eqb (p_name prm) "self"); cbn [orb mbind option_bind].
      * apply IH.
      * destruct (type_const (p_type prm)); apply IH.
    + apply IH.
Qed.

Lemma pick_S {A} (x : A) xs i : pick (x :: xs) (S <$> i) = pick xs i.
Proof. destruct i; reflexivity. Qed.

(** The loop, in one formula. *)
Lemma elect_loop_closed {A} fnopts (ps : list Param) :
  forall (xs : list A) ref other,
    length ps = length xs ->
    elect_loop ps xs fnopts ref other =
    match first_index (fun p => fnopts_names fnopts (p_name p)) ps with
    | Some i => xs !! i
    | None =>
        match ref with
        | Some r => Some r
        | None =>
            match first_index is_primary ps with
            | Some i => xs !! i
            | None =>
                match last_index is_opaque ps with
                | Some i => xs !! i
                | None =>
                    match other with
                    | Some o => Some o
                    | None => pick xs (first_index is_bag_or_list ps)
                    end
                end
            end
        end
    end.
Proof.
  induction ps as [|prm ps IH]; intros [|x xs] ref other Hlen;
    try discriminate.
  - destruct ref, other; reflexivity.
  - injection Hlen as Hlen.
    cbn [elect_loop first_index last_index]. unfold is_primary at 1.
    destruct (fnopts_names fnopts (p_name prm)); [reflexivity|].
    destruct (is_opaque prm); cbn [negb andb].
    + rewrite (IH xs _ _ Hlen).
      destruct (first_index (fun p => fnopts_names fnopts (p_name p)) ps)
        as [i|]; [reflexivity|]. cbn [fmap option_fmap option_map].
      destruct ref as [r|].
      * reflexivity.
      * replace (bool_decide (is_Some (@None A))) with false by reflexivity.
        cbn [negb andb].
        destruct (String.eqb (p_name prm) "self" || type_const (p_type prm));
          [reflexivity|].
        destruct (first_index is_primary ps) as [i|]; [reflexivity|].
        cbn [fmap option_fmap option_map].
        destruct (last_index is_opaque ps) as [i|]; reflexivity.
    + rewrite (IH xs _ _ Hlen).
      destruct (first_index (fun p => fnopts_names fnopts (p_name p)) ps)
        as [i|]; [reflexivity|]. cbn [fmap option_fmap option_map].
      destruct ref as [r|]; [reflexivity|].
      destruct (first_index is_primary ps) as [i|]; [reflexivity|].
      cbn [fmap option_fmap option_map].
      destruct (last_index is_opaque ps) as [i|]; [reflexivity|].
      destruct other as [o|].
      * reflexivity.
      * replace (bool_decide (is_Some (@None A))) with false by reflexivity.
        cbn [negb andb].
        destruct (is_bag_or_list prm); [reflexivity|].
        destruct (first_index is_bag_or_list ps); reflexivity.
Qed.

(** [get_reference_param] on the nodes of the parameters elects the
    parameter [elect] gives. *)
Lemma get_reference_param_elect fnopts ps nodes :
  Forall2 param_node ps nodes ->
  get_reference_param nodes fnopts = Some (pick nodes (elect fnopts ps)).
Proof.
  intros Hall. unfold get_reference_param.
  rewrite (get_reference_param_from_loop _ _ _ Hall). f_equal.
  rewrite elect_loop_closed by apply (Forall2_length _ _ _ Hall).
  unfold elect, elect_default.
  destruct (first_index (fun p => fnopts_names fnopts (p_name p)) ps);
    [reflexivity|].
  destruct (first_index is_primary ps); [reflexivity|].
  destruct (last_index is_opaque ps); reflexivity.
Qed.

Lemma first_index_lt {A} (P : A -> bool) l i :
  first_index P l = Some i -> (i < length l)%nat /\
    exists x, l !! i = Some x /\ P x = true.
Proof.
  revert i. induction l as [|x l IH]; intros i; [discriminate|].
  cbn [first_index]. destruct (P x) eqn:HP.
  - intros [= <-]. split; [simpl; lia|]. exists x. auto.
  - destruct (first_index P l) as [j|]; [|discriminate].
    intros [= <-]. destruct (IH j eq_refl) as (Hlt & y & Hy & HPy).
    split; [simpl; lia|]. exists y. auto.
Qed.

Lemma last_index_lt {A} (P : A -> bool) l i :
  last_index P l = Some i -> (i < length l)%nat /\
    exists x, l !! i = Some x /\ P x = true.
Proof.
  revert i. induction l as [|x l IH]; intros i; [discriminate|].
  cbn [last_index]. destruct (last_index P l) as [j|].
  - intros [= <-]. destruct (IH j eq_refl) as (Hlt & y & Hy & HPy).
    split; [simpl; lia|]. exists y. auto.
  - destruct (P x) eqn:HP; [|discriminate].
    intros [= <-]. split; [simpl; lia|]. exists x. auto.
Qed.

Lemma first_index_none {A} (P : A -> bool) l :
  first_index P l = None -> forall x, In x l -> P x = false.
Proof.
  induction l as [|y l IH]; intros Hn x Hin; [destruct Hin|].
  cbn [first_index] in Hn. destruct (P y) eqn:HP; [discriminate|].
  destruct (first_index P l); [discriminate|].
  destruct Hin as [<-|Hin]; auto.
Qed.

Lemma last_index_none {A} (P : A -> bool) l :
  last_index P l = None -> forall x, In x l -> P x = false.
Proof.
  induction l as [|y l IH]; intros Hn x Hin; [destruct Hin|].
  cbn [last_index] in Hn. destruct (last_index P l); [discriminate|].
  destruct (P y) eqn:HP; [discriminate|].
  destruct Hin as [<-|Hin]; auto.
Qed.

(** ** The wrapper, step by step *)

Lemma get_xla_wrapper_unfold E orig_sig :
  get_xla_wrapper E orig_sig =
  (tree ← lift (parser E orig_sig);
   xtree ← lift (xparser E orig_sig);
   mapsig ← lift (create_map_sig xtree orig_sig);
   rwsig ← lift (rewrite_signature E orig_sig (type_nsmap E));
   rwxtree ← lift (xparser E rwsig);
   params ← lift (get_parameters tree);
   let fnopts := function_options E !! mapsig in
   ref_param ← lift (get_reference_param params fnopts);
   r ← get_function_signature rwxtree rwsig gen_fnname;
   let '(sig, fname, xfname) := r in
   if is_blacklisted_fn E fname mapsig then ret None
   else wrapper_body E tree xtree rwxtree orig_sig mapsig rwsig params fnopts
          ref_param sig fname xfname).
Proof. reflexivity. Qed.

Lemma gen_fnname_eq x ctx :
  gen_fnname x ctx = (Some (wrapper_name x ctx), count_name x ctx).
Proof.
  unfold gen_fnname, wrapper_name, count_name.
  destruct (gen_class_mode ctx); [reflexivity|].
  destruct (defdb ctx !! x); reflexivity.
Qed.

Lemma name_rw_sig tmap sg : name (rw_sig tmap sg) = name sg.
Proof. reflexivity. Qed.

(** Up to the blacklist: the signature is parsed, its key and its rewritten
    text are written, the reference parameter is elected and the wrapper is
    named. *)
Lemma get_xla_wrapper_front E sg ctx nodes :
  parses E sg ->
  xparser E (text (rw_sig (type_nsmap E) sg)) =
    Some (xtree_of (rw_sig (type_nsmap E) sg)) ->
  get_parameters (tree_of sg) = Some nodes ->
  Forall2 param_node (parameters sg) nodes ->
  let rwsg := rw_sig (type_nsmap E) sg in
  let fnopts := function_options E !! mapsig_of sg in
  get_xla_wrapper E (text sg) ctx =
  if is_blacklisted_fn E (name sg) (mapsig_of sg)
  then (Some None, count_name (name sg) ctx)
  else
    wrapper_body E (tree_of sg) (xtree_of sg) (xtree_of rwsg) (text sg)
      (mapsig_of sg) (text rwsg) nodes fnopts
      (pick nodes (elect fnopts (parameters sg)))
      (cppsig_of rwsg (wrapper_name (name sg) ctx)) (name sg)
      (wrapper_name (name sg) ctx) (count_name (name sg) ctx).
Proof.
  intros [Hp Hx] Hrw Hnodes Hall rwsg fnopts. subst rwsg fnopts.
  rewrite get_xla_wrapper_unfold. unfold mbind, M_bind, bind, lift.
  rewrite Hp, Hx, create_map_sig_text.
  rewrite (rewrite_signature_text _ _ _ Hx), Hrw, Hnodes.
  cbv zeta.
  rewrite (get_reference_param_elect _ _ _ Hall).
  rewrite get_function_signature_text, gen_fnname_eq, name_rw_sig.
  destruct (is_blacklisted_fn E (name sg) (mapsig_of sg)); reflexivity.
Qed.

Lemma py_nth_last {A} (l : list A) (x : A) : py_nth (l ++ [x]) (-1) = Some x.
Proof.
  unfold py_nth. rewrite length_app. cbn [length].
  destruct (Z.ltb_spec (-1) 0); [|lia].
  destruct (Z.leb_spec 0 (-1 + Z.of_nat (length l + 1))); [|lia].
  replace (Z.to_nat (-1 + Z.of_nat (length l + 1))) with (length l) by lia.
  rewrite lookup_app_r by lia. now rewrite Nat.sub_diag.
Qed.

Lemma py_nth_0 {A} (x : A) (l : list A) : py_nth (x :: l) 0 = Some x.
Proof. reflexivity. Qed.

(** The loop over the parameters goes through, with a variable for every
    parameter. *)
Lemma wrapper_params_ok E fname ps nodes ref fnopts :
  Forall2 param_node ps nodes ->
  forall code tf pv xr,
  exists code' tf' pv' xr',
    wrapper_params E fname nodes ref fnopts code tf pv xr =
      Some (code', tf', pv', xr') /\
    length pv' = (length pv + length nodes)%nat /\
    (ref = None -> xr' = xr).
Proof.
  induction 1 as [|prm n ps nodes Hn _ IH]; intros code tf pv xr.
  - exists code, tf, pv, xr. cbn [wrapper_params length].
    repeat split; auto with lia.
  - assert (forall code1 tf1 x,
      exists code' tf' pv' xr',
        (xla_ref_param ←
           (if is_ref_param n ref && negb (fnopts_has_ref_param fnopts)
            then v ← py_nth (pv ++ [x]) (-1); Some (Some v)
            else Some xr);
         wrapper_params E fname nodes ref fnopts code1 tf1 (pv ++ [x])
           xla_ref_param) = Some (code', tf', pv', xr') /\
        length pv' = (length pv + length (n :: nodes))%nat /\
        (ref = None -> xr' = xr)) as Hstep.
    { intros code1 tf1 x. rewrite py_nth_last.
      destruct (is_ref_param n ref && negb (fnopts_has_ref_param fnopts))
        eqn:Hb; cbn [mbind option_bind].
      - destruct (IH code1 tf1 (pv ++ [x]) (Some x))
          as (code' & tf' & pv' & xr' & Heq & Hlen & Hxr).
        exists code', tf', pv', xr'. split; [exact Heq|]. split.
        + rewrite Hlen, length_app. cbn [length]. lia.
        + intros ->. discriminate.
      - destruct (IH code1 tf1 (pv ++ [x]) xr)
          as (code' & tf' & pv' & xr' & Heq & Hlen & Hxr).
        exists code', tf', pv', xr'. split; [exact Heq|]. split.
        + rewrite Hlen, length_app. cbn [length]. lia.
        + exact Hxr. }
    cbn [wrapper_params].
    destruct (param_core_node _ _ Hn) as (ptype & -> & Hcore & Hconst).
    cbn [mbind option_bind]. rewrite Hcore. cbn [mbind option_bind].
    rewrite (param_name_node _ _ Hn). cbn [mbind option_bind].
    destruct (String.eqb (core_name (p_type prm)) "TensorList");
      [apply Hstep|].
    destruct (String.eqb (core_name (p_type prm)) "TensorOptions").
    { destruct (rewrite_tensor_options E fname (p_name prm)). apply Hstep. }
    destruct (String.eqb (core_name (p_type prm)) "Tensor"); cbn [negb];
      [|apply Hstep].
    rewrite Hconst. cbn [mbind option_bind].
    destruct (TensorFetcher.add tf (p_name prm)
                (negb (type_const (p_type prm)))). apply Hstep.
Qed.

Lemma generate_result_assignment_text sg :
  generate_result_assignment (tree_of sg) _RESULT_NAME =
  Some (result_assign_of (return_type sg)).
Proof.
  unfold generate_result_assignment. rewrite tree_of_parts.
  cbn [children mbind option_bind]. rewrite py_nth_0. cbn [mbind option_bind].
  rewrite type_core_lay_type. cbn [mbind option_bind].
  unfold result_assign_of, returns_nothing.
  destruct (String.eqb (core_name (return_type sg)) "void"); cbn [andb].
  - rewrite type_is_ptr_lay_type. cbn [mbind option_bind].
    destruct (type_ptr (return_type sg)); reflexivity.
  - reflexivity.
Qed.

Lemma py_truthy_result_assign t :
  py_truthy (result_assign_of t) = negb (returns_nothing t).
Proof. unfold result_assign_of. destruct (returns_nothing t); reflexivity. Qed.

(** The return statement for a return type whose core is [Tensor]. *)
Lemma generate_return_stmt_tensor sg rtype_str fname n nodes v pv ref :
  String.eqb (core_name (return_type sg)) "Tensor" = true ->
  param_node (param0 sg) n ->
  generate_return_stmt (tree_of sg) rtype_str fname
    (rname_of (return_type sg)) (n :: nodes) (v :: pv) ref =
  if type_const (return_type sg) || type_ref (return_type sg)
  then Some (return_stmt (p_name (param0 sg)))
  else
    match ref with
    | Some r =>
        match param_name r with
        | Some refname => Some (return_stmt (tensor_return sg refname))
        | None => None
        end
    | None => None
    end.
Proof.
  intros Hcore Hn. unfold generate_return_stmt. rewrite tree_of_parts.
  cbn [children mbind option_bind]. rewrite !py_nth_0. cbn [mbind option_bind].
  rewrite type_core_lay_type. cbn [mbind option_bind].
  apply String.eqb_eq in Hcore. rewrite Hcore.
  cbn [String.eqb Ascii.eqb Bool.eqb].
  cbn [mbind option_bind]. unfold get_return_value.
  rewrite type_core_lay_type, type_is_const_lay_type. cbn [mbind option_bind].
  unfold tensor_return, rname_of, returns_nothing. rewrite Hcore.
  cbn [String.eqb Ascii.eqb Bool.eqb andb].
  destruct (type_const (return_type sg)); cbn [mbind option_bind orb].
  - rewrite (param_name_node _ _ Hn). reflexivity.
  - rewrite type_is_ref_lay_type. cbn [mbind option_bind].
    destruct (type_ref (return_type sg)).
    + cbn [mbind option_bind]. rewrite (param_name_node _ _ Hn). reflexivity.
    + cbn [negb]. destruct ref as [r|]; [|reflexivity].
      cbn [mbind option_bind]. destruct (param_name r); reflexivity.
Qed.

(** After the blacklist: the wrapper is the text around the return statement,
    or nothing when the return statement raises. *)
Lemma wrapper_body_result E sg rwsg ctx nodes fnopts ref sig xfname :
  Forall2 param_node (parameters sg) nodes ->
  (forall r, ref = Some r -> exists refname, param_name r = Some refname) ->
  exists code tf pv xr rtype_str,
    pv <> [] /\
    (ref = None -> xr = None) /\
    wrapper_body E (tree_of sg) (xtree_of sg) (xtree_of rwsg) (text sg)
      (mapsig_of sg) (text rwsg) nodes fnopts ref sig (name sg) xfname ctx =
    match generate_return_stmt (tree_of sg) rtype_str (name sg)
            (rname_of (return_type sg)) nodes pv ref with
    | Some stmt =>
        (Some (Some (FuncGen.mk (tree_of sg) (xtree_of sg) (xtree_of rwsg)
                       (name sg) xfname
                       ((wrapper_code E ctx sg sig code tf pv xr +:+ stmt) +:+ "}")
                       (text sg) (text rwsg) sig (funsig_of rwsg)
                       (mapsig_of sg))), ctx)
    | None => (None, ctx)
    end.
Proof.
  intros Hall Href. unfold wrapper_body.
  assert (exists x,
    match ref with
    | Some r => name ← param_name r; Some (Some name)
    | None => Some None
    end = Some x /\ (ref = None -> x = None)) as (x0 & Hx0 & Hx0n).
  { destruct ref as [r|].
    - destruct (Href r eq_refl) as [refname ->]. eexists. split;
        [reflexivity|discriminate].
    - eauto. }
  rewrite Hx0.
  destruct (wrapper_params_ok E (name sg) _ _ ref fnopts Hall
              (sig +:+ " " +:+ (if gen_class_mode ctx then "const " else "") +:+
               "{" +:+ nl)
              (TensorFetcher.init "xlatens") [] x0)
    as (code & tf & pv & xr & Hwp & Hlen & Hxr).
  unfold mbind, M_bind, bind, get_ctx, lift. rewrite Hwp.
  destruct (get_return_type_str_ok rwsg) as [rtype_str Hrts].
  exists code, tf, pv, xr, rtype_str. split; [|split].
  - intros ->. inversion Hall; subst. cbn [length] in Hlen. lia.
  - intros Hnone. rewrite (Hxr Hnone). auto.
  - rewrite generate_result_assignment_text, py_truthy_result_assign, Hrts.
    rewrite create_stdfunc_sig_text.
    unfold rname_of, wrapper_code, generate_debug_code.
    rewrite py_truthy_result_assign.
    destruct (returns_nothing (return_type sg)); cbn [negb];
      destruct (generate_return_stmt _ _ _ _ _ _ _); reflexivity.
Qed.

(** * The claims *)

(** ** Reference parameter (C1) *)

(** C1, as amended.  For every parsed signature, [get_reference_param] on the
    parameters of its tree elects: the first parameter an override names, if
    the signature has one of that name; else the first [Tensor] parameter
    that is named [self] or is const; else the last [Tensor] parameter; and
    only when the signature has no [Tensor] parameter, the first
    [TensorOptions] or [TensorList] parameter. *)
Theorem get_reference_param_elects (sg : Signature) (fnopts : option FuncOpts) :
  exists nodes,
    get_parameters (tree_of sg) = Some nodes /\
    Forall2 param_node (parameters sg) nodes /\
    get_reference_param nodes fnopts =
      Some (pick nodes (elect fnopts (parameters sg))).
Proof.
  destruct (get_parameters_nodes sg) as (nodes & Hget & Hall).
  exists nodes. repeat split; [exact Hget|exact Hall|].
  apply get_reference_param_elect, Hall.
Qed.

(** C1, as stated, fails on [Tensor stack(TensorList tensors, Tensor other)]:
    the claim elects the tensor list [tensors], the first options bag or
    list, before it falls back to a tensor; the code elects [other], the last
    tensor. *)
Lemma get_reference_param_not_as_claimed :
  text sig_stack = "Tensor stack(TensorList tensors, Tensor other)" /\
  (nodes ← get_parameters (tree_of sig_stack);
   r ← get_reference_param nodes None;
   r ← r;
   param_name r) = Some "other" /\
  (i ← elect_as_claimed (parameters sig_stack);
   p_name <$> parameters sig_stack !! i) = Some "tensors".
Proof. repeat split; vm_compute; reflexivity. Qed.

(** The example of the specification: for the signature [to] with a device,
    the override elects [device], not [self]. *)
Example get_reference_param_to :
  mapsig_of sig_to = "to(Tensor, Device, ScalarType, bool, bool) -> Tensor" /\
  (nodes ← get_parameters (tree_of sig_to);
   r ← get_reference_param nodes (_FUNCTION_OPTIONS !! mapsig_of sig_to);
   r ← r;
   param_name r) = Some "device".
Proof. split; vm_compute; reflexivity. Qed.

(** ** Namespace rewrite (C2, C8) *)

(** C2, as amended.  For every signature the parser reads, the namespace
    rewrite writes the signature with the same number of parameters, in the
    same order and with the same names, with its type names rewritten through
    the table, and with every default value removed. *)
Theorem rewrite_signature_keeps_parameters (E : Env) (sg : Signature)
    (tmap : gmap string string) :
  xparser E (text sg) = Some (xtree_of sg) ->
  rewrite_signature E (text sg) tmap = Some (text (rw_sig tmap sg)) /\
  length (parameters (rw_sig tmap sg)) = length (parameters sg) /\
  map p_name (parameters (rw_sig tmap sg)) = map p_name (parameters sg) /\
  map p_type (parameters (rw_sig tmap sg)) =
    map (fun p => rw_type tmap (p_type p)) (parameters sg) /\
  Forall (fun p => p_default p = None) (parameters (rw_sig tmap sg)).
Proof.
  intros Hx. split; [apply rewrite_signature_text, Hx|].
  unfold parameters. cbn [rw_sig param0 params]. repeat split.
  - cbn [length]. now rewrite !length_map.
  - cbn [map]. f_equal. rewrite !map_map. apply map_ext. now intros [g p].
  - cbn [map]. f_equal. rewrite !map_map. apply map_ext. now intros [g p].
  - constructor; [reflexivity|]. apply Forall_forall. intros p Hin.
    rewrite map_map in Hin. apply list_elem_of_In in Hin.
    apply in_map_iff in Hin as (gp & <- & _). reflexivity.
Qed.

Lemma rewrite_signature_keeps_parameters_witness :
  rewrite_signature example_env (text sig_sum) _TYPE_NSMAP =
    Some (text (rw_sig _TYPE_NSMAP sig_sum)) /\
  length (parameters (rw_sig _TYPE_NSMAP sig_sum)) = length (parameters sig_sum) /\
  map p_name (parameters (rw_sig _TYPE_NSMAP sig_sum)) =
    map p_name (parameters sig_sum) /\
  map p_type (parameters (rw_sig _TYPE_NSMAP sig_sum)) =
    map (fun p => rw_type _TYPE_NSMAP (p_type p)) (parameters sig_sum) /\
  Forall (fun p => p_default p = None) (parameters (rw_sig _TYPE_NSMAP sig_sum)).
Proof.
  apply (rewrite_signature_keeps_parameters example_env sig_sum _TYPE_NSMAP).
  vm_compute. reflexivity.
Defined.

(** C2, as stated, fails on
    [Tensor sum(const Tensor & self, bool keepdim = false)]: the rewritten
    signature has lost the default value [false]. *)
Lemma rewrite_signature_drops_default :
  text sig_sum = "Tensor sum(const Tensor & self, bool keepdim = false)" /\
  (literal_text <$> (lit <$> p_default (param_default (plain " " "bool") "keepdim" LitFalse)))
    = Some "false" /\
  rewrite_signature example_env (text sig_sum) _TYPE_NSMAP =
    Some "at::Tensor sum(const at::Tensor & self, bool keepdim)".
Proof. repeat split; vm_compute; reflexivity. Qed.

Lemma rename_idempotent tmap n :
  values_not_keys tmap -> rename tmap (rename tmap n) = rename tmap n.
Proof.
  intros Hvk. unfold rename at 2 3. destruct (tmap !! n) as [v|] eqn:Hn.
  - unfold rename. now rewrite (Hvk _ _ Hn).
  - unfold rename. now rewrite Hn.
Qed.

Lemma rw_type_idempotent tmap :
  values_not_keys tmap ->
  (forall t, rw_type tmap (rw_type tmap t) = rw_type tmap t) /\
  (forall c, rw_core tmap (rw_core tmap c) = rw_core tmap c) /\
  (forall l, rw_typelist tmap (rw_typelist tmap l) = rw_typelist tmap l).
Proof.
  intros Hvk. apply type_mutind.
  - intros c core IH r. simpl. now rewrite IH.
  - intros g n. simpl. now rewrite rename_idempotent.
  - intros g n glt args IH ggt. simpl. now rewrite IH, rename_idempotent.
  - intros t IH. simpl. now rewrite IH.
  - intros t IH g r IHr. simpl. now rewrite IH, IHr.
Qed.

Lemma rw_type_strip_leading tmap t :
  rw_type tmap (strip_leading t) = strip_leading (rw_type tmap t).
Proof. destruct t as [[g|] [g' n|g' n glt args ggt] r]; reflexivity. Qed.

Lemma strip_leading_idempotent t :
  strip_leading (strip_leading t) = strip_leading t.
Proof. destruct t as [[g|] [g' n|g' n glt args ggt] r]; reflexivity. Qed.

Lemma rw_param_idempotent tmap p :
  values_not_keys tmap -> rw_param tmap (rw_param tmap p) = rw_param tmap p.
Proof.
  intros Hvk. unfold rw_param. cbn [p_type p_gap p_name].
  now rewrite (proj1 (rw_type_idempotent tmap Hvk)).
Qed.

Lemma rw_sig_idempotent tmap sg :
  values_not_keys tmap -> rw_sig tmap (rw_sig tmap sg) = rw_sig tmap sg.
Proof.
  intros Hvk. unfold rw_sig.
  cbn [return_type gap_name name gap_lpar param0 params gap_rpar].
  rewrite rw_type_strip_leading, strip_leading_idempotent.
  rewrite (proj1 (rw_type_idempotent tmap Hvk)), rw_param_idempotent by assumption.
  f_equal. rewrite map_map. apply map_ext. intros [g p]. cbn [fst snd].
  now rewrite rw_param_idempotent.
Qed.

Lemma values_not_keys_TYPE_NSMAP : values_not_keys _TYPE_NSMAP.
Proof.
  assert (Forall (fun kv : string * string => _TYPE_NSMAP !! kv.2 = None)
            (map_to_list _TYPE_NSMAP)) as Hall.
  { vm_compute. repeat constructor. }
  intros k v Hk. rewrite Forall_forall in Hall.
  specialize (Hall (k, v)). cbn [snd] in Hall.
  apply Hall. apply elem_of_map_to_list. exact Hk.
Qed.

(** C8.  For every signature the parser reads, when no value of the alias
    table is a key of it and the parser reads the rewritten text as the
    rewritten signature, the namespace rewrite of the rewritten text is the
    rewritten text. *)
Theorem rewrite_signature_idempotent (E : Env) (sg : Signature)
    (tmap : gmap string string) (r : string) :
  values_not_keys tmap ->
  xparser E (text sg) = Some (xtree_of sg) ->
  xparser E (text (rw_sig tmap sg)) = Some (xtree_of (rw_sig tmap sg)) ->
  rewrite_signature E (text sg) tmap = Some r ->
  rewrite_signature E r tmap = Some r.
Proof.
  intros Hvk Hx Hrx Hr.
  rewrite (rewrite_signature_text _ _ _ Hx) in Hr. injection Hr as <-.
  rewrite (rewrite_signature_text _ _ _ Hrx).
  now rewrite rw_sig_idempotent.
Qed.

Lemma rewrite_signature_idempotent_witness :
  rewrite_signature example_env
    "at::Tensor sum(const at::Tensor & self, bool keepdim)" _TYPE_NSMAP =
  Some "at::Tensor sum(const at::Tensor & self, bool keepdim)".
Proof.
  apply (rewrite_signature_idempotent example_env sig_sum _TYPE_NSMAP).
  - apply values_not_keys_TYPE_NSMAP.
  - vm_compute. reflexivity.
  - vm_compute. reflexivity.
  - vm_compute. reflexivity.
Defined.

(** ** Dispatch key (C3) *)

(** C3, as amended.  For every parsed signature, the dispatch key is the
    function name, an opening parenthesis, the tokens of the parameter list
    without [const], [&], [*] and the parameter names, a closing parenthesis
    with an arrow, and the tokens of the return type without its qualifiers;
    every token that is written, the first of each part excepted, comes after
    the white space it has in the declaration, and default values are
    written.  So two declarations have the same key when they have the same
    name and agree on the written tokens and on the white space in front of
    them. *)
Theorem create_map_sig_key (sg : Signature) :
  create_map_sig (xtree_of sg) (text sg) =
    Some (name sg +:+ "(" +:+
          render true (key_params (param0 sg) (params sg)) +:+ ") -> " +:+
          render true (key_type (return_type sg))) /\
  forall sg',
    name sg' = name sg ->
    strip_first (key_params (param0 sg') (params sg')) =
      strip_first (key_params (param0 sg) (params sg)) ->
    strip_first (key_type (return_type sg')) =
      strip_first (key_type (return_type sg)) ->
    create_map_sig (xtree_of sg') (text sg') =
    create_map_sig (xtree_of sg) (text sg).
Proof.
  split; [apply create_map_sig_text|].
  intros sg' Hname Hparams Hret. rewrite !create_map_sig_text.
  unfold mapsig_of. rewrite <- !render_strip_first.
  now rewrite Hname, Hparams, Hret.
Qed.

(** C3, as stated, fails on [Tensor add(Tensor self, Tensor other)] and the
    same tokens with no space after the comma: the two keys differ. *)
Lemma create_map_sig_keeps_white_space :
  text sig_add_spaced = "Tensor add(Tensor self, Tensor other)" /\
  text sig_add_tight = "Tensor add(Tensor self,Tensor other)" /\
  token_seq (lay_sig sig_add_spaced) = token_seq (lay_sig sig_add_tight) /\
  create_map_sig (xtree_of sig_add_spaced) (text sig_add_spaced) =
    Some "add(Tensor, Tensor) -> Tensor" /\
  create_map_sig (xtree_of sig_add_tight) (text sig_add_tight) =
    Some "add(Tensor,Tensor) -> Tensor".
Proof. repeat split; vm_compute; reflexivity. Qed.

(** The example of the specification, and a default value in a key. *)
Example create_map_sig_add :
  create_map_sig (xtree_of sig_add) (text sig_add) =
    Some "add(Tensor, Tensor) -> Tensor" /\
  create_map_sig (xtree_of sig_sum) (text sig_sum) =
    Some "sum(Tensor, bool = false) -> Tensor".
Proof. split; vm_compute; reflexivity. Qed.

(** ** Identity emission (C7) *)

(** C7, as amended.  For every parsed signature with no white space in front
    of its first token and none behind its last one, the emitter under the
    identity policy writes the text of the signature. *)
Theorem rewrite_sig_identity (sg : Signature) :
  leading sg = "" -> trailing sg = "" ->
  rewrite_sig (xtree_of sg) (text sg) emit_all = Some (text sg).
Proof.
  intros Hl Ht. destruct (rewrite_sig_emit_all sg) as (r & Hr & Htext).
  rewrite Hr, Htext, Hl, Ht. now rewrite app_nil_r_s.
Qed.

Lemma rewrite_sig_identity_witness :
  rewrite_sig (xtree_of sig_add) (text sig_add) emit_all = Some (text sig_add).
Proof. apply (rewrite_sig_identity sig_add); reflexivity. Defined.

(** C7, as stated, fails on [void backward(Tensor self)] followed by a space:
    no white space comes first, and the space behind the closing parenthesis
    is not written. *)
Lemma rewrite_sig_drops_trailing :
  leading sig_backward_trailing = "" /\
  text sig_backward_trailing = "void backward(Tensor self) " /\
  rewrite_sig (xtree_of sig_backward_trailing) (text sig_backward_trailing)
    emit_all = Some "void backward(Tensor self)".
Proof. repeat split; vm_compute; reflexivity. Qed.
(** ** The wrapper of a parsed signature *)

Lemma pick_param_name {A} (f : A -> option string) (g : Param -> string)
    ps (nodes : list A) i r :
  Forall2 (fun prm n => f n = Some (g prm)) ps nodes ->
  pick nodes i = Some r ->
  exists prm, pick ps i = Some prm /\ f r = Some (g prm).
Proof.
  intros Hall. destruct i as [i|]; [|discriminate]. cbn [pick].
  revert i. induction Hall as [|prm n ps nodes Hn _ IH]; intros i.
  - destruct i; discriminate.
  - destruct i as [|i]; cbn.
    + intros [= <-]. eauto.
    + apply IH.
Qed.

Lemma param_nodes_names ps nodes :
  Forall2 param_node ps nodes ->
  Forall2 (fun prm n => param_name n = Some (p_name prm)) ps nodes.
Proof.
  induction 1 as [|prm n ps nodes Hn _ IH]; constructor; auto.
  apply param_name_node, Hn.
Qed.

(** The node elected is the node of the parameter elected, and has its
    name. *)
Lemma pick_node_name ps nodes i r :
  Forall2 param_node ps nodes ->
  pick nodes i = Some r ->
  exists prm, pick ps i = Some prm /\ param_name r = Some (p_name prm).
Proof.
  intros Hall. apply (pick_param_name param_name p_name).
  apply param_nodes_names, Hall.
Qed.

(** The whole of [get_xla_wrapper] on a parsed signature: nothing for a
    blacklisted one; else the wrapper around the return statement, or an
    exception when the return statement raises.  The counter of the name has
    been stepped in each case. *)
Lemma get_xla_wrapper_result E sg ctx :
  parses E sg ->
  xparser E (text (rw_sig (type_nsmap E) sg)) =
    Some (xtree_of (rw_sig (type_nsmap E) sg)) ->
  let rwsg := rw_sig (type_nsmap E) sg in
  let fnopts := function_options E !! mapsig_of sg in
  let ref := elect fnopts (parameters sg) in
  let ctx' := count_name (name sg) ctx in
  let sig := cppsig_of rwsg (wrapper_name (name sg) ctx) in
  exists n nodes code tf v pv xr rtype_str,
    Forall2 param_node (parameters sg) (n :: nodes) /\
    (ref = None -> xr = None) /\
    get_xla_wrapper E (text sg) ctx =
    if is_blacklisted_fn E (name sg) (mapsig_of sg)
    then (Some None, ctx')
    else
      match generate_return_stmt (tree_of sg) rtype_str (name sg)
              (rname_of (return_type sg)) (n :: nodes) (v :: pv)
              (pick (n :: nodes) ref) with
      | Some stmt =>
          (Some (Some (FuncGen.mk (tree_of sg) (xtree_of sg) (xtree_of rwsg)
                         (name sg) (wrapper_name (name sg) ctx)
                         ((wrapper_code E ctx' sg sig code tf (v :: pv) xr +:+
                           stmt) +:+ "}")
                         (text sg) (text rwsg) sig (funsig_of rwsg)
                         (mapsig_of sg))), ctx')
      | None => (None, ctx')
      end.
Proof.
  intros Hp Hrw rwsg fnopts ref ctx' sig.
  destruct (get_parameters_nodes sg) as (nodes0 & Hget & Hall).
  pose proof (get_xla_wrapper_front E sg ctx nodes0 Hp Hrw Hget Hall) as Hfront.
  cbv zeta in Hfront.
  assert (forall r, pick nodes0 ref = Some r ->
                    exists refname, param_name r = Some refname) as Href.
  { intros r Hr. destruct (pick_node_name _ _ _ _ Hall Hr) as (prm & _ & Hn).
    eauto. }
  destruct (wrapper_body_result E sg rwsg ctx' nodes0 fnopts (pick nodes0 ref)
              sig (wrapper_name (name sg) ctx) Hall Href)
    as (code & tf & pv0 & xr & rtype_str & Hpv & Hxr & Hbody).
  destruct nodes0 as [|n nodes].
  { unfold parameters in Hall. inversion Hall. }
  destruct pv0 as [|v pv]; [congruence|].
  exists n, nodes, code, tf, v, pv, xr, rtype_str.
  split; [exact Hall|]. split.
  - intros Hnone. apply Hxr. fold ref. now rewrite Hnone.
  - rewrite Hfront.
    destruct (is_blacklisted_fn E (name sg) (mapsig_of sg)); [reflexivity|].
    exact Hbody.
Qed.
(** ** Return value of a tensor (C4) *)

(** C4.  For every wrapper [get_xla_wrapper] writes for a parsed signature
    whose return type has the core [Tensor]: when the return type is const or
    a reference, the wrapper ends in the return of the first parameter, by
    its name; otherwise a reference parameter has been elected and the
    wrapper ends in the return of a new XLA tensor made from the result on
    the device of that parameter. *)
Theorem get_xla_wrapper_tensor_return (E : Env) (sg : Signature)
    (ctx ctx' : Context) (fg : FuncGen.t) :
  parses E sg ->
  xparser E (text (rw_sig (type_nsmap E) sg)) =
    Some (xtree_of (rw_sig (type_nsmap E) sg)) ->
  core_name (return_type sg) = "Tensor" ->
  get_xla_wrapper E (text sg) ctx = (Some (Some fg), ctx') ->
  exists body,
    if type_const (return_type sg) || type_ref (return_type sg)
    then FuncGen.code fg = (body +:+ return_stmt (p_name (param0 sg))) +:+ "}"
    else
      exists prm,
        pick (parameters sg)
          (elect (function_options E !! mapsig_of sg) (parameters sg)) =
          Some prm /\
        FuncGen.code fg =
          (body +:+
           return_stmt ("bridge::CreateXlaTensor(" +:+ _RESULT_NAME +:+
                        ", bridge::GetXlaDevice(" +:+ p_name prm +:+ "))")) +:+
          "}".
Proof.
  intros Hp Hrw Hcore Hw.
  destruct (get_xla_wrapper_result E sg ctx Hp Hrw)
    as (n & nodes & code & tf & v & pv & xr & rts & Hall & Hxr & Heq).
  rewrite Heq in Hw. clear Heq.
  destruct (is_blacklisted_fn E (name sg) (mapsig_of sg)); [discriminate|].
  assert (param_node (param0 sg) n) as Hn.
  { unfold parameters in Hall. now inversion Hall. }
  assert (String.eqb (core_name (return_type sg)) "Tensor" = true) as Hcoreb.
  { now apply String.eqb_eq. }
  rewrite (generate_return_stmt_tensor _ _ _ _ _ _ _ _ Hcoreb Hn) in Hw.
  unfold tensor_return in Hw.
  destruct (type_const (return_type sg) || type_ref (return_type sg)).
  - injection Hw as <- _. eexists. reflexivity.
  - destruct (pick (n :: nodes) _) as [r|] eqn:Hpick; [|discriminate].
    destruct (pick_node_name _ _ _ _ Hall Hpick) as (prm & Hprm & Hname).
    rewrite Hname in Hw. injection Hw as <- _.
    eexists. exists prm. split; [exact Hprm|reflexivity].
Qed.

Lemma get_xla_wrapper_tensor_return_witness :
  exists body prm,
    pick (parameters sig_add)
      (elect (function_options example_env !! mapsig_of sig_add)
         (parameters sig_add)) = Some prm /\
    (FuncGen.code <$>
       mjoin (get_xla_wrapper example_env (text sig_add) example_ctx).1) =
    Some ((body +:+
           return_stmt ("bridge::CreateXlaTensor(" +:+ _RESULT_NAME +:+
                        ", bridge::GetXlaDevice(" +:+ p_name prm +:+ "))")) +:+
          "}").
Proof.
  destruct (get_xla_wrapper example_env (text sig_add) example_ctx)
    as [[[fg|]|] ctx'] eqn:Hw; [|vm_compute in Hw; discriminate..].
  destruct (get_xla_wrapper_tensor_return example_env sig_add example_ctx
              ctx' fg) as (body & prm & Hprm & Hcode).
  - split; vm_compute; reflexivity.
  - vm_compute. reflexivity.
  - reflexivity.
  - exact Hw.
  - exists body, prm. split; [exact Hprm|]. cbn. now rewrite Hcode.
Defined.

(** The two cases on examples, by the last characters of the wrapper: a
    tensor returned by value is made on the device of the elected parameter,
    a reference returned is the first parameter. *)
Example get_xla_wrapper_tensor_return_examples :
  text sig_stack = "Tensor stack(TensorList tensors, Tensor other)" /\
  (fg ← mjoin (get_xla_wrapper example_env (text sig_stack) example_ctx).1;
   Some (py_slice (FuncGen.code fg) (-74) (py_len (FuncGen.code fg)))) =
  Some ("  return bridge::CreateXlaTensor(x_result, bridge::GetXlaDevice(other));"
        +:+ nl +:+ "}") /\
  text sig_add_inplace = "Tensor & add_(Tensor & self, const Tensor & other)" /\
  (fg ← mjoin (get_xla_wrapper example_env (text sig_add_inplace) example_ctx).1;
   Some (py_slice (FuncGen.code fg) (-16) (py_len (FuncGen.code fg)))) =
  Some ("  return self;" +:+ nl +:+ "}").
Proof. repeat split; vm_compute; reflexivity. Qed.
(** ** The function a wrapper calls (C6) *)

Lemma prefix_occurs (sub s : string) :
  String.prefix sub s = true <-> exists b, s = sub +:+ b.
Proof.
  revert s. induction sub as [|x sub IH]; intros s.
  - split; [intros _; exists s; reflexivity|]. intros _. now destruct s.
  - destruct s as [|y s]; cbn [String.prefix].
    + split; [discriminate|]. intros [b Hb]. discriminate.
    + destruct (ascii_dec x y) as [->|Hne].
      * rewrite IH. split; intros [b Hb]; exists b.
        -- rewrite app_cons_s. now f_equal.
        -- rewrite app_cons_s in Hb. now injection Hb.
      * split; [discriminate|]. intros [b Hb]. rewrite app_cons_s in Hb.
        injection Hb as -> _. contradiction.
Qed.

Lemma index_occurs (sub s : string) :
  is_Some (String.index 0 sub s) <-> occurs sub s.
Proof.
  induction s as [|y s IH].
  - cbn [String.index]. destruct sub as [|x sub].
    + split; [intros _; exists "", ""; reflexivity|eauto].
    + split; [intros [i Hi]; discriminate|].
      intros (a & b & Hab). destruct a; discriminate.
  - cbn [String.index]. destruct (String.prefix sub (String y s)) eqn:Hpre.
    + split; [intros _|eauto].
      apply prefix_occurs in Hpre as [b Hb]. exists "", b. exact Hb.
    + assert (is_Some (String.index 0 sub s) <-> occurs sub (String y s))
        as Hiff.
      { rewrite IH. split.
        - intros (a & b & ->). exists (String y a), b. reflexivity.
        - intros (a & b & Hab). destruct a as [|z a].
          + rewrite app_nil_l_s in Hab.
            assert (String.prefix sub (String y s) = true) as Hpre'
              by (apply prefix_occurs; eauto).
            congruence.
          + rewrite app_cons_s in Hab. injection Hab as _ ->.
            exists a, b. reflexivity. }
      rewrite <- Hiff. destruct (String.index 0 sub s).
      * split; eauto.
      * split; intros [i Hi]; discriminate.
Qed.

(** [s.find(sub) >= 0] says that [sub] occurs in [s]. *)
Lemma py_find_occurs (s sub : string) :
  (0 <=? py_find s sub) = true <-> occurs sub s.
Proof.
  rewrite <- index_occurs. unfold py_find.
  destruct (String.index 0 sub s) as [i|].
  - split; [eauto|]. intros _. apply Z.leb_le. lia.
  - split; [discriminate|]. intros [i Hi]. discriminate.
Qed.

Lemma functions_data_count_name x ctx :
  functions_data (count_name x ctx) = functions_data ctx /\
  native_functions_data (count_name x ctx) = native_functions_data ctx /\
  gen_class_mode (count_name x ctx) = gen_class_mode ctx.
Proof.
  unfold count_name. destruct (gen_class_mode ctx) eqn:Hm; [auto|].
  destruct (defdb ctx !! x); auto.
Qed.

(** The order of [get_handling_function]: the table of functions written by
    hand, the corpus of generic functions, the corpus of native functions,
    the type of the reference parameter. *)
Lemma get_handling_function_order E ctx fname ref :
  (forall f, xla_functions E !! fname = Some f -> f <> "" ->
     get_handling_function E ctx fname ref = f) /\
  (default "" (xla_functions E !! fname) = "" ->
   (occurs (symbol_pattern fname) (functions_data ctx) ->
      get_handling_function E ctx fname ref = "at::" +:+ fname) /\
   (~ occurs (symbol_pattern fname) (functions_data ctx) ->
    occurs (symbol_pattern fname) (native_functions_data ctx) ->
      get_handling_function E ctx fname ref = "at::native::" +:+ fname) /\
   (~ occurs (symbol_pattern fname) (functions_data ctx) ->
    ~ occurs (symbol_pattern fname) (native_functions_data ctx) ->
      get_handling_function E ctx fname ref =
      "at::detail::infer_type(" +:+ py_str_opt ref +:+ ")." +:+ fname)).
Proof.
  unfold get_handling_function. split.
  - intros f -> Hf. destruct f; [congruence|reflexivity].
  - intros Hnone.
    assert (match xla_functions E !! fname with
            | Some xla_function =>
                if py_truthy xla_function then xla_function
                else get_function ctx fname ref
            | None => get_function ctx fname ref
            end = get_function ctx fname ref) as ->.
    { destruct (xla_functions E !! fname) as [f|]; [|reflexivity].
      cbn in Hnone. now subst f. }
    unfold get_function. fold (symbol_pattern fname).
    pose proof (py_find_occurs (functions_data ctx) (symbol_pattern fname))
      as Hf.
    pose proof (py_find_occurs (native_functions_data ctx)
                  (symbol_pattern fname)) as Hn.
    destruct (0 <=? py_find (functions_data ctx) (symbol_pattern fname));
      destruct (0 <=? py_find (native_functions_data ctx)
                  (symbol_pattern fname)).
    all: repeat split; intros; try reflexivity.
    all: try (exfalso; intuition congruence).
    all: try (exfalso; intuition discriminate).
Qed.


(** The order on examples: in a corpus that declares [add] and no [add_],
    the wrapper of [add] calls [at::add] and the wrapper of [add_] goes by
    the type of the variable of its reference parameter; a name in both
    corpora is taken from the generic one. *)
Example get_handling_function_examples :
  functions_data example_ctx =
    "static inline Tensor add(const Tensor & self);" /\
  get_handling_function example_env example_ctx "add" (Some "xlatens[0]") =
    "at::add" /\
  get_handling_function example_env example_ctx "add_" (Some "xlatens[0]") =
    "at::detail::infer_type(xlatens[0]).add_" /\
  get_handling_function example_env
    {| gen_class_mode := false; defdb := ∅; functions_data := " relu(";
       native_functions_data := " relu( mul(" |} "relu" None = "at::relu" /\
  get_handling_function example_env
    {| gen_class_mode := false; defdb := ∅; functions_data := " relu(";
       native_functions_data := " relu( mul(" |} "mul" None =
    "at::native::mul".
Proof. repeat split; vm_compute; reflexivity. Qed.
(** ** The blacklist (C9, C10) *)

(** What [get_xla_wrapper] writes into the record when it gets through. *)
Lemma wrapper_body_fields E tree xtree rwxtree orig_sig mapsig rwsig params
    fnopts ref sig fname xfname ctx fg ctx' :
  wrapper_body E tree xtree rwxtree orig_sig mapsig rwsig params fnopts ref
    sig fname xfname ctx = (Some (Some fg), ctx') ->
  FuncGen.func fg = fname /\ FuncGen.mapsig fg = mapsig /\
  FuncGen.xfunc fg = xfname /\ ctx' = ctx.
Proof.
  unfold wrapper_body, mbind, M_bind, bind, get_ctx, lift, ret.
  destruct (match ref with
            | Some r => _
            | None => Some None
            end) as [x0|]; [|discriminate].
  destruct (wrapper_params _ _ _ _ _ _ _ _ _) as [[[[code tf] pv] xr]|];
    [|discriminate].
  destruct (generate_result_assignment _ _) as [ra|]; [|discriminate].
  destruct (get_return_type_str _ _) as [rts|]; [|discriminate].
  destruct (generate_return_stmt _ _ _ _ _ _ _) as [stmt|]; [|discriminate].
  destruct (create_stdfunc_sig _ _) as [funsig|]; [|discriminate].
  intros [= <- <-]. auto.
Qed.

(** Whatever the text, a wrapper that is written is not of a blacklisted
    function. *)
Lemma get_xla_wrapper_not_blacklisted E ts ctx fg ctx' :
  get_xla_wrapper E ts ctx = (Some (Some fg), ctx') ->
  is_blacklisted_fn E (FuncGen.func fg) (FuncGen.mapsig fg) = false.
Proof.
  rewrite get_xla_wrapper_unfold. unfold mbind, M_bind, bind, lift.
  destruct (parser E ts) as [tree|]; [|discriminate].
  destruct (xparser E ts) as [xtree|]; [|discriminate].
  destruct (create_map_sig xtree ts) as [mapsig|]; [|discriminate].
  destruct (rewrite_signature E ts (type_nsmap E)) as [rwsig|]; [|discriminate].
  destruct (xparser E rwsig) as [rwxtree|]; [|discriminate].
  destruct (get_parameters tree) as [params|]; [|discriminate].
  cbv zeta.
  destruct (get_reference_param params _) as [ref|]; [|discriminate].
  destruct (get_function_signature rwxtree rwsig gen_fnname ctx)
    as [[[[sig fname] xfname]|] ctx1]; [|discriminate].
  destruct (is_blacklisted_fn E fname mapsig) eqn:Hb; [discriminate|].
  intros Hbody. apply wrapper_body_fields in Hbody as (-> & -> & _).
  exact Hb.
Qed.

Lemma generate_fgens_not_blacklisted E fndefs : forall ctx fg,
  fg ∈ (generate_fgens E fndefs ctx).1 ->
  is_blacklisted_fn E (FuncGen.func fg) (FuncGen.mapsig fg) = false.
Proof.
  induction fndefs as [|ts fndefs IH]; intros ctx fg; cbn [generate_fgens].
  - intros Hin. cbn in Hin. now apply elem_of_nil in Hin.
  - destruct (get_xla_wrapper E ts ctx) as [[[fg0|]|] ctx1] eqn:Hw.
    + specialize (IH ctx1).
      destruct (generate_fgens E fndefs ctx1) as [fgens ctx2]. cbn [fst] in *.
      intros [->|Hin]%elem_of_cons.
      * eapply get_xla_wrapper_not_blacklisted, Hw.
      * now apply IH.
    + apply IH.
    + apply IH.
Qed.

(** C9.  A parsed signature whose name or dispatch key is in the blacklist,
    or matches one of its patterns, gets no wrapper: [get_xla_wrapper]
    returns [None] and does not raise, the batch goes on as if the signature
    were not there but for the counter of its name, and no record in the
    output of any batch has the name and the key of the signature.  With the
    blacklist of the script, whatever the parsers and the texts, no record
    in the output is of a function named [backward]. *)
Theorem blacklisted_signature_dropped (E : Env) (sg : Signature)
    (ctx : Context) :
  parses E sg ->
  xparser E (text (rw_sig (type_nsmap E) sg)) =
    Some (xtree_of (rw_sig (type_nsmap E) sg)) ->
  is_blacklisted_fn E (name sg) (mapsig_of sg) = true ->
  get_xla_wrapper E (text sg) ctx = (Some None, count_name (name sg) ctx) /\
  (forall fndefs,
     generate_fgens E (text sg :: fndefs) ctx =
     generate_fgens E fndefs (count_name (name sg) ctx)) /\
  (forall fndefs ctx0 fg,
     fg ∈ (generate_fgens E fndefs ctx0).1 ->
     ~ (FuncGen.func fg = name sg /\ FuncGen.mapsig fg = mapsig_of sg)) /\
  (forall P XP fndefs ctx0 fg,
     fg ∈ (generate_fgens (gen_env P XP) fndefs ctx0).1 ->
     FuncGen.func fg <> "backward").
Proof.
  intros Hp Hrw Hb.
  assert (get_xla_wrapper E (text sg) ctx =
          (Some None, count_name (name sg) ctx)) as Hw.
  { destruct (get_xla_wrapper_result E sg ctx Hp Hrw)
      as (n & nodes & code & tf & v & pv & xr & rts & _ & _ & Heq).
    rewrite Heq, Hb. reflexivity. }
  split; [exact Hw|]. split; [|split].
  - intros fndefs. cbn [generate_fgens]. now rewrite Hw.
  - intros fndefs ctx0 fg Hin [Hf Hm].
    apply generate_fgens_not_blacklisted in Hin. congruence.
  - intros P XP fndefs ctx0 fg Hin Hf.
    apply generate_fgens_not_blacklisted in Hin. rewrite Hf in Hin.
    unfold is_blacklisted_fn in Hin.
    assert (bool_decide ("backward" ∈ fn_blacklist (gen_env P XP)) = true)
      as Hback by (vm_compute; reflexivity).
    rewrite Hback in Hin. discriminate.
Qed.

Lemma blacklisted_signature_dropped_witness :
  text sig_backward = "void backward(Tensor self)" /\
  get_xla_wrapper example_env (text sig_backward) example_ctx =
    (Some None, count_name "backward" example_ctx).
Proof.
  split; [reflexivity|].
  apply (blacklisted_signature_dropped example_env sig_backward example_ctx).
  - split; vm_compute; reflexivity.
  - vm_compute. reflexivity.
  - vm_compute. reflexivity.
Defined.

(** The counter of a name after a step of the counter. *)
Lemma defdb_count_name x y ctx :
  gen_class_mode ctx = false ->
  defdb (count_name y ctx) !! x =
  if String.eqb y x then Some (overloads ctx x + 1) else defdb ctx !! x.
Proof.
  intros Hm. unfold count_name, overloads. rewrite Hm.
  destruct (String.eqb_spec y x) as [->|Hne].
  - destruct (defdb ctx !! x) as [n|] eqn:Hx; cbn [defdb set_defdb];
      rewrite lookup_insert_eq; reflexivity.
  - destruct (defdb ctx !! y) as [n|] eqn:Hy; cbn [defdb set_defdb];
      rewrite lookup_insert_ne by congruence; reflexivity.
Qed.

(** The context a parsed signature leaves, whether it is blacklisted, gets a
    wrapper or raises after it has been named. *)
Lemma get_xla_wrapper_context E sg ctx :
  readable E sg ->
  (get_xla_wrapper E (text sg) ctx).2 = count_name (name sg) ctx.
Proof.
  intros [Hp Hrw].
  destruct (get_xla_wrapper_result E sg ctx Hp Hrw)
    as (n & nodes & code & tf & v & pv & xr & rts & _ & _ & Heq).
  rewrite Heq. destruct (is_blacklisted_fn _ _ _); [reflexivity|].
  destruct (generate_return_stmt _ _ _ _ _ _ _); reflexivity.
Qed.

Lemma generate_fgens_context E ts tss ctx :
  (generate_fgens E (ts :: tss) ctx).2 =
  (generate_fgens E tss (get_xla_wrapper E ts ctx).2).2.
Proof.
  cbn [generate_fgens].
  destruct (get_xla_wrapper E ts ctx) as [[[fg|]|] ctx1]; cbn [snd];
    [|reflexivity..].
  destruct (generate_fgens E tss ctx1); reflexivity.
Qed.

Lemma named_cons x sg pre :
  named x (sg :: pre) =
  if String.eqb (name sg) x then S (named x pre) else named x pre.
Proof.
  unfold named. cbn [List.filter].
  destruct (String.eqb (name sg) x); reflexivity.
Qed.

(** The counters after a batch of parsed signatures: every signature of the
    batch has stepped the counter of its name. *)
Lemma generate_fgens_defdb E pre : forall ctx,
  gen_class_mode ctx = false ->
  Forall (readable E) pre ->
  gen_class_mode (generate_fgens E (map text pre) ctx).2 = false /\
  forall x,
    defdb (generate_fgens E (map text pre) ctx).2 !! x =
    if (named x pre =? 0)%nat then defdb ctx !! x
    else Some (overloads ctx x + Z.of_nat (named x pre)).
Proof.
  induction pre as [|sg pre IH]; intros ctx Hm Hall.
  - split; [exact Hm|]. intros x. reflexivity.
  - inversion Hall as [|? ? Hsg Hpre]; subst.
    cbn [map]. rewrite generate_fgens_context, get_xla_wrapper_context by auto.
    assert (gen_class_mode (count_name (name sg) ctx) = false) as Hm'.
    { destruct (functions_data_count_name (name sg) ctx) as (_ & _ & ->).
      exact Hm. }
    destruct (IH _ Hm' Hpre) as [Hmode Hdb]. split; [exact Hmode|].
    intros x. rewrite Hdb, named_cons. unfold overloads at 1.
    rewrite (defdb_count_name x (name sg) ctx Hm).
    destruct (String.eqb (name sg) x); [|reflexivity].
    cbn [default Nat.eqb].
    destruct (named x pre) as [|k]; cbn [Nat.eqb id]; f_equal; lia.
Qed.

Lemma named_elem x sg pre :
  sg ∈ pre -> name sg = x -> (1 <= named x pre)%nat.
Proof.
  intros Hin <-. induction Hin as [sg pre|sg sg' pre _ IH].
  - rewrite named_cons, String.eqb_refl. lia.
  - rewrite named_cons. destruct (String.eqb (name sg') (name sg)); lia.
Qed.

(** C10.  In flat mode, in a batch of parsed signatures, a signature that is
    blacklisted steps the counter of its name like any other: it gets no
    wrapper, and the wrapper of a later signature of the same name is named
    with the count of all the signatures of that name before it, the
    blacklisted ones included. *)
Theorem blacklisted_signature_counts (E : Env) (pre : list Signature)
    (sg1 sg : Signature) (ctx ctx' : Context) (fg : FuncGen.t) :
  gen_class_mode ctx = false ->
  Forall (readable E) pre ->
  readable E sg ->
  sg1 ∈ pre ->
  name sg1 = name sg ->
  is_blacklisted_fn E (name sg1) (mapsig_of sg1) = true ->
  get_xla_wrapper E (text sg) (generate_fgens E (map text pre) ctx).2 =
    (Some (Some fg), ctx') ->
  (forall ctx0,
     get_xla_wrapper E (text sg1) ctx0 =
     (Some None, count_name (name sg1) ctx0)) /\
  (1 <= named (name sg) pre)%nat /\
  FuncGen.xfunc fg =
    "xla_" +:+ name sg +:+
    ("_" +:+ pretty (overloads ctx (name sg) + Z.of_nat (named (name sg) pre))).
Proof.
  intros Hm Hpre [Hp Hrw] Hin Hname Hb Hw.
  pose proof (named_elem _ _ _ Hin Hname) as Hcount.
  split; [|split; [exact Hcount|]].
  - intros ctx0. rewrite Forall_forall in Hpre.
    destruct (Hpre _ Hin) as [Hp1 Hrw1].
    destruct (get_xla_wrapper_result E sg1 ctx0 Hp1 Hrw1)
      as (n & nodes & code & tf & v & pv & xr & rts & _ & _ & Heq).
    rewrite Heq, Hb. reflexivity.
  - destruct (generate_fgens_defdb E pre ctx Hm Hpre) as [Hmode Hdb].
    specialize (Hdb (name sg)).
    destruct (Nat.eqb_spec (named (name sg) pre) 0) as [Hz|_]; [lia|].
    destruct (get_xla_wrapper_result E sg
                (generate_fgens E (map text pre) ctx).2 Hp Hrw)
      as (n & nodes & code & tf & v & pv & xr & rts & _ & _ & Heq).
    rewrite Heq in Hw. clear Heq.
    destruct (is_blacklisted_fn E (name sg) (mapsig_of sg)); [discriminate|].
    destruct (generate_return_stmt _ _ _ _ _ _ _); [|discriminate].
    injection Hw as <- _. cbn [FuncGen.xfunc].
    unfold wrapper_name. now rewrite Hmode, Hdb.
Qed.

Lemma blacklisted_signature_counts_witness :
  is_blacklisted_fn example_env_key_blacklist (name sig_relu)
    (mapsig_of sig_relu) = true /\
  is_blacklisted_fn example_env_key_blacklist (name sig_relu2)
    (mapsig_of sig_relu2) = false /\
  (FuncGen.xfunc <$>
     mjoin (get_xla_wrapper example_env_key_blacklist (text sig_relu2)
              (generate_fgens example_env_key_blacklist
                 (map text [sig_relu]) example_ctx).2).1) =
  Some "xla_relu_1".
Proof.
  split; [vm_compute; reflexivity|]. split; [vm_compute; reflexivity|].
  destruct (get_xla_wrapper example_env_key_blacklist (text sig_relu2)
              (generate_fgens example_env_key_blacklist
                 (map text [sig_relu]) example_ctx).2)
    as [[[fg|]|] ctx'] eqn:Hw; [|vm_compute in Hw; discriminate..].
  destruct (blacklisted_signature_counts example_env_key_blacklist [sig_relu]
              sig_relu sig_relu2 example_ctx ctx' fg) as (_ & _ & Hx).
  - reflexivity.
  - repeat constructor; vm_compute; reflexivity.
  - repeat split; vm_compute; reflexivity.
  - left.
  - reflexivity.
  - vm_compute. reflexivity.
  - exact Hw.
  - cbn. rewrite Hx. vm_compute. reflexivity.
Defined.
(** ** Signatures without a tensor parameter (C5) *)




(** * Further properties of the script *)

(** ** The emitter *)

(** Under a policy that looks at the type and the text of a token and at the
    rule of a tree only, the emitter writes, for a parsed signature, the
    tokens the policy lets through, in the order of the text, each after the
    white space it has in the text, the first one without. *)
Theorem emitter_writes_kept_tokens (pol : Node -> Z) (sg : Signature) :
  stable pol ->
  rewrite_sig (xtree_of sg) (text sg) pol =
  Some (render true (ptoks pol (lay_sig sg))).
Proof.
  intros Hst. unfold xtree_of, text.
  apply rewrite_sig_locate; [exact Hst|apply lay_sig_good].
Qed.

Lemma emitter_writes_kept_tokens_witness :
  rewrite_sig (xtree_of sig_sum) (text sig_sum) create_stdfunc_sig_emit_fn =
  Some "Tensor sum(const Tensor &, bool = false)".
Proof.
  rewrite (emitter_writes_kept_tokens create_stdfunc_sig_emit_fn sig_sum).
  - reflexivity.
  - split; reflexivity.
Defined.

(** The emitter under the identity policy writes the text of a parsed
    signature but for the white space in front of its first token and behind
    its last one. *)
Theorem rewrite_sig_trims (sg : Signature) :
  exists r,
    rewrite_sig (xtree_of sg) (text sg) emit_all = Some r /\
    text sg = leading sg +:+ r +:+ trailing sg.
Proof. apply rewrite_sig_emit_all. Qed.

(** ** The declarators *)

Lemma ptoks_decl_type :
  (forall t, ptoks create_stdfunc_sig_emit_fn (lay_type t) =
             alltoks (lay_type t)) /\
  (forall c, ptoks create_stdfunc_sig_emit_fn (lay_core c) =
             alltoks (lay_core c)) /\
  (forall l, ptoks create_stdfunc_sig_emit_fn (lay_typelist l) =
             alltoks (lay_typelist l)).
Proof.
  apply type_mutind.
  - intros c core IH r. destruct c as [g|], r as [[g' []]|]; simpl in *;
      rewrite ?app_nil_r in *; now rewrite IH.
  - intros g n. reflexivity.
  - intros g n glt args IH ggt. simpl in *. rewrite ?app_nil_r in *.
    now rewrite IH.
  - intros t IH. simpl in *. rewrite ?app_nil_r in *. now rewrite IH.
  - intros t IH g r IHr. simpl in *. rewrite ?app_nil_r in *.
    now rewrite IH, IHr.
Qed.

Lemma ptoks_decl_param p :
  ptoks create_stdfunc_sig_emit_fn (lay_param p) = decl_param p.
Proof.
  pose proof (proj1 ptoks_decl_type (p_type p)) as Ht.
  unfold lay_param, decl_param. remember (lay_type (p_type p)) as lt.
  destruct (p_default p) as [d|]; simpl; rewrite Ht, ?app_nil_r;
    [|reflexivity].
  destruct (lit d); reflexivity.
Qed.

Lemma ptoks_decl_params p ps :
  ptoks create_stdfunc_sig_emit_fn (lay_params p ps) = decl_params p ps.
Proof.
  revert p. induction ps as [|[g p'] ps IH]; intros p;
    pose proof (ptoks_decl_param p) as Hp; cbn [lay_params decl_params].
  - remember (lay_param p) as lp. simpl. now rewrite Hp, app_nil_r.
  - specialize (IH p'). remember (lay_param p) as lp.
    remember (lay_params p' ps) as lps. simpl. now rewrite Hp, IH, app_nil_r.
Qed.

(** The name-free declarator [create_stdfunc_sig] writes for a parsed
    signature is the return type as it is written, qualifiers included, and
    between parentheses the parameters without their names: the types as
    they are written, the commas and the default values.  The white space
    around the function name and the parentheses is not written. *)
Theorem create_stdfunc_sig_declarator (sg : Signature) :
  create_stdfunc_sig (xtree_of sg) (text sg) =
  Some (render true (alltoks (lay_type (return_type sg))) +:+ "(" +:+
        render true (decl_params (param0 sg) (params sg)) +:+ ")").
Proof.
  rewrite create_stdfunc_sig_text. unfold funsig_of.
  now rewrite (proj1 ptoks_decl_type), ptoks_decl_params.
Qed.

(** The declaration [get_function_signature] writes for the wrapper of a
    parsed signature is the return type as it is written, one space, the
    name the naming function gives, and between parentheses the parameter
    list as it is written.  It reports the name of the function, and raises
    when the naming function does, with the context that function left. *)
Theorem get_function_signature_declaration (sg : Signature)
    (namefn : string -> M string) (ctx : Context) :
  get_function_signature (xtree_of sg) (text sg) namefn ctx =
  match namefn (name sg) ctx with
  | (Some xfname, ctx') =>
      (Some (render true (alltoks (lay_type (return_type sg))) +:+ " " +:+
             xfname +:+ "(" +:+
             render true (alltoks (lay_params (param0 sg) (params sg))) +:+
             ")",
             name sg, xfname), ctx')
  | (None, ctx') => (None, ctx')
  end.
Proof. apply get_function_signature_text. Qed.

(** ** Reading a parsed signature *)

(** [get_function_name] gives the name of a parsed signature, from the tree
    of either parser. *)
Theorem get_function_name_parsed (sg : Signature) :
  get_function_name (tree_of sg) = Some (name sg) /\
  get_function_name (xtree_of sg) = Some (name sg).
Proof.
  split; [rewrite tree_of_parts|rewrite xtree_of_parts]; reflexivity.
Qed.

Lemma param_nodes_read ps nodes :
  Forall2 param_node ps nodes ->
  mapM param_name nodes = Some (map p_name ps) /\
  mapM (fun n => param_type n ≫= type_core) nodes =
    Some (map (fun p => core_name (p_type p)) ps) /\
  mapM (fun n => param_type n ≫= type_is_const) nodes =
    Some (map (fun p => type_const (p_type p)) ps).
Proof.
  induction 1 as [|prm n ps nodes Hn _ IH]; [repeat split|].
  destruct IH as (IH1 & IH2 & IH3).
  destruct (param_core_node _ _ Hn) as (ptype & Hty & Hcore & Hconst).
  simpl mapM. rewrite (param_name_node _ _ Hn), IH1, IH2, IH3, Hty.
  cbn [mbind option_bind]. rewrite Hcore, Hconst. repeat split.
Qed.

(** [get_parameters] gives the parameters of a parsed signature in the order
    of the declaration, one node for each, and [param_name], [param_type]
    with [type_core] and [type_is_const] read the name, the core of the type
    and its constness from each node. *)
Theorem get_parameters_in_order (sg : Signature) :
  exists nodes,
    get_parameters (tree_of sg) = Some nodes /\
    length nodes = S (length (params sg)) /\
    mapM param_name nodes = Some (map p_name (parameters sg)) /\
    mapM (fun n => param_type n ≫= type_core) nodes =
      Some (map (fun p => core_name (p_type p)) (parameters sg)) /\
    mapM (fun n => param_type n ≫= type_is_const) nodes =
      Some (map (fun p => type_const (p_type p)) (parameters sg)).
Proof.
  destruct (get_parameters_nodes sg) as (nodes & Hget & Hall).
  exists nodes. split; [exact Hget|]. split.
  { apply Forall2_length in Hall. rewrite <- Hall. unfold parameters.
    cbn [length]. now rewrite length_map. }
  apply param_nodes_read, Hall.
Qed.
(** ** The blacklist of the script *)

Lemma has_paren_app a b : has_paren (a +:+ b) = has_paren a || has_paren b.
Proof.
  induction a as [|c a IH]; [reflexivity|].
  rewrite app_cons_s. cbn [has_paren]. now rewrite IH, orb_assoc.
Qed.

Lemma occurs_cons sub c s :
  occurs sub (String c s) <->
  String.prefix sub (String c s) = true \/ occurs sub s.
Proof.
  split.
  - intros (a & b & Hab). destruct a as [|z a].
    + left. apply prefix_occurs. exists b. exact Hab.
    + right. rewrite app_cons_s in Hab. injection Hab as _ ->.
      exists a, b. reflexivity.
  - intros [Hpre|(a & b & ->)].
    + apply prefix_occurs in Hpre as [b Hb]. exists "", b. exact Hb.
    + exists (String c a), b. reflexivity.
Qed.

(** On a text without an opening parenthesis the pattern of the blacklist
    looks for [cudnn] anywhere. *)
Lemma re_match_cudnn_occurs s :
  has_paren s = false -> (re_match_cudnn s = true <-> occurs "cudnn" s).
Proof.
  induction s as [|c s IH]; intros Hp.
  - cbn. split; [discriminate|]. intros (a & b & Hab).
    destruct a; discriminate.
  - cbn [has_paren] in Hp. apply orb_false_iff in Hp as [Hc Hs].
    rewrite occurs_cons. cbn [re_match_cudnn].
    rewrite orb_true_iff, Hc. cbn [negb andb]. now rewrite (IH Hs).
Qed.

Lemma prefix_before_paren p s rest :
  has_paren p = false ->
  String.prefix p (s +:+ "(" +:+ rest) = String.prefix p s.
Proof.
  revert s. induction p as [|x p IH]; intros s Hp.
  - now destruct s.
  - cbn [has_paren] in Hp. apply orb_false_iff in Hp as [Hx Hp].
    destruct s as [|c s].
    + rewrite app_nil_l_s. change ("(" +:+ rest) with (String "(" rest).
      cbn [String.prefix].
      destruct (ascii_dec x "(") as [->|_]; [discriminate|reflexivity].
    + rewrite app_cons_s. cbn [String.prefix].
      destruct (ascii_dec x c); [apply IH, Hp|reflexivity].
Qed.

(** The pattern reads a dispatch key as it reads the name in front of it. *)
Lemma re_match_cudnn_key s rest :
  has_paren s = false ->
  re_match_cudnn (s +:+ "(" +:+ rest) = re_match_cudnn s.
Proof.
  induction s as [|c s IH]; intros Hp; [reflexivity|].
  cbn [has_paren] in Hp. apply orb_false_iff in Hp as [Hc Hs].
  rewrite app_cons_s. cbn [re_match_cudnn].
  rewrite <- app_cons_s, prefix_before_paren by reflexivity.
  now rewrite Hc, (IH Hs).
Qed.

Lemma _FN_BLACKLIST_no_paren x : x ∈ _FN_BLACKLIST -> has_paren x = false.
Proof.
  unfold _FN_BLACKLIST. rewrite elem_of_list_to_set.
  rewrite !elem_of_cons, elem_of_nil. intuition subst; reflexivity.
Qed.

(** With the tables of the script the name decides: a function is
    blacklisted exactly when its name is one of the names of the blacklist
    or has [cudnn] in it; its dispatch key, the name and the types in
    parentheses, never adds to that. *)
Theorem is_blacklisted_by_name (P XP : string -> option Node)
    (fname rest : string) :
  has_paren fname = false ->
  is_blacklisted_fn (gen_env P XP) fname (fname +:+ "(" +:+ rest) = true <->
  fname ∈ _FN_BLACKLIST \/ occurs "cudnn" fname.
Proof.
  intros Hp. unfold is_blacklisted_fn.
  cbn [fn_blacklist fn_blacklist_regex gen_env _FN_BLACKLIST_REGEX existsb].
  rewrite (re_match_cudnn_key _ _ Hp), orb_false_r, orb_diag.
  rewrite <- (re_match_cudnn_occurs _ Hp).
  assert (bool_decide (fname +:+ "(" +:+ rest ∈ _FN_BLACKLIST) = false) as ->.
  { apply bool_decide_eq_false. intros Hin.
    apply _FN_BLACKLIST_no_paren in Hin. rewrite has_paren_app in Hin.
    apply orb_false_iff in Hin as [_ Hin]. discriminate. }
  rewrite orb_false_r.
  destruct (bool_decide (fname ∈ _FN_BLACKLIST)) eqn:Hb.
  - apply bool_decide_eq_true in Hb. tauto.
  - apply bool_decide_eq_false in Hb. tauto.
Qed.

Lemma is_blacklisted_by_name_witness :
  is_blacklisted_fn example_env "cudnn_is_acceptable"
    "cudnn_is_acceptable(Tensor) -> bool" = true /\
  is_blacklisted_fn example_env "relu" "relu(Tensor) -> Tensor" <> true.
Proof.
  split.
  - apply (is_blacklisted_by_name (parser example_env) (xparser example_env)
             "cudnn_is_acceptable" "Tensor) -> bool"); [reflexivity|].
    right. exists "", "_is_acceptable". reflexivity.
  - intros Hb.
    apply (is_blacklisted_by_name (parser example_env) (xparser example_env)
             "relu" "Tensor) -> Tensor") in Hb; [|reflexivity].
    destruct Hb as [Hin|(a & b & Hab)].
    + assert (bool_decide ("relu" ∈ _FN_BLACKLIST) = false) as Hno
        by (vm_compute; reflexivity).
      apply bool_decide_eq_false in Hno. contradiction.
    + destruct a as [|? [|? [|? [|? [|? a]]]]]; discriminate.
Defined.
(** ** The parts of a wrapper *)

Lemma fetch_nil tf : fetch tf [] = tf.
Proof.
  unfold fetch, tensors_of, flags_of. cbn [List.filter map].
  rewrite !app_nil_r. now destruct tf.
Qed.

Lemma fetch_cons_other tf prm ps :
  is_opaque prm = false -> fetch tf (prm :: ps) = fetch tf ps.
Proof.
  intros Hop. unfold fetch, tensors_of, flags_of. cbn [List.filter].
  now rewrite Hop.
Qed.

Lemma fetch_cons_tensor tf prm ps :
  is_opaque prm = true ->
  fetch tf (prm :: ps) =
  fetch (TensorFetcher.add tf (p_name prm)
           (negb (type_const (p_type prm)))).2 ps.
Proof.
  intros Hop. unfold fetch, tensors_of, flags_of, TensorFetcher.add.
  cbn [List.filter snd TensorFetcher.var_name TensorFetcher.tensors
       TensorFetcher.writeable].
  rewrite Hop. cbn [map]. rewrite <- !app_assoc. cbn [app].
  now destruct (type_const (p_type prm)).
Qed.

(** The loop over the parameters, in full: the statements before the call,
    the tensors of the fetcher and the arguments of the call. *)
Lemma wrapper_params_exact E fname ps nodes ref fnopts :
  Forall2 param_node ps nodes ->
  forall code tf pv xr,
    wrapper_params E fname nodes ref fnopts code tf pv xr =
    Some (code +:+ preludes_of E fname ps, fetch tf ps,
          pv ++ args_of E fname (TensorFetcher.var_name tf)
                  (length (TensorFetcher.tensors tf)) ps,
          track (ref_flags nodes ref fnopts)
            (args_of E fname (TensorFetcher.var_name tf)
               (length (TensorFetcher.tensors tf)) ps) xr).
Proof.
  induction 1 as [|prm n ps nodes Hn _ IH]; intros code tf pv xr.
  - cbn [wrapper_params preludes_of args_of ref_flags map track].
    now rewrite app_nil_r_s, app_nil_r, fetch_nil.
  - assert (forall code1 tf1 x,
      code1 = code +:+ prelude_of E fname prm ->
      fetch tf1 ps = fetch tf (prm :: ps) ->
      TensorFetcher.var_name tf1 = TensorFetcher.var_name tf ->
      length (TensorFetcher.tensors tf1) =
        (if is_opaque prm then S (length (TensorFetcher.tensors tf))
         else length (TensorFetcher.tensors tf)) ->
      x = arg_of E fname (TensorFetcher.var_name tf)
            (length (TensorFetcher.tensors tf)) prm ->
        (xla_ref_param ←
           (if is_ref_param n ref && negb (fnopts_has_ref_param fnopts)
            then v ← py_nth (pv ++ [x]) (-1); Some (Some v)
            else Some xr);
         wrapper_params E fname nodes ref fnopts code1 tf1 (pv ++ [x])
           xla_ref_param) =
        Some (code +:+ preludes_of E fname (prm :: ps), fetch tf (prm :: ps),
              pv ++ args_of E fname (TensorFetcher.var_name tf)
                      (length (TensorFetcher.tensors tf)) (prm :: ps),
              track (ref_flags (n :: nodes) ref fnopts)
                (args_of E fname (TensorFetcher.var_name tf)
                   (length (TensorFetcher.tensors tf)) (prm :: ps)) xr))
      as Hstep.
    { intros code1 tf1 x -> Hfetch Hvar Hlen ->. rewrite py_nth_last.
      assert (forall xr1,
        wrapper_params E fname nodes ref fnopts
          (code +:+ prelude_of E fname prm) tf1
          (pv ++ [arg_of E fname (TensorFetcher.var_name tf)
                    (length (TensorFetcher.tensors tf)) prm]) xr1 =
        Some (code +:+ preludes_of E fname (prm :: ps), fetch tf (prm :: ps),
              pv ++ args_of E fname (TensorFetcher.var_name tf)
                      (length (TensorFetcher.tensors tf)) (prm :: ps),
              track (ref_flags nodes ref fnopts)
                (args_of E fname (TensorFetcher.var_name tf)
                   (if is_opaque prm
                    then S (length (TensorFetcher.tensors tf))
                    else length (TensorFetcher.tensors tf)) ps) xr1))
        as Hrec.
      { intros xr1. rewrite IH, Hfetch, Hvar, Hlen.
        cbn [preludes_of args_of]. rewrite app_assoc_s, <- app_assoc.
        reflexivity. }
      cbn [ref_flags map track args_of]. fold (ref_flags nodes ref fnopts).
      destruct (is_ref_param n ref && negb (fnopts_has_ref_param fnopts));
        cbn [mbind option_bind]; apply Hrec. }
    cbn [wrapper_params].
    destruct (param_core_node _ _ Hn) as (ptype & -> & Hcore & Hconst).
    cbn [mbind option_bind]. rewrite Hcore. cbn [mbind option_bind].
    rewrite (param_name_node _ _ Hn). cbn [mbind option_bind].
    destruct (String.eqb (core_name (p_type prm)) "TensorList") eqn:Hl.
    { assert (is_opaque prm = false) as Hop.
      { unfold is_opaque. apply String.eqb_eq in Hl. now rewrite Hl. }
      apply Hstep.
      - unfold prelude_of. now rewrite Hl.
      - now rewrite fetch_cons_other.
      - reflexivity.
      - now rewrite Hop.
      - unfold arg_of. now rewrite Hl. }
    destruct (String.eqb (core_name (p_type prm)) "TensorOptions") eqn:Ho.
    { assert (is_opaque prm = false) as Hop.
      { unfold is_opaque. apply String.eqb_eq in Ho. now rewrite Ho. }
      destruct (rewrite_tensor_options E fname (p_name prm))
        as [gcode xname] eqn:Hrto.
      apply Hstep.
      - unfold prelude_of. now rewrite Hl, Ho, Hrto.
      - now rewrite fetch_cons_other.
      - reflexivity.
      - now rewrite Hop.
      - unfold arg_of. now rewrite Hl, Ho, Hrto. }
    destruct (String.eqb (core_name (p_type prm)) "Tensor") eqn:Ht;
      cbn [negb].
    + rewrite Hconst. cbn [mbind option_bind].
      pose proof (fetch_cons_tensor tf prm ps Ht) as Hf.
      unfold TensorFetcher.add in *.
      cbn [snd TensorFetcher.var_name TensorFetcher.tensors] in *.
      apply Hstep.
      * unfold prelude_of. now rewrite Hl, Ho, app_nil_r_s.
      * now rewrite Hf.
      * reflexivity.
      * unfold is_opaque. rewrite Ht. cbn [TensorFetcher.tensors].
        rewrite length_app. cbn [length]. lia.
      * unfold arg_of. rewrite Hl, Ho, Ht. cbn [negb].
        rewrite length_app. cbn [length].
        replace (Z.of_nat (length (TensorFetcher.tensors tf) + 1) - 1)
          with (Z.of_nat (length (TensorFetcher.tensors tf))) by lia.
        reflexivity.
    + apply Hstep.
      * unfold prelude_of. now rewrite Hl, Ho, app_nil_r_s.
      * now rewrite fetch_cons_other.
      * reflexivity.
      * unfold is_opaque. now rewrite Ht.
      * unfold arg_of. now rewrite Hl, Ho, Ht.
Qed.
(** [get_xla_wrapper] after the blacklist, in full. *)
Lemma wrapper_body_exact E sg xtree rwxtree orig_sig mapsig rwsig nodes fnopts
    ref sig xfname ctx fg ctx' :
  Forall2 param_node (parameters sg) nodes ->
  wrapper_body E (tree_of sg) xtree rwxtree orig_sig mapsig rwsig nodes fnopts
    ref sig (name sg) xfname ctx = (Some (Some fg), ctx') ->
  exists x0 rts stmt,
    ref_name ref = Some x0 /\
    get_return_type_str rwxtree rwsig = Some rts /\
    generate_return_stmt (tree_of sg) rts (name sg)
      (rname_of (return_type sg)) nodes
      (args_of E (name sg) "xlatens" 0 (parameters sg)) ref = Some stmt /\
    FuncGen.code fg =
      wrapper_text E ctx sg sig
        (get_handling_function E ctx (name sg)
           (track (ref_flags nodes ref fnopts)
              (args_of E (name sg) "xlatens" 0 (parameters sg)) x0)) stmt.
Proof.
  intros Hall. unfold wrapper_body. fold (ref_name ref).
  unfold mbind, M_bind, bind, get_ctx, lift, ret.
  destruct (ref_name ref) as [x0|]; [|discriminate].
  rewrite (wrapper_params_exact E (name sg) _ _ ref fnopts Hall).
  rewrite generate_result_assignment_text, py_truthy_result_assign.
  destruct (get_return_type_str _ _) as [rts|] eqn:Hrts; [|discriminate].
  change (TensorFetcher.var_name (TensorFetcher.init "xlatens"))
    with "xlatens".
  change (length (TensorFetcher.tensors (TensorFetcher.init "xlatens")))
    with 0%nat.
  rewrite app_nil_l.
  remember (preludes_of E (name sg) (parameters sg)) as pre.
  remember (args_of E (name sg) "xlatens" 0 (parameters sg)) as args.
  remember (fetch (TensorFetcher.init "xlatens") (parameters sg)) as tf.
  replace (if negb (returns_nothing (return_type sg))
           then Some _RESULT_NAME else None)
    with (rname_of (return_type sg))
    by (unfold rname_of; now destruct (returns_nothing (return_type sg))).
  destruct (generate_return_stmt _ _ _ _ _ _ _) as [stmt|] eqn:Hstmt;
    [|discriminate].
  destruct (create_stdfunc_sig _ _) as [funsig|]; [|discriminate].
  intros [= <- _]. exists x0, rts, stmt. split; [reflexivity|].
  split; [reflexivity|]. split; [exact Hstmt|].
  cbn [FuncGen.code].
  unfold wrapper_text, header_of, generate_debug_code, call_of.
  rewrite <- Heqpre, <- Heqargs, <- Heqtf.
  destruct (returns_nothing (return_type sg)); cbn [negb];
    rewrite !app_assoc_s, ?app_nil_l_s; reflexivity.
Qed.

(** [get_xla_wrapper] on a parsed signature, in full. *)
Lemma get_xla_wrapper_exact_xr E sg ctx fg ctx' :
  parses E sg ->
  xparser E (text (rw_sig (type_nsmap E) sg)) =
    Some (xtree_of (rw_sig (type_nsmap E) sg)) ->
  get_xla_wrapper E (text sg) ctx = (Some (Some fg), ctx') ->
  exists nodes x0 rts stmt,
    Forall2 param_node (parameters sg) nodes /\
    ref_name (pick nodes
         (elect (function_options E !! mapsig_of sg) (parameters sg))) =
      Some x0 /\
    get_return_type_str (xtree_of (rw_sig (type_nsmap E) sg))
      (text (rw_sig (type_nsmap E) sg)) = Some rts /\
    generate_return_stmt (tree_of sg) rts (name sg)
      (rname_of (return_type sg)) nodes
      (args_of E (name sg) "xlatens" 0 (parameters sg))
      (pick nodes
         (elect (function_options E !! mapsig_of sg) (parameters sg))) =
      Some stmt /\
    ctx' = count_name (name sg) ctx /\
    FuncGen.cppsig fg =
      cppsig_of (rw_sig (type_nsmap E) sg) (wrapper_name (name sg) ctx) /\
    FuncGen.code fg =
      wrapper_text E ctx' sg (FuncGen.cppsig fg)
        (get_handling_function E ctx' (name sg)
           (track
              (ref_flags nodes
                 (pick nodes
                    (elect (function_options E !! mapsig_of sg)
                       (parameters sg)))
                 (function_options E !! mapsig_of sg))
              (args_of E (name sg) "xlatens" 0 (parameters sg)) x0)) stmt.
Proof.
  intros Hp Hrw Hw.
  destruct (get_parameters_nodes sg) as (nodes & Hget & Hall).
  rewrite (get_xla_wrapper_front E sg ctx nodes Hp Hrw Hget Hall) in Hw.
  destruct (is_blacklisted_fn E (name sg) (mapsig_of sg)); [discriminate|].
  pose proof Hw as Hfields. apply wrapper_body_fields in Hfields.
  destruct Hfields as (_ & _ & _ & ->).
  pose proof (wrapper_body_exact _ _ _ _ _ _ _ _ _ _ _ _ _ _ _ Hall Hw)
    as (x0 & rts & stmt & Hx0 & Hrts & Hstmt & Hcode).
  assert (FuncGen.cppsig fg =
          cppsig_of (rw_sig (type_nsmap E) sg) (wrapper_name (name sg) ctx))
    as Hsig.
  { revert Hw. unfold wrapper_body, mbind, M_bind, bind, get_ctx, lift, ret.
    repeat match goal with
           | |- context [match ?x with _ => _ end] =>
               destruct x; try discriminate
           end.
    all: intros [= <-]; reflexivity. }
  exists nodes, x0, rts, stmt. rewrite Hsig. auto 10.
Qed.

Lemma get_xla_wrapper_exact E sg ctx fg ctx' :
  parses E sg ->
  xparser E (text (rw_sig (type_nsmap E) sg)) =
    Some (xtree_of (rw_sig (type_nsmap E) sg)) ->
  get_xla_wrapper E (text sg) ctx = (Some (Some fg), ctx') ->
  exists nodes xr rts stmt,
    Forall2 param_node (parameters sg) nodes /\
    generate_return_stmt (tree_of sg) rts (name sg)
      (rname_of (return_type sg)) nodes
      (args_of E (name sg) "xlatens" 0 (parameters sg))
      (pick nodes
         (elect (function_options E !! mapsig_of sg) (parameters sg))) =
      Some stmt /\
    ctx' = count_name (name sg) ctx /\
    FuncGen.cppsig fg =
      cppsig_of (rw_sig (type_nsmap E) sg) (wrapper_name (name sg) ctx) /\
    FuncGen.code fg =
      wrapper_text E ctx' sg (FuncGen.cppsig fg)
        (get_handling_function E ctx' (name sg) xr) stmt.
Proof.
  intros Hp Hrw Hw.
  destruct (get_xla_wrapper_exact_xr E sg ctx fg ctx' Hp Hrw Hw)
    as (nodes & x0 & rts & stmt & Hall & _ & _ & Hstmt & Hctx & Hsig & Hcode).
  eexists nodes, _, rts, stmt. eauto 10.
Qed.
(** ** The text of a wrapper *)




(** The parts of the text on the example
    [Tensor zeros(IntList size, const TensorOptions & options)]. *)
Example wrapper_text_zeros :
  preludes_of example_env2 "zeros" (parameters sig_zeros) =
    "  at::TensorOptions o_options = options.device(at::DeviceType::CPU);" +:+
    nl /\
  args_of example_env2 "zeros" "xlatens" 0 (parameters sig_zeros) =
    ["size"; "o_options"] /\
  args_of example_env "stack" "xlatens" 0 (parameters sig_stack) =
    ["l_tensors"; "xlatens[0]"] /\
  tensors_of (parameters sig_add_inplace) = ["self"; "other"] /\
  flags_of (parameters sig_add_inplace) = ["true"; "false"].
Proof. repeat split; vm_compute; reflexivity. Qed.

(** ** Return statements without a tensor *)

Lemma generate_return_stmt_plain sg rts fname nodes pv ref :
  plain_return (return_type sg) = true ->
  generate_return_stmt (tree_of sg) rts fname (rname_of (return_type sg))
    nodes pv ref =
  Some (if returns_nothing (return_type sg) then ""
        else return_stmt _RESULT_NAME).
Proof.
  unfold plain_return. rewrite !andb_true_iff, !negb_true_iff.
  intros [[Htup Hvec] Hten].
  unfold generate_return_stmt. rewrite tree_of_parts.
  cbn [children mbind option_bind]. rewrite !py_nth_0.
  cbn [mbind option_bind]. rewrite type_core_lay_type.
  cbn [mbind option_bind]. rewrite Htup, Hvec, Hten.
  unfold returns_nothing, rname_of, returns_nothing.
  destruct (String.eqb (core_name (return_type sg)) "void").
  - rewrite type_is_ptr_lay_type. cbn [mbind option_bind andb].
    destruct (type_ptr (return_type sg)); reflexivity.
  - reflexivity.
Qed.

(** A wrapper whose return type is not a tuple, a vector or a tensor ends in
    the return of the result of the call as it is; when the return type is
    [void] and not a pointer the result is not kept and there is no return
    statement. *)
Theorem get_xla_wrapper_plain_return (E : Env) (sg : Signature)
    (ctx ctx' : Context) (fg : FuncGen.t) :
  parses E sg ->
  xparser E (text (rw_sig (type_nsmap E) sg)) =
    Some (xtree_of (rw_sig (type_nsmap E) sg)) ->
  plain_return (return_type sg) = true ->
  get_xla_wrapper E (text sg) ctx = (Some (Some fg), ctx') ->
  exists callee,
    FuncGen.code fg =
    wrapper_text E ctx' sg (FuncGen.cppsig fg) callee
      (if String.eqb (core_name (return_type sg)) "void" &&
          negb (type_ptr (return_type sg))
       then "" else "  return x_result;" +:+ nl) /\
    call_of sg callee =
      "  " +:+
      (if String.eqb (core_name (return_type sg)) "void" &&
          negb (type_ptr (return_type sg))
       then "" else "auto&& x_result = ") +:+ callee +:+ "(".
Proof.
  intros Hp Hrw Hplain Hw.
  destruct (get_xla_wrapper_exact E sg ctx fg ctx' Hp Hrw Hw)
    as (nodes & xr & rts & stmt & Hall & Hstmt & Hctx & Hsig & Hcode).
  rewrite (generate_return_stmt_plain _ _ _ _ _ _ Hplain) in Hstmt.
  injection Hstmt as <-. eexists. split; [exact Hcode|].
  unfold call_of, result_assign_of, returns_nothing.
  destruct (_ && _); reflexivity.
Qed.

Lemma get_xla_wrapper_plain_return_witness :
  exists fg ctx' callee,
    get_xla_wrapper example_env2 (text sig_set) example_ctx =
      (Some (Some fg), ctx') /\
    FuncGen.code fg =
      wrapper_text example_env2 ctx' sig_set (FuncGen.cppsig fg) callee "".
Proof.
  destruct (get_xla_wrapper example_env2 (text sig_set) example_ctx)
    as [[[fg|]|] ctx'] eqn:Hw; [|vm_compute in Hw; discriminate..].
  destruct (get_xla_wrapper_plain_return example_env2 sig_set example_ctx
              ctx' fg) as (callee & Hcode & _).
  - split; vm_compute; reflexivity.
  - vm_compute. reflexivity.
  - reflexivity.
  - exact Hw.
  - exists fg, ctx', callee. split; [reflexivity|exact Hcode].
Defined.

(** ** Return statement of a vector *)

Lemma generate_return_stmt_vector sg rts fname nodes pv ref :
  core_name (return_type sg) = "std::vector" ->
  generate_return_stmt (tree_of sg) rts fname (rname_of (return_type sg))
    nodes pv ref =
  r ← ref;
  refname ← param_name r;
  Some (return_stmt ("bridge::CreateXlaTensors(" +:+ _RESULT_NAME +:+
                     ", bridge::GetXlaDevice(" +:+ refname +:+ "))")).
Proof.
  intros Hcore. unfold generate_return_stmt. rewrite tree_of_parts.
  cbn [children mbind option_bind]. rewrite !py_nth_0.
  cbn [mbind option_bind]. rewrite type_core_lay_type.
  cbn [mbind option_bind]. unfold rname_of, returns_nothing.
  rewrite Hcore. reflexivity.
Qed.

(** A wrapper whose return type is a vector ends in the return of the XLA
    tensors made from the result on the device of the elected reference
    parameter, which there is. *)
Theorem get_xla_wrapper_vector_return (E : Env) (sg : Signature)
    (ctx ctx' : Context) (fg : FuncGen.t) :
  parses E sg ->
  xparser E (text (rw_sig (type_nsmap E) sg)) =
    Some (xtree_of (rw_sig (type_nsmap E) sg)) ->
  core_name (return_type sg) = "std::vector" ->
  get_xla_wrapper E (text sg) ctx = (Some (Some fg), ctx') ->
  exists callee prm,
    pick (parameters sg)
      (elect (function_options E !! mapsig_of sg) (parameters sg)) =
      Some prm /\
    FuncGen.code fg =
    wrapper_text E ctx' sg (FuncGen.cppsig fg) callee
      ("  return bridge::CreateXlaTensors(x_result, bridge::GetXlaDevice(" +:+
       p_name prm +:+ "));" +:+ nl).
Proof.
  intros Hp Hrw Hcore Hw.
  destruct (get_xla_wrapper_exact E sg ctx fg ctx' Hp Hrw Hw)
    as (nodes & xr & rts & stmt & Hall & Hstmt & Hctx & Hsig & Hcode).
  rewrite (generate_return_stmt_vector _ _ _ _ _ _ Hcore) in Hstmt.
  destruct (pick nodes _) as [r|] eqn:Hpick; [|discriminate].
  destruct (pick_node_name _ _ _ _ Hall Hpick) as (prm & Hprm & Hname).
  cbn [mbind option_bind] in Hstmt. rewrite Hname in Hstmt.
  cbn [mbind option_bind] in Hstmt. injection Hstmt as <-.
  eexists. exists prm. split; [exact Hprm|]. rewrite Hcode.
  unfold return_stmt. now rewrite !app_assoc_s.
Qed.

Lemma get_xla_wrapper_vector_return_witness :
  exists fg ctx' callee,
    get_xla_wrapper example_env2 (text sig_unbind) example_ctx =
      (Some (Some fg), ctx') /\
    FuncGen.code fg =
    wrapper_text example_env2 ctx' sig_unbind (FuncGen.cppsig fg) callee
      ("  return bridge::CreateXlaTensors(x_result, bridge::GetXlaDevice(self));"
       +:+ nl).
Proof.
  destruct (get_xla_wrapper example_env2 (text sig_unbind) example_ctx)
    as [[[fg|]|] ctx'] eqn:Hw; [|vm_compute in Hw; discriminate..].
  destruct (get_xla_wrapper_vector_return example_env2 sig_unbind example_ctx
              ctx' fg) as (callee & prm & Hprm & Hcode).
  - split; vm_compute; reflexivity.
  - vm_compute. reflexivity.
  - reflexivity.
  - exact Hw.
  - exists fg, ctx', callee. split; [reflexivity|]. rewrite Hcode.
    vm_compute in Hprm. injection Hprm as <-. reflexivity.
Defined.
(** ** The tensor fetcher *)

Lemma add_all_from f l :
  add_all f l =
  (imap (fun i _ =>
           TensorFetcher.var_name f +:+ "[" +:+
           pretty (Z.of_nat (length (TensorFetcher.tensors f) + i)) +:+ "]") l,
   TensorFetcher.mk (TensorFetcher.var_name f)
     (TensorFetcher.tensors f ++ map fst l)
     (TensorFetcher.writeable f ++
      map (fun nw => if nw.2 : bool then "true" else "false") l)).
Proof.
  revert f. induction l as [|[n w] l IH]; intros f.
  - cbn [add_all imap map]. rewrite !app_nil_r. now destruct f.
  - cbn [add_all]. unfold TensorFetcher.add at 1. rewrite IH.
    cbn [TensorFetcher.var_name TensorFetcher.tensors TensorFetcher.writeable
         imap map fst snd].
    rewrite <- !app_assoc. cbn [app]. f_equal. f_equal.
    + replace (Z.of_nat (length (TensorFetcher.tensors f ++ [n])) - 1)
        with (Z.of_nat (length (TensorFetcher.tensors f) + 0))
        by (rewrite length_app; cbn [length]; lia).
      reflexivity.
    + apply imap_ext. intros i x _. cbn [compose].
      replace (length (TensorFetcher.tensors f ++ [n]) + i)%nat
        with (length (TensorFetcher.tensors f) + S i)%nat
        by (rewrite length_app; cbn [length]; lia).
      reflexivity.
Qed.

(** A fetcher gives the tensors added to it the indices 0, 1, 2, ... in the
    order they are added, as expressions on its variable, and keeps at each
    index the name of the tensor and the text of its flag: the expression
    [add] returns for a tensor indexes that tensor in the list [generate]
    declares. *)
Theorem TensorFetcher_add_all (v : string) (l : list (string * bool)) :
  TensorFetcher.var_name (add_all (TensorFetcher.init v) l).2 = v /\
  TensorFetcher.tensors (add_all (TensorFetcher.init v) l).2 = map fst l /\
  length (TensorFetcher.writeable (add_all (TensorFetcher.init v) l).2) =
    length (TensorFetcher.tensors (add_all (TensorFetcher.init v) l).2) /\
  forall (i : nat) (n : string) (w : bool),
    l !! i = Some (n, w) ->
    (add_all (TensorFetcher.init v) l).1 !! i =
      Some (v +:+ "[" +:+ pretty (Z.of_nat i) +:+ "]") /\
    TensorFetcher.tensors (add_all (TensorFetcher.init v) l).2 !! i = Some n /\
    TensorFetcher.writeable (add_all (TensorFetcher.init v) l).2 !! i =
      Some (if w then "true" else "false").
Proof.
  rewrite add_all_from.
  cbn [fst snd TensorFetcher.init TensorFetcher.var_name TensorFetcher.tensors
       TensorFetcher.writeable app length].
  split; [reflexivity|]. split; [reflexivity|]. split.
  { now rewrite !length_map. }
  intros i n w Hi. split; [|split].
  - rewrite list_lookup_imap, Hi. reflexivity.
  - change (map fst l) with (fst <$> l). now rewrite list_lookup_fmap, Hi.
  - change (map (fun nw : string * bool => if nw.2 then "true" else "false") l)
      with ((fun nw : string * bool => if nw.2 then "true" else "false") <$> l).
    now rewrite list_lookup_fmap, Hi.
Qed.

(** ** The texts of a batch *)

Lemma fold_left_append {A} (f : A -> string) (l : list A) (acc : string) :
  fold_left (fun code x => code +:+ f x) l acc =
  acc +:+ concat_s (map f l).
Proof.
  revert acc. induction l as [|x l IH]; intros acc; cbn [fold_left map].
  - unfold concat_s. cbn. now rewrite app_nil_r_s.
  - rewrite IH. unfold concat_s. cbn [fold_right].
    now rewrite app_assoc_s.
Qed.

Lemma concat_s_app l1 l2 : concat_s (l1 ++ l2) = concat_s l1 +:+ concat_s l2.
Proof.
  induction l1 as [|x l1 IH]; [reflexivity|].
  unfold concat_s in *. cbn [app fold_right]. now rewrite IH, app_assoc_s.
Qed.

(** The texts of a batch are made of one part for each wrapper, in the order
    of the batch: the code of the wrapper and an empty line in the
    functions, the rewritten signature as an override in the class, and an
    entry with the dispatch key and the name of the wrapper between the two
    lines of the registration function.  So the text of two batches one
    after the other is the text of the first followed by the text of the
    second. *)
Theorem generate_texts_in_order (fgens more : list FuncGen.t) :
  generate_functions fgens =
    concat_s (map (fun fg => FuncGen.code fg +:+ nl +:+ nl) fgens) /\
  generate_class_functions fgens =
    concat_s (map (fun fg => "  " +:+ FuncGen.rwsig fg +:+ " const override;"
                             +:+ nl) fgens) /\
  generate_registrations fgens =
    "void RegisterAtenTypeFunctions() {" +:+ nl +:+
    concat_s (map registration fgens) +:+ "}" +:+ nl /\
  generate_functions (fgens ++ more) =
    generate_functions fgens +:+ generate_functions more /\
  generate_class_functions (fgens ++ more) =
    generate_class_functions fgens +:+ generate_class_functions more.
Proof.
  assert (forall l, generate_functions l =
            concat_s (map (fun fg => FuncGen.code fg +:+ nl +:+ nl) l)) as Hf.
  { intros l. unfold generate_functions.
    now rewrite (fold_left_append (fun fg => FuncGen.code fg +:+ nl +:+ nl)). }
  assert (forall l, generate_class_functions l =
            concat_s (map (fun fg => "  " +:+ FuncGen.rwsig fg +:+
                                     " const override;" +:+ nl) l)) as Hc.
  { intros l. unfold generate_class_functions.
    now rewrite (fold_left_append
                   (fun fg => "  " +:+ FuncGen.rwsig fg +:+
                              " const override;" +:+ nl)). }
  split; [apply Hf|]. split; [apply Hc|]. split; [|split].
  - unfold generate_registrations.
    rewrite (fold_left_append registration). reflexivity.
  - now rewrite !Hf, map_app, concat_s_app.
  - now rewrite !Hc, map_app, concat_s_app.
Qed.
(** ** The batch *)

Lemma wrapper_body_sig E tree xtree rwxtree orig_sig mapsig rwsig params
    fnopts ref sig fname xfname ctx fg ctx' :
  wrapper_body E tree xtree rwxtree orig_sig mapsig rwsig params fnopts ref
    sig fname xfname ctx = (Some (Some fg), ctx') ->
  FuncGen.sig fg = orig_sig /\ FuncGen.rwsig fg = rwsig /\
  FuncGen.cppsig fg = sig.
Proof.
  unfold wrapper_body, mbind, M_bind, bind, get_ctx, lift, ret.
  destruct (match ref with
            | Some r => _
            | None => Some None
            end) as [x0|]; [|discriminate].
  destruct (wrapper_params _ _ _ _ _ _ _ _ _) as [[[[code tf] pv] xr]|];
    [|discriminate].
  destruct (generate_result_assignment _ _) as [ra|]; [|discriminate].
  destruct (get_return_type_str _ _) as [rts|]; [|discriminate].
  destruct (generate_return_stmt _ _ _ _ _ _ _) as [stmt|]; [|discriminate].
  destruct (create_stdfunc_sig _ _) as [funsig|]; [|discriminate].
  intros [= <- _]. auto.
Qed.

(** Whatever the text, a wrapper that is written records the text it was
    written for, and the rewrite of that text. *)
Lemma get_xla_wrapper_sig E ts ctx fg ctx' :
  get_xla_wrapper E ts ctx = (Some (Some fg), ctx') ->
  FuncGen.sig fg = ts /\
  rewrite_signature E ts (type_nsmap E) = Some (FuncGen.rwsig fg) /\
  (exists xtree, xparser E ts = Some xtree /\
     create_map_sig xtree ts = Some (FuncGen.mapsig fg)).
Proof.
  rewrite get_xla_wrapper_unfold. unfold mbind, M_bind, bind, lift.
  destruct (parser E ts) as [tree|]; [|discriminate].
  destruct (xparser E ts) as [xtree|]; [|discriminate].
  destruct (create_map_sig xtree ts) as [mapsig|] eqn:Hmap; [|discriminate].
  destruct (rewrite_signature E ts (type_nsmap E)) as [rwsig|];
    [|discriminate].
  destruct (xparser E rwsig) as [rwxtree|]; [|discriminate].
  destruct (get_parameters tree) as [params|]; [|discriminate].
  cbv zeta.
  destruct (get_reference_param params _) as [ref|]; [|discriminate].
  destruct (get_function_signature rwxtree rwsig gen_fnname ctx)
    as [[[[sig fname] xfname]|] ctx1]; [|discriminate].
  destruct (is_blacklisted_fn E fname mapsig) eqn:Hb; [discriminate|].
  intros Hbody. pose proof Hbody as Hf.
  apply wrapper_body_sig in Hbody as (-> & -> & _).
  apply wrapper_body_fields in Hf as (_ & -> & _).
  split; [reflexivity|]. split; [reflexivity|]. eauto.
Qed.

(** The records of a batch are records of texts of the batch, in the order
    of the batch and no more than one for a text: the texts the records
    carry are the texts of the batch with some left out.  Every text that
    is left out either got no wrapper or raised. *)
Theorem generate_fgens_in_order (E : Env) (fndefs : list string)
    (ctx : Context) :
  sublist (map FuncGen.sig (generate_fgens E fndefs ctx).1) fndefs /\
  (length (generate_fgens E fndefs ctx).1 <= length fndefs)%nat /\
  (forall ts,
     (get_xla_wrapper E ts ctx).1 = Some None \/
     (get_xla_wrapper E ts ctx).1 = None ->
     generate_fgens E (ts :: fndefs) ctx =
     generate_fgens E fndefs (get_xla_wrapper E ts ctx).2).
Proof.
  split; [|split].
  - revert ctx. induction fndefs as [|ts fndefs IH]; intros ctx.
    + constructor.
    + cbn [generate_fgens].
      destruct (get_xla_wrapper E ts ctx) as [[[fg|]|] ctx1] eqn:Hw.
      * specialize (IH ctx1).
        destruct (generate_fgens E fndefs ctx1) as [fgens ctx2].
        cbn [fst map] in *.
        apply get_xla_wrapper_sig in Hw as (-> & _).
        now apply sublist_skip.
      * apply sublist_cons, IH.
      * apply sublist_cons, IH.
  - revert ctx. induction fndefs as [|ts fndefs IH]; intros ctx.
    + cbn. lia.
    + cbn [generate_fgens].
      destruct (get_xla_wrapper E ts ctx) as [[[fg|]|] ctx1].
      * specialize (IH ctx1).
        destruct (generate_fgens E fndefs ctx1) as [fgens ctx2].
        cbn [fst length] in *. lia.
      * specialize (IH ctx1). cbn [length]. lia.
      * specialize (IH ctx1). cbn [length]. lia.
  - intros ts Hts. cbn [generate_fgens].
    destruct (get_xla_wrapper E ts ctx) as [[[fg|]|] ctx1]; cbn [fst snd] in *;
      [destruct Hts; discriminate|reflexivity..].
Qed.

(** On the examples: of five signatures, the blacklisted one and the one
    that raises are left out, and the second [add] is named after the
    first. *)
Example generate_fgens_examples :
  map FuncGen.xfunc
    (generate_fgens example_env
       (map text [sig_backward; sig_add; sig_eye; sig_add_spaced; sig_relu])
       example_ctx).1 =
  ["xla_add"; "xla_add_1"; "xla_relu"].
Proof. vm_compute. reflexivity. Qed.

(** ** Class mode *)

Lemma get_function_signature_class_ctx t orig_sig ctx :
  gen_class_mode ctx = true ->
  (get_function_signature t orig_sig gen_fnname ctx).2 = ctx.
Proof.
  intros Hm. unfold get_function_signature, mbind, M_bind, bind, lift, ret.
  destruct (typed_child t 0 "type"); [|reflexivity].
  destruct (emit_string _ _ _); [|reflexivity].
  destruct (option_bind _ _ _ (typed_child t 1 "fnname")) as [fnname|];
    [|reflexivity].
  destruct (value fnname); [|reflexivity].
  unfold gen_fnname at 1. rewrite Hm.
  destruct (typed_child t 3 "params"); [|reflexivity].
  destruct (emit_string _ _ _); reflexivity.
Qed.

Lemma wrapper_body_ctx E tree xtree rwxtree orig_sig mapsig rwsig params
    fnopts ref sig fname xfname ctx :
  (wrapper_body E tree xtree rwxtree orig_sig mapsig rwsig params fnopts ref
     sig fname xfname ctx).2 = ctx.
Proof.
  unfold wrapper_body, mbind, M_bind, bind, get_ctx, lift, ret.
  destruct (match ref with
            | Some r => _
            | None => Some None
            end) as [x0|]; [|reflexivity].
  destruct (wrapper_params _ _ _ _ _ _ _ _ _) as [[[[code tf] pv] xr]|];
    [|reflexivity].
  destruct (generate_result_assignment _ _) as [ra|]; [|reflexivity].
  destruct (get_return_type_str _ _) as [rts|]; [|reflexivity].
  destruct (generate_return_stmt _ _ _ _ _ _ _) as [stmt|]; [|reflexivity].
  destruct (create_stdfunc_sig _ _) as [funsig|]; reflexivity.
Qed.

Lemma get_xla_wrapper_class_ctx E ts ctx :
  gen_class_mode ctx = true -> (get_xla_wrapper E ts ctx).2 = ctx.
Proof.
  intros Hm. rewrite get_xla_wrapper_unfold.
  unfold mbind, M_bind, bind, lift.
  destruct (parser E ts) as [tree|]; [|reflexivity].
  destruct (xparser E ts) as [xtree|]; [|reflexivity].
  destruct (create_map_sig xtree ts) as [mapsig|]; [|reflexivity].
  destruct (rewrite_signature E ts (type_nsmap E)) as [rwsig|];
    [|reflexivity].
  destruct (xparser E rwsig) as [rwxtree|]; [|reflexivity].
  destruct (get_parameters tree) as [params|]; [|reflexivity].
  cbv zeta.
  destruct (get_reference_param params _) as [ref|]; [|reflexivity].
  pose proof (get_function_signature_class_ctx rwxtree rwsig ctx Hm) as Hc.
  destruct (get_function_signature rwxtree rwsig gen_fnname ctx)
    as [[[[sig fname] xfname]|] ctx1]; cbn [snd] in Hc; subst ctx1;
    [|reflexivity].
  destruct (is_blacklisted_fn E fname mapsig); [reflexivity|].
  apply wrapper_body_ctx.
Qed.

(** In class mode no text, parsed or not, changes the context, so the
    context after a batch is the context before it; the wrapper of a parsed
    signature is named [AtenXlaTypeBase::] and the name of the function,
    whatever was named before, and its declaration is followed by
    [const]. *)
Theorem class_mode_naming (E : Env) (ctx : Context) :
  gen_class_mode ctx = true ->
  (forall fndefs, (generate_fgens E fndefs ctx).2 = ctx) /\
  (forall sg fg ctx',
     readable E sg ->
     get_xla_wrapper E (text sg) ctx = (Some (Some fg), ctx') ->
     FuncGen.xfunc fg = "AtenXlaTypeBase::" +:+ name sg /\
     exists rest,
       FuncGen.code fg = FuncGen.cppsig fg +:+ " const {" +:+ nl +:+ rest).
Proof.
  intros Hm. split.
  - intros fndefs. induction fndefs as [|ts fndefs IH]; [reflexivity|].
    rewrite generate_fgens_context, get_xla_wrapper_class_ctx by exact Hm.
    exact IH.
  - intros sg fg ctx' [Hp Hrw] Hw.
    destruct (get_xla_wrapper_exact E sg ctx fg ctx' Hp Hrw Hw)
      as (nodes0 & xr0 & rts0 & stmt & _ & _ & Hctx & _ & Hcode).
    assert (gen_class_mode ctx' = gen_class_mode ctx) as Hmode
      by (rewrite Hctx; apply functions_data_count_name).
    split.
    + destruct (get_xla_wrapper_result E sg ctx Hp Hrw)
        as (n & nodes & code & tf & v & pv & xr & rts & _ & _ & Heq).
      rewrite Heq in Hw. clear Heq.
      destruct (is_blacklisted_fn E (name sg) (mapsig_of sg));
        [discriminate|].
      destruct (generate_return_stmt _ _ _ _ _ _ _); [|discriminate].
      injection Hw as <- _. cbn [FuncGen.xfunc]. unfold wrapper_name.
      now rewrite Hm.
    + rewrite Hcode. unfold wrapper_text, header_of.
      rewrite Hmode, Hm. rewrite !app_assoc_s. eexists. reflexivity.
Qed.

Lemma class_mode_naming_witness :
  map FuncGen.xfunc
    (generate_fgens example_env (map text [sig_add; sig_add_spaced])
       example_class_ctx).1 =
    ["AtenXlaTypeBase::add"; "AtenXlaTypeBase::add"] /\
  (generate_fgens example_env (map text [sig_add; sig_add_spaced])
     example_class_ctx).2 = example_class_ctx.
Proof.
  split; [vm_compute; reflexivity|].
  apply (proj1 (class_mode_naming example_env example_class_ctx eq_refl)).
Defined.
(** ** The variable of the reference parameter *)

Lemma node_eqb_refl : forall n, node_eqb n n = true.
Proof.
  fix IH 1. intros [ty v c e|d cs].
  - cbn. now rewrite !String.eqb_refl.
  - cbn [node_eqb]. rewrite String.eqb_refl. cbn [andb].
    induction cs as [|x cs IHcs]; [reflexivity|].
    now rewrite IH, IHcs.
Qed.

(** Equal nodes have the same parameter name. *)
Lemma node_eqb_param_name a b :
  node_eqb a b = true -> param_name a = param_name b.
Proof.
  destruct a as [|d cs], b as [|d' cs']; try discriminate; [reflexivity|].
  cbn [node_eqb]. intros [_ Hcs]%andb_true_iff.
  destruct cs as [|c0 [|c1 r]], cs' as [|c0' [|c1' r']];
    try discriminate; try reflexivity;
    try (apply andb_true_iff in Hcs as [_ Hcs]; discriminate).
  apply andb_true_iff in Hcs as [_ Hcs].
  apply andb_true_iff in Hcs as [H1 _].
  unfold param_name. cbn [children mbind option_bind].
  change (py_nth (c0 :: c1 :: r) 1) with (Some c1).
  change (py_nth (c0' :: c1' :: r') 1) with (Some c1').
  cbn [mbind option_bind].
  destruct c1 as [|e ds], c1' as [|e' ds']; try discriminate; [reflexivity|].
  cbn [node_eqb] in H1. apply andb_true_iff in H1 as [He Hds].
  apply String.eqb_eq in He. subst e'. cbn [is_Tree_with].
  destruct (String.eqb e "param_name"); [|reflexivity].
  cbn [assert mbind option_bind children].
  destruct ds as [|t0 ds], ds' as [|t0' ds']; try discriminate;
    [reflexivity|].
  apply andb_true_iff in Hds as [Ht _].
  change (py_nth (t0 :: ds) 0) with (Some t0).
  change (py_nth (t0' :: ds') 0) with (Some t0').
  cbn [mbind option_bind].
  destruct t0, t0'; try discriminate; [|reflexivity].
  cbn in Ht. apply andb_true_iff in Ht as [_ Hv].
  apply String.eqb_eq in Hv. now subst.
Qed.

Lemma track_all_false flags args xr :
  Forall (fun b => b = false) flags -> track flags args xr = xr.
Proof.
  intros Hall. revert args. induction Hall as [|b flags -> _ IH];
    intros [|a args]; cbn [track]; auto.
Qed.

Lemma track_single flags : forall args xr i a,
  length flags = length args ->
  args !! i = Some a ->
  (forall j b, flags !! j = Some b -> b = bool_decide (j = i)) ->
  track flags args xr = Some a.
Proof.
  induction flags as [|b flags IH]; intros [|a0 args] xr i a Hlen Hi Hfl;
    try discriminate.
  cbn [track]. destruct i as [|i].
  - injection Hi as ->. rewrite (Hfl 0%nat b eq_refl). cbn.
    apply track_all_false. apply Forall_lookup. intros j b' Hj.
    apply (Hfl (S j) b' Hj).
  - rewrite (Hfl 0%nat b eq_refl). cbn.
    apply (IH args xr i a); [cbn in Hlen; lia|exact Hi|].
    intros j b' Hj. rewrite (Hfl (S j) b' Hj).
    apply bool_decide_ext. lia.
Qed.

Lemma length_args_of E fname v ps : forall k,
  length (args_of E fname v k ps) = length ps.
Proof.
  induction ps as [|p ps IH]; intros k; cbn [args_of length]; auto.
Qed.

(** Among the nodes of parameters with different names, a node is equal to
    the node at [i] only at [i]. *)
Lemma ref_flags_single ps nodes i r fnopts :
  Forall2 param_node ps nodes ->
  NoDup (map p_name ps) ->
  nodes !! i = Some r ->
  fnopts_has_ref_param fnopts = false ->
  forall j b, ref_flags nodes (Some r) fnopts !! j = Some b ->
              b = bool_decide (j = i).
Proof.
  intros Hall Hnd Hr Hno j b. unfold ref_flags.
  rewrite Hno. cbn [negb]. change (map ?f nodes) with (f <$> nodes).
  rewrite list_lookup_fmap.
  destruct (nodes !! j) as [n|] eqn:Hn; [|discriminate].
  cbn. intros [= <-]. rewrite andb_true_r.
  destruct (decide (j = i)) as [->|Hne].
  - rewrite bool_decide_eq_true_2 by reflexivity.
    rewrite Hr in Hn. injection Hn as <-. apply node_eqb_refl.
  - rewrite bool_decide_eq_false_2 by exact Hne.
    destruct (node_eqb n r) eqn:Heq; [|reflexivity].
    apply node_eqb_param_name in Heq.
    pose proof (param_nodes_names _ _ Hall) as Hnames.
    destruct (Forall2_lookup_r _ _ _ _ _ Hnames Hn) as (pj & Hpj & Hnj).
    destruct (Forall2_lookup_r _ _ _ _ _ Hnames Hr) as (pi & Hpi & Hni).
    rewrite Hnj, Hni in Heq. injection Heq as Heq.
    exfalso. apply Hne.
    apply (NoDup_lookup _ j i (p_name pj) Hnd).
    + change (map p_name ps) with (p_name <$> ps).
      now rewrite list_lookup_fmap, Hpj.
    + change (map p_name ps) with (p_name <$> ps).
      now rewrite list_lookup_fmap, Hpi, Heq.
Qed.

(** The variable of the reference parameter.  When the parameters of a
    parsed signature have different names, the wrapper resolves its callee
    with: nothing ([None]) when no reference parameter is elected; the name
    of the elected parameter when the signature has an override; and else
    the argument it passes for the elected parameter, such as [xlatens[0]]
    for the first tensor. *)
Theorem get_xla_wrapper_reference_variable (E : Env) (sg : Signature)
    (ctx ctx' : Context) (fg : FuncGen.t) :
  parses E sg ->
  xparser E (text (rw_sig (type_nsmap E) sg)) =
    Some (xtree_of (rw_sig (type_nsmap E) sg)) ->
  NoDup (map p_name (parameters sg)) ->
  get_xla_wrapper E (text sg) ctx = (Some (Some fg), ctx') ->
  exists stmt,
    FuncGen.code fg =
    wrapper_text E ctx' sg (FuncGen.cppsig fg)
      (get_handling_function E ctx' (name sg) (ref_var E sg)) stmt.
Proof.
  intros Hp Hrw Hnd Hw.
  destruct (get_xla_wrapper_exact_xr E sg ctx fg ctx' Hp Hrw Hw)
    as (nodes & x0 & rts & stmt & Hall & Hx0 & _ & _ & _ & _ & Hcode).
  exists stmt. rewrite Hcode. do 2 f_equal. unfold ref_var.
  set (fnopts := function_options E !! mapsig_of sg) in *.
  destruct (elect fnopts (parameters sg)) as [i|]; cbn [pick mbind option_bind]
    in *.
  - destruct (nodes !! i) as [r|] eqn:Hr.
    + destruct (Forall2_lookup_r _ _ _ _ _ (param_nodes_names _ _ Hall) Hr)
        as (prm & Hprm & Hname).
      cbn [ref_name] in Hx0. rewrite Hname in Hx0.
      cbn [mbind option_bind] in Hx0. injection Hx0 as <-.
      destruct (fnopts_has_ref_param fnopts) eqn:Hhas.
      * rewrite Hprm. cbn. apply track_all_false.
        unfold ref_flags. rewrite Hhas. apply Forall_forall.
        intros b Hb. apply list_elem_of_In, in_map_iff in Hb as (n & <- & _).
        apply andb_false_r.
      * assert (is_Some (args_of E (name sg) "xlatens" 0 (parameters sg) !! i))
          as [a Ha].
        { apply lookup_lt_is_Some. rewrite length_args_of.
          apply lookup_lt_Some in Hprm. exact Hprm. }
        rewrite Ha. apply (track_single _ _ _ i a).
        -- unfold ref_flags. rewrite length_map, length_args_of.
           symmetry. apply (Forall2_length _ _ _ Hall).
        -- exact Ha.
        -- apply (ref_flags_single _ _ _ _ _ Hall Hnd Hr Hhas).
    + cbn [ref_name] in Hx0. injection Hx0 as <-.
      assert (forall A (l : list A), length l = length nodes -> l !! i = None)
        as Hout.
      { intros A l Hl. apply lookup_ge_None. rewrite Hl.
        now apply lookup_ge_None. }
      rewrite (Hout _ (parameters sg)) by apply (Forall2_length _ _ _ Hall).
      rewrite (Hout _ (args_of E (name sg) "xlatens" 0 (parameters sg)))
        by (rewrite length_args_of; apply (Forall2_length _ _ _ Hall)).
      replace (if fnopts_has_ref_param fnopts then p_name <$> None else None)
        with (@None string) by (now destruct (fnopts_has_ref_param fnopts)).
      apply track_all_false. unfold ref_flags. apply Forall_forall.
      intros b Hb. apply list_elem_of_In, in_map_iff in Hb as (n & <- & _).
      reflexivity.
  - cbn [ref_name] in Hx0. injection Hx0 as <-.
    apply track_all_false. unfold ref_flags. apply Forall_forall.
    intros b Hb. apply list_elem_of_In, in_map_iff in Hb as (n & <- & _).
    reflexivity.
Qed.

Lemma get_xla_wrapper_reference_variable_witness :
  ref_var example_env sig_to = Some "device" /\
  ref_var example_env sig_stack = Some "xlatens[0]" /\
  exists fg ctx' stmt,
    get_xla_wrapper example_env (text sig_stack) example_ctx =
      (Some (Some fg), ctx') /\
    FuncGen.code fg =
    wrapper_text example_env ctx' sig_stack (FuncGen.cppsig fg)
      "at::detail::infer_type(xlatens[0]).stack" stmt.
Proof.
  split; [vm_compute; reflexivity|]. split; [vm_compute; reflexivity|].
  destruct (get_xla_wrapper example_env (text sig_stack) example_ctx)
    as [[[fg|]|] ctx'] eqn:Hw; [|vm_compute in Hw; discriminate..].
  destruct (get_xla_wrapper_reference_variable example_env sig_stack
              example_ctx ctx' fg) as (stmt & Hcode).
  - split; vm_compute; reflexivity.
  - vm_compute. reflexivity.
  - apply (bool_decide_unpack _). vm_compute. exact I.
  - exact Hw.
  - exists fg, ctx', stmt. split; [reflexivity|]. rewrite Hcode.
    f_equal. vm_compute in Hw. injection Hw as _ <-. vm_compute. reflexivity.
Defined.
(** ** Return statement of a tuple *)

Lemma compact_lay_typelist_shape q args :
  exists cs, compact (locate q (lay_typelist args)) = Tree "typelist" cs.
Proof. destruct args; eexists; reflexivity. Qed.

Lemma filtered_out_lay_type q t :
  filtered_out (locate q (lay_type t)) = false.
Proof. now destruct t. Qed.

Lemma extract_list_lay_typelist args : forall q l,
  exists nodes,
    extract_list (compact (locate q (lay_typelist args))) l =
      Some (l ++ nodes) /\
    Forall2 type_node (types_of args) nodes.
Proof.
  induction args as [t|t g r IH]; intros q l.
  - exists [compact (locate q (lay_type t))]. split.
    + cbn [lay_typelist]. rewrite compact_locate_tree.
      cbn [locate_list compact_list]. rewrite filtered_out_lay_type.
      reflexivity.
    + repeat constructor. now exists q.
  - destruct (IH (q + width (lay_type t) + (py_len g + py_len ","))
                (l ++ [compact (locate q (lay_type t))]))
      as (nodes & Hex & Hall).
    exists (compact (locate q (lay_type t)) :: nodes). split.
    + cbn [lay_typelist]. rewrite compact_locate_tree.
      cbn [locate_list compact_list]. rewrite filtered_out_lay_type.
      cbn [filtered_out tok locate anonymous existsb
           String.eqb Ascii.eqb Bool.eqb orb width].
      destruct (compact_lay_typelist_shape
                  (q + width (lay_type t) + (py_len g + py_len ",")) r)
        as [cs Hcs].
      assert (filtered_out
                (locate (q + width (lay_type t) + (py_len g + py_len ","))
                   (lay_typelist r)) = false) as ->
        by (now destruct r).
      cbn [extract_list]. rewrite Hcs in *.
      cbn [String.eqb Ascii.eqb Bool.eqb].
      rewrite Hex. now rewrite <- app_assoc.
    + constructor; [now exists q|assumption].
Qed.

Lemma py_nth_1 {A} (a b : A) (l : list A) : py_nth (a :: b :: l) 1 = Some b.
Proof. reflexivity. Qed.

Lemma tuple_type_list_template p g n glt args ggt r :
  exists nodes,
    tuple_type_list
      (compact (locate p (lay_type (MkType None (Template g n glt args ggt) r))))
      = Some nodes /\
    Forall2 type_node (types_of args) nodes.
Proof.
  destruct (extract_list_lay_typelist args
              (p + (py_len g + py_len n) + (py_len glt + py_len "<")) [])
    as (nodes & Hex & Hall).
  exists nodes. split; [|exact Hall].
  destruct (compact_lay_typelist_shape
              (p + (py_len g + py_len n) + (py_len glt + py_len "<")) args)
    as [cs Hcs].
  unfold tuple_type_list. cbn [lay_type lay_core app].
  rewrite !compact_locate_tree. cbn [locate_list compact_list].
  change (filtered_out (locate p (LTree "core_type" ?x))) with false.
  rewrite compact_locate_tree. cbn [locate_list compact_list].
  change (filtered_out (locate p (LTree "template" ?x))) with false.
  rewrite compact_locate_tree.
  cbn [locate_list compact_list tok locate filtered_out anonymous existsb
       String.eqb Ascii.eqb Bool.eqb orb width].
  assert (filtered_out
            (locate (p + (py_len g + py_len n) + (py_len glt + py_len "<"))
               (lay_typelist args)) = false) as -> by (now destruct args).
  cbn [children mbind option_bind]. rewrite !py_nth_0.
  cbn [mbind option_bind is_Tree_with String.eqb Ascii.eqb Bool.eqb assert
       children].
  rewrite !py_nth_0.
  cbn [mbind option_bind is_Tree_with String.eqb Ascii.eqb Bool.eqb assert
       children].
  rewrite py_nth_1.
  cbn [mbind option_bind]. exact Hex.
Qed.

(** [get_return_value] on the node of a type. *)
Lemma get_return_value_node t n rname param var ref :
  type_node t n ->
  get_return_value n rname param var ref =
  if type_const t || type_ref t then
    prm ← param; name ← param_name prm; Some (Some name)
  else if negb (String.eqb (core_name t) "Tensor") then Some rname
  else
    r ← ref; name ← param_name r;
    Some (Some ("bridge::CreateXlaTensor(" +:+ py_str_opt rname +:+
                ", bridge::GetXlaDevice(" +:+ name +:+ "))")).
Proof.
  intros [p ->]. unfold get_return_value.
  rewrite type_core_lay_type, type_is_const_lay_type.
  cbn [mbind option_bind].
  destruct (type_const t); cbn [orb mbind option_bind]; [reflexivity|].
  rewrite type_is_ref_lay_type. cbn [mbind option_bind].
  destruct (type_ref t); reflexivity.
Qed.

Lemma py_join_concat v vs :
  py_join ", " (v :: vs) = v +:+ concat_s (map (fun v => ", " +:+ v) vs).
Proof.
  revert v. induction vs as [|w vs IH]; intros v.
  - cbn. now rewrite app_nil_r_s.
  - change (py_join ", " (v :: w :: vs))
      with (v +:+ ", " +:+ py_join ", " (w :: vs)).
    rewrite IH. cbn [map]. unfold concat_s. cbn [fold_right].
    now rewrite !app_assoc_s.
Qed.

Lemma tuple_entry_node {B} ps pnodes ref i t n var (k : string -> option B) :
  Forall2 param_node ps pnodes ->
  type_node t n ->
  (v ← get_return_value n
         (Some ("std::get<" +:+ pretty (Z.of_nat i) +:+ ">(" +:+
                py_str_opt (Some _RESULT_NAME) +:+ ")"))
         (list_get pnodes i) var ref;
   v ← v; k v) =
  (v ← tuple_entry ps (r ← ref; param_name r) i t; k v).
Proof.
  intros Hall Hn. rewrite (get_return_value_node t n _ _ _ _ Hn).
  unfold tuple_entry, list_get.
  destruct (type_const t || type_ref t).
  - destruct (pnodes !! i) as [pn|] eqn:Hpn.
    + destruct (Forall2_lookup_r _ _ _ _ _ (param_nodes_names _ _ Hall) Hpn)
        as (prm & -> & Hname).
      cbn [mbind option_bind]. rewrite Hname. reflexivity.
    + assert (ps !! i = None) as ->; [|reflexivity].
      apply lookup_ge_None. rewrite (Forall2_length _ _ _ Hall).
      now apply lookup_ge_None.
  - destruct (negb (String.eqb (core_name t) "Tensor")); [reflexivity|].
    destruct ref as [r|]; [|reflexivity]. cbn [mbind option_bind].
    destruct (param_name r); reflexivity.
Qed.

Lemma get_tuple_return_from_later ps pnodes pv ref ts nodes :
  Forall2 param_node ps pnodes ->
  Forall2 type_node ts nodes ->
  forall i retstr,
  get_tuple_return_from nodes (S i) retstr (Some _RESULT_NAME) pnodes pv
    ref =
  vs ← tuple_entries ps (r ← ref; param_name r) (S i) ts;
  Some (retstr +:+ concat_s (map (fun v => ", " +:+ v) vs)).
Proof.
  intros Hps. induction 1 as [|t n ts nodes Hn _ IH]; intros i retstr.
  - cbn. now rewrite app_nil_r_s.
  - cbn [get_tuple_return_from tuple_entries Nat.ltb Nat.leb].
    rewrite (tuple_entry_node ps pnodes ref (S i) t n _ _ Hps Hn).
    destruct (tuple_entry ps _ (S i) t) as [v|]; [|reflexivity].
    cbn [mbind option_bind]. rewrite IH.
    destruct (tuple_entries ps _ (S (S i)) ts) as [vs|]; [|reflexivity].
    cbn [mbind option_bind map]. unfold concat_s. cbn [fold_right].
    now rewrite !app_assoc_s.
Qed.

(** The value a tuple is returned as. *)
Lemma get_tuple_return_entries ps pnodes pv ref t rts p g n glt args ggt r :
  Forall2 param_node ps pnodes ->
  t = MkType None (Template g n glt args ggt) r ->
  get_tuple_return (compact (locate p (lay_type t))) rts (Some _RESULT_NAME)
    pnodes pv ref =
  vs ← tuple_entries ps (r ← ref; param_name r) 0 (types_of args);
  Some (rts +:+ "(" +:+ py_join ", " vs +:+ ")").
Proof.
  intros Hps ->. unfold get_tuple_return.
  destruct (tuple_type_list_template p g n glt args ggt r)
    as (nodes & -> & Hall).
  cbn [mbind option_bind].
  assert (exists t ts, types_of args = t :: ts) as (t & ts & Hts)
    by (destruct args; cbn; eauto).
  rewrite Hts in *. inversion Hall as [|? n' ? nodes' Hn Hall']; subst.
  cbn [get_tuple_return_from tuple_entries Nat.ltb Nat.leb].
  rewrite (tuple_entry_node ps pnodes ref 0 t n' _ _ Hps Hn).
  destruct (tuple_entry ps _ 0 t) as [v|]; [|reflexivity].
  cbn [mbind option_bind].
  rewrite (get_tuple_return_from_later ps pnodes pv ref ts nodes' Hps Hall').
  destruct (tuple_entries ps _ 1 ts) as [vs|]; [|reflexivity].
  cbn [mbind option_bind]. rewrite py_join_concat.
  now rewrite !app_assoc_s.
Qed.


Lemma py_slice_prefix (a b : string) : py_slice (a +:+ b) 0 (py_len a) = a.
Proof.
  pose proof (py_slice_mid "" a b) as H. rewrite app_nil_l_s in H.
  change (py_len "") with 0 in H. now rewrite Z.add_0_l in H.
Qed.

(** The text [get_return_type_str] cuts out of a signature whose name comes
    one space behind the return type: the return type. *)
Lemma get_return_type_str_text sg :
  gap_name sg = " " ->
  get_return_type_str (xtree_of sg) (text sg) =
  Some (ltext (lay_type (return_type sg))).
Proof.
  intros Hgap. rewrite xtree_of_parts. unfold get_return_type_str.
  cbn [children mbind option_bind]. rewrite py_nth_1.
  cbn [mbind option_bind lay_fnname locate is_Tree_with String.eqb Ascii.eqb
       Bool.eqb assert children tok].
  rewrite py_nth_0. cbn [mbind option_bind]. f_equal.
  rewrite Hgap. change (py_len " ") with 1.
  replace (off_name sg + 1 + 1 - 2) with (off_name sg) by lia.
  unfold off_name. rewrite <- py_len_ltext, text_parts.
  apply py_slice_prefix.
Qed.

Lemma pick_name ps nodes i :
  Forall2 param_node ps nodes ->
  (r ← pick nodes i; param_name r) = p_name <$> pick ps i.
Proof.
  intros Hall. destruct (pick nodes i) as [r|] eqn:Hr.
  - destruct (pick_node_name _ _ _ _ Hall Hr) as (prm & -> & Hname).
    exact Hname.
  - destruct i as [i|]; [|reflexivity]. cbn [pick] in *.
    assert (ps !! i = None) as ->; [|reflexivity].
    apply lookup_ge_None. rewrite (Forall2_length _ _ _ Hall).
    now apply lookup_ge_None.
Qed.

(** A wrapper whose return type is a tuple, with the name one space behind
    the return type, ends in the return of a tuple of the rewritten return
    type with one entry for each element type, in order: the parameter at
    the position of the element when the element type is const or a
    reference, the element of the result when it is not a tensor, and a new
    XLA tensor made from the element of the result on the device of the
    elected reference parameter otherwise. *)
Theorem get_xla_wrapper_tuple_return (E : Env) (sg : Signature)
    (ctx ctx' : Context) (fg : FuncGen.t) (g glt ggt : string)
    (args : TypeList) (r : option (string * RefKind)) :
  parses E sg ->
  xparser E (text (rw_sig (type_nsmap E) sg)) =
    Some (xtree_of (rw_sig (type_nsmap E) sg)) ->
  return_type sg = MkType None (Template g "std::tuple" glt args ggt) r ->
  gap_name sg = " " ->
  get_xla_wrapper E (text sg) ctx = (Some (Some fg), ctx') ->
  exists callee entries,
    tuple_entries (parameters sg)
      (p_name <$>
       pick (parameters sg)
         (elect (function_options E !! mapsig_of sg) (parameters sg)))
      0 (types_of args) = Some entries /\
    FuncGen.code fg =
    wrapper_text E ctx' sg (FuncGen.cppsig fg) callee
      ("  return " +:+
       ltext (lay_type (return_type (rw_sig (type_nsmap E) sg))) +:+ "(" +:+
       py_join ", " entries +:+ ");" +:+ nl).
Proof.
  intros Hp Hrw Hret Hgap Hw.
  destruct (get_xla_wrapper_exact_xr E sg ctx fg ctx' Hp Hrw Hw)
    as (nodes & x0 & rts & stmt & Hall & _ & Hrts & Hstmt & _ & _ & Hcode).
  rewrite get_return_type_str_text in Hrts by exact Hgap.
  injection Hrts as <-.
  unfold generate_return_stmt in Hstmt. rewrite tree_of_parts in Hstmt.
  cbn [children mbind option_bind] in Hstmt. rewrite !py_nth_0 in Hstmt.
  cbn [mbind option_bind] in Hstmt. rewrite type_core_lay_type in Hstmt.
  cbn [mbind option_bind] in Hstmt.
  assert (core_name (return_type sg) = "std::tuple") as Hcore
    by (now rewrite Hret).
  rewrite Hcore in Hstmt. cbn [String.eqb Ascii.eqb Bool.eqb] in Hstmt.
  assert (rname_of (return_type sg) = Some _RESULT_NAME) as Hrn.
  { unfold rname_of, returns_nothing. now rewrite Hcore. }
  rewrite Hrn in Hstmt.
  rewrite (get_tuple_return_entries (parameters sg) nodes _ _ _ _ 0 g
             "std::tuple" glt args ggt r Hall Hret) in Hstmt.
  rewrite (pick_name _ _ _ Hall) in Hstmt.
  destruct (tuple_entries _ _ 0 (types_of args)) as [entries|];
    [|discriminate].
  cbn [mbind option_bind py_str_opt] in Hstmt. injection Hstmt as <-.
  eexists. exists entries. split; [reflexivity|]. rewrite Hcode.
  now rewrite !app_assoc_s.
Qed.

Lemma get_xla_wrapper_tuple_return_witness :
  text sig_max =
    "std::tuple<Tensor,Tensor> max(const Tensor & self, int64_t dim)" /\
  exists fg ctx' callee,
    get_xla_wrapper example_env2 (text sig_max) example_ctx =
      (Some (Some fg), ctx') /\
    FuncGen.code fg =
    wrapper_text example_env2 ctx' sig_max (FuncGen.cppsig fg) callee
      ("  return std::tuple<at::Tensor,at::Tensor>(" +:+
       "bridge::CreateXlaTensor(std::get<0>(x_result), bridge::GetXlaDevice(self)), " +:+
       "bridge::CreateXlaTensor(std::get<1>(x_result), bridge::GetXlaDevice(self))" +:+
       ");" +:+ nl).
Proof.
  split; [vm_compute; reflexivity|].
  destruct (get_xla_wrapper example_env2 (text sig_max) example_ctx)
    as [[[fg|]|] ctx'] eqn:Hw; [|vm_compute in Hw; discriminate..].
  destruct (get_xla_wrapper_tuple_return example_env2 sig_max example_ctx
              ctx' fg "" "" ""
              (TMore (plain "" "Tensor") "" (TOne (plain "" "Tensor"))) None)
    as (callee & entries & Hent & Hcode).
  - split; vm_compute; reflexivity.
  - vm_compute. reflexivity.
  - reflexivity.
  - reflexivity.
  - exact Hw.
  - exists fg, ctx', callee. split; [reflexivity|]. rewrite Hcode.
    vm_compute in Hent. injection Hent as <-. f_equal.
Defined.
(** ** The counters of the names *)

Lemma get_function_signature_ctx t orig_sig ctx :
  (get_function_signature t orig_sig gen_fnname ctx).2 = ctx \/
  exists x, (get_function_signature t orig_sig gen_fnname ctx).2 =
            count_name x ctx.
Proof.
  unfold get_function_signature, mbind, M_bind, bind, lift, ret.
  destruct (typed_child t 0 "type"); [|now left].
  destruct (emit_string _ _ _); [|now left].
  destruct (option_bind _ _ _ (typed_child t 1 "fnname")) as [fnname|];
    [|now left].
  destruct (value fnname) as [x|]; [|now left].
  rewrite gen_fnname_eq. right. exists x.
  destruct (typed_child t 3 "params"); [|reflexivity].
  destruct (emit_string _ _ _); reflexivity.
Qed.

(** Whatever the text, [get_xla_wrapper] leaves the context as it was or
    with one counter stepped once; it leaves it as it was, and raises, when
    a parser refuses the text or the rewritten text.  The corpora and the
    mode are never changed. *)
Theorem get_xla_wrapper_counts_once (E : Env) (ts : string) (ctx : Context) :
  ((get_xla_wrapper E ts ctx).2 = ctx \/
   exists x, (get_xla_wrapper E ts ctx).2 = count_name x ctx) /\
  (parser E ts = None \/ xparser E ts = None \/
   (exists rw, rewrite_signature E ts (type_nsmap E) = Some rw /\
               xparser E rw = None) ->
   get_xla_wrapper E ts ctx = (None, ctx)) /\
  functions_data (get_xla_wrapper E ts ctx).2 = functions_data ctx /\
  native_functions_data (get_xla_wrapper E ts ctx).2 =
    native_functions_data ctx /\
  gen_class_mode (get_xla_wrapper E ts ctx).2 = gen_class_mode ctx.
Proof.
  assert ((get_xla_wrapper E ts ctx).2 = ctx \/
          exists x, (get_xla_wrapper E ts ctx).2 = count_name x ctx) as Hctx.
  { rewrite get_xla_wrapper_unfold. unfold mbind, M_bind, bind, lift.
    destruct (parser E ts) as [tree|]; [|now left].
    destruct (xparser E ts) as [xtree|]; [|now left].
    destruct (create_map_sig xtree ts) as [mapsig|]; [|now left].
    destruct (rewrite_signature E ts (type_nsmap E)) as [rwsig|];
      [|now left].
    destruct (xparser E rwsig) as [rwxtree|]; [|now left].
    destruct (get_parameters tree) as [params|]; [|now left].
    cbv zeta.
    destruct (get_reference_param params _) as [ref|]; [|now left].
    pose proof (get_function_signature_ctx rwxtree rwsig ctx) as Hc.
    destruct (get_function_signature rwxtree rwsig gen_fnname ctx)
      as [[[[sig fname] xfname]|] ctx1]; cbn [snd] in *; [|exact Hc].
    destruct (is_blacklisted_fn E fname mapsig); [exact Hc|].
    now rewrite wrapper_body_ctx. }
  split; [exact Hctx|]. split.
  - rewrite get_xla_wrapper_unfold. unfold mbind, M_bind, bind, lift.
    intros [Hn|[Hn|(rw & Hrw & Hn)]].
    + now rewrite Hn.
    + rewrite Hn. now destruct (parser E ts).
    + rewrite Hrw. destruct (parser E ts); [|reflexivity].
      destruct (xparser E ts) as [xtree|]; [|reflexivity].
      destruct (create_map_sig xtree ts); [|reflexivity]. now rewrite Hn.
  - destruct Hctx as [->|[x ->]]; [auto|]. apply functions_data_count_name.
Qed.

(** The names of the overloads.  In flat mode, after a batch of parsed
    signatures from a context that has not counted the name, the wrapper of
    a further signature is named [xla_] and the name of the function when
    no signature of the batch has that name, and with the number of the
    signatures of the batch that have it behind that otherwise, whether or
    not they got a wrapper. *)
Theorem overload_naming (E : Env) (pre : list Signature) (sg : Signature)
    (ctx ctx' : Context) (fg : FuncGen.t) :
  gen_class_mode ctx = false ->
  defdb ctx !! name sg = None ->
  Forall (readable E) pre ->
  readable E sg ->
  get_xla_wrapper E (text sg) (generate_fgens E (map text pre) ctx).2 =
    (Some (Some fg), ctx') ->
  FuncGen.xfunc fg =
    if (named (name sg) pre =? 0)%nat then "xla_" +:+ name sg
    else "xla_" +:+ name sg +:+
         ("_" +:+ pretty (Z.of_nat (named (name sg) pre))).
Proof.
  intros Hm Hfresh Hpre [Hp Hrw] Hw.
  destruct (generate_fgens_defdb E pre ctx Hm Hpre) as [Hmode Hdb].
  specialize (Hdb (name sg)).
  destruct (get_xla_wrapper_result E sg
              (generate_fgens E (map text pre) ctx).2 Hp Hrw)
    as (n & nodes & code & tf & v & pv & xr & rts & _ & _ & Heq).
  rewrite Heq in Hw. clear Heq.
  destruct (is_blacklisted_fn E (name sg) (mapsig_of sg)); [discriminate|].
  destruct (generate_return_stmt _ _ _ _ _ _ _); [|discriminate].
  injection Hw as <- _. cbn [FuncGen.xfunc].
  unfold wrapper_name. rewrite Hmode, Hdb.
  destruct (named (name sg) pre =? 0)%nat.
  - rewrite Hfresh. now rewrite app_nil_r_s.
  - unfold overloads. rewrite Hfresh. cbn [default].
    now rewrite Z.add_0_l.
Qed.

Lemma overload_naming_witness :
  map FuncGen.xfunc
    (generate_fgens example_env
       (map text [sig_add; sig_relu; sig_add_spaced; sig_add_tight])
       example_ctx).1 =
    ["xla_add"; "xla_relu"; "xla_add_1"; "xla_add_2"] /\
  (FuncGen.xfunc <$>
     mjoin (get_xla_wrapper example_env (text sig_add_tight)
              (generate_fgens example_env
                 (map text [sig_add; sig_relu; sig_add_spaced])
                 example_ctx).2).1) = Some "xla_add_2".
Proof.
  split; [vm_compute; reflexivity|].
  destruct (get_xla_wrapper example_env (text sig_add_tight)
              (generate_fgens example_env
                 (map text [sig_add; sig_relu; sig_add_spaced])
                 example_ctx).2)
    as [[[fg|]|] ctx'] eqn:Hw; [|vm_compute in Hw; discriminate..].
  cbn. f_equal.
  rewrite (overload_naming example_env [sig_add; sig_relu; sig_add_spaced]
             sig_add_tight example_ctx ctx' fg).
  - vm_compute. reflexivity.
  - reflexivity.
  - reflexivity.
  - repeat constructor; vm_compute; reflexivity.
  - repeat split; vm_compute; reflexivity.
  - exact Hw.
Defined.
(** ** The span of a tree *)

Lemma first_match_locate l :
  nonempty l = true ->
  forall p, first_match (locate p l) = Some (p + py_len (lead l)).
Proof.
  induction l as [ty g s v|d cs IH] using Lay_ind'; intros Hne p.
  - cbn. f_equal. lia.
  - rewrite locate_tree. cbn [nonempty] in Hne.
    apply andb_true_iff in Hne as [Hcs Hall].
    destruct cs as [|c cs]; [discriminate|].
    cbn [forallb] in Hall. apply andb_true_iff in Hall as [Hc _].
    cbn [locate_list first_match lead]. inversion IH; subst. auto.
Qed.

Lemma lead_lay_sig sg : lead (lay_sig sg) = leading sg.
Proof.
  unfold leading. cbn [lay_sig lead].
  destruct (return_type sg) as [[g|] [g' n|g' n glt args ggt] r]; reflexivity.
Qed.

(** [first_match] and [last_match] on the tree of a parsed signature give
    the offsets of the first character of the first token and of the end of
    the last token, and the text between the two offsets is what the emitter
    writes under the identity policy. *)
Theorem match_span (sg : Signature) :
  first_match (xtree_of sg) = Some (py_len (leading sg)) /\
  last_match (xtree_of sg) = Some (py_len (text sg) - py_len (trailing sg)) /\
  rewrite_sig (xtree_of sg) (text sg) emit_all =
    Some (py_slice (text sg) (py_len (leading sg))
            (py_len (text sg) - py_len (trailing sg))).
Proof.
  destruct (lay_sig_good sg) as [Hne _].
  destruct (rewrite_sig_emit_all sg) as (r & Hr & Htext).
  assert (py_len (text sg) - py_len (trailing sg) =
          py_len (leading sg) + py_len r) as Hlen.
  { rewrite Htext, !py_len_app. lia. }
  split; [|split].
  - unfold xtree_of. rewrite first_match_locate by exact Hne.
    now rewrite lead_lay_sig.
  - unfold xtree_of. rewrite last_match_locate by exact Hne.
    f_equal. unfold text. rewrite py_len_app, py_len_ltext. lia.
  - rewrite Hr, Hlen. f_equal. rewrite Htext at 1.
    symmetry. apply py_slice_mid.
Qed.
(** * The function a wrapper calls, and the reference parameter (C6) *)

Lemma elect_lt fnopts ps i : elect fnopts ps = Some i -> (i < length ps)%nat.
Proof.
  unfold elect, elect_default.
  destruct (first_index (fun p => fnopts_names fnopts (p_name p)) ps)
    as [j|] eqn:H1.
  { intros [= <-]. apply (first_index_lt _ _ _ H1). }
  destruct (first_index is_primary ps) as [j|] eqn:H2.
  { intros [= <-]. apply (first_index_lt _ _ _ H2). }
  destruct (last_index is_opaque ps) as [j|] eqn:H3.
  { intros [= <-]. apply (last_index_lt _ _ _ H3). }
  intros H4. apply (first_index_lt _ _ _ H4).
Qed.

(** When a flag is set, the variable tracked is the argument at a flag that
    is set. *)
Lemma track_flagged flags : forall args xr,
  length flags = length args ->
  (exists i, flags !! i = Some true) ->
  exists j a,
    flags !! j = Some true /\ args !! j = Some a /\
    track flags args xr = Some a.
Proof.
  induction flags as [|b flags IH]; intros args xr Hlen [i Hi].
  { rewrite lookup_nil in Hi. discriminate. }
  destruct args as [|a0 args]; [discriminate|].
  cbn [track]. destruct (existsb id flags) eqn:He.
  - apply existsb_exists in He as (x & Hin & Hx). unfold id in Hx. subst x.
    apply list_elem_of_In, list_elem_of_lookup in Hin as [k Hk].
    destruct (IH args (if b then Some a0 else xr)) as (j & a & Hj & Ha & Ht).
    + cbn in Hlen. lia.
    + eauto.
    + exists (S j), a. auto.
  - assert (Forall (fun b => b = false) flags) as Hall.
    { apply Forall_forall. intros x Hx. destruct x; [|reflexivity].
      assert (existsb id flags = true) as Hc; [|congruence].
      apply existsb_exists. exists true. split; [|reflexivity].
      now apply list_elem_of_In. }
    rewrite track_all_false by exact Hall.
    destruct i as [|i].
    + injection Hi as ->. exists 0%nat, a0. auto.
    + cbn in Hi. rewrite Forall_lookup in Hall.
      specialize (Hall i true Hi). discriminate.
Qed.

(** Without an override, the variable the loop over the parameters leaves
    for the reference parameter is the argument of a parameter that has the
    name of the elected one. *)
Lemma track_reference ps nodes fnopts i r x0 args :
  Forall2 param_node ps nodes ->
  nodes !! i = Some r ->
  fnopts_has_ref_param fnopts = false ->
  length args = length ps ->
  exists j a,
    (p_name <$> ps !! j) = (p_name <$> ps !! i) /\
    args !! j = Some a /\
    track (ref_flags nodes (Some r) fnopts) args x0 = Some a.
Proof.
  intros Hall Hr Hno Hlen.
  pose proof (param_nodes_names _ _ Hall) as Hnames.
  assert (forall k n, nodes !! k = Some n ->
            ref_flags nodes (Some r) fnopts !! k = Some (node_eqb n r))
    as Hflag.
  { intros k n Hn. unfold ref_flags. rewrite Hno.
    change (map ?f nodes) with (f <$> nodes).
    rewrite list_lookup_fmap, Hn. cbn. now rewrite andb_true_r. }
  destruct (track_flagged (ref_flags nodes (Some r) fnopts) args x0)
    as (j & a & Hj & Ha & Ht).
  - unfold ref_flags. rewrite length_map, Hlen.
    symmetry. apply (Forall2_length _ _ _ Hall).
  - exists i. rewrite (Hflag i r Hr). now rewrite node_eqb_refl.
  - exists j, a. split; [|auto].
    assert (is_Some (nodes !! j)) as [n Hn].
    { apply lookup_lt_is_Some. apply lookup_lt_Some in Hj.
      unfold ref_flags in Hj. now rewrite length_map in Hj. }
    rewrite (Hflag j n Hn) in Hj. injection Hj as Hj.
    apply node_eqb_param_name in Hj.
    destruct (Forall2_lookup_r _ _ _ _ _ Hnames Hn) as (pj & -> & Hnj).
    destruct (Forall2_lookup_r _ _ _ _ _ Hnames Hr) as (pi & -> & Hni).
    cbn. rewrite Hnj, Hni in Hj. exact Hj.
Qed.

(** C6.  Every wrapper [get_xla_wrapper] writes for a parsed signature calls
    one function, and that function is: the entry of the table of functions
    written by hand for the name, when there is one that is not empty; else
    [at::] and the name, when the name occurs in the corpus of generic
    functions after a space and before an opening parenthesis; else
    [at::native::] and the name, when it so occurs in the corpus of native
    functions; else the function of that name of the type
    [at::detail::infer_type] gives for the elected reference parameter.  The
    text written for that parameter is [None] when no parameter is elected,
    the name of the elected parameter when the signature has an override,
    and else the argument the wrapper passes for a parameter that has the
    name of the elected one: for the elected one itself, when the
    parameters have different names. *)
Theorem get_xla_wrapper_callee (E : Env) (sg : Signature) (ctx ctx' : Context)
    (fg : FuncGen.t) :
  parses E sg ->
  xparser E (text (rw_sig (type_nsmap E) sg)) =
    Some (xtree_of (rw_sig (type_nsmap E) sg)) ->
  get_xla_wrapper E (text sg) ctx = (Some (Some fg), ctx') ->
  exists before after callee xr,
    FuncGen.code fg = before +:+ call_of sg callee +:+ after /\
    match elect (function_options E !! mapsig_of sg) (parameters sg) with
    | None => xr = None
    | Some i =>
        if fnopts_has_ref_param (function_options E !! mapsig_of sg)
        then xr = p_name <$> parameters sg !! i /\ is_Some xr
        else
          exists j,
            (p_name <$> parameters sg !! j) = (p_name <$> parameters sg !! i) /\
            xr = args_of E (name sg) "xlatens" 0 (parameters sg) !! j /\
            is_Some xr
    end /\
    (NoDup (map p_name (parameters sg)) -> xr = ref_var E sg) /\
    (forall f, xla_functions E !! name sg = Some f -> f <> "" -> callee = f) /\
    (default "" (xla_functions E !! name sg) = "" ->
     (occurs (symbol_pattern (name sg)) (functions_data ctx) ->
        callee = "at::" +:+ name sg) /\
     (~ occurs (symbol_pattern (name sg)) (functions_data ctx) ->
      occurs (symbol_pattern (name sg)) (native_functions_data ctx) ->
        callee = "at::native::" +:+ name sg) /\
     (~ occurs (symbol_pattern (name sg)) (functions_data ctx) ->
      ~ occurs (symbol_pattern (name sg)) (native_functions_data ctx) ->
        callee =
        "at::detail::infer_type(" +:+ py_str_opt xr +:+ ")." +:+ name sg)).
Proof.
  intros Hp Hrw Hw.
  destruct (get_xla_wrapper_exact_xr E sg ctx fg ctx' Hp Hrw Hw)
    as (nodes & x0 & rts & stmt & Hall & Hx0 & _ & _ & Hctx & _ & Hcode).
  set (fnopts := function_options E !! mapsig_of sg) in *.
  remember (elect fnopts (parameters sg)) as el eqn:Hel. symmetry in Hel.
  set (args := args_of E (name sg) "xlatens" 0 (parameters sg)) in *.
  set (xr := track (ref_flags nodes (pick nodes el) fnopts) args x0) in *.
  assert (length args = length (parameters sg)) as Hlen
    by apply length_args_of.
  assert (forall r, Forall (fun b => b = false)
                      (ref_flags nodes r fnopts) ->
                    track (ref_flags nodes r fnopts) args x0 = x0) as Hoff.
  { intros r Hf. now apply track_all_false. }
  assert (match el with
          | None => xr = None
          | Some i =>
              if fnopts_has_ref_param fnopts
              then xr = p_name <$> parameters sg !! i /\ is_Some xr
              else
                exists j,
                  (p_name <$> parameters sg !! j) =
                    (p_name <$> parameters sg !! i) /\
                  xr = args !! j /\ is_Some xr
          end) as Htie.
  { destruct el as [i|].
    - pose proof (elect_lt _ _ _ Hel) as Hi.
      assert (is_Some (nodes !! i)) as [r Hr].
      { apply lookup_lt_is_Some.
        now rewrite <- (Forall2_length _ _ _ Hall). }
      destruct (Forall2_lookup_r _ _ _ _ _ (param_nodes_names _ _ Hall) Hr)
        as (prm & Hprm & Hname).
      subst xr. cbn [pick] in *. rewrite Hr in *.
      cbn [ref_name] in Hx0. rewrite Hname in Hx0.
      cbn [mbind option_bind] in Hx0. injection Hx0 as <-.
      destruct (fnopts_has_ref_param fnopts) eqn:Hhas.
      + rewrite Hoff.
        * rewrite Hprm. cbn. eauto.
        * unfold ref_flags. rewrite Hhas. apply Forall_forall.
          intros b Hb.
          apply list_elem_of_In, in_map_iff in Hb as (n & <- & _).
          apply andb_false_r.
      + destruct (track_reference _ _ fnopts i r (Some (p_name prm)) args
                    Hall Hr Hhas Hlen) as (j & a & Hj & Ha & Ht).
        exists j. rewrite Ht, Ha. eauto.
    - subst xr. cbn [pick ref_name] in *. injection Hx0 as <-.
      apply Hoff. unfold ref_flags. apply Forall_forall. intros b Hb.
      apply list_elem_of_In, in_map_iff in Hb as (n & <- & _). reflexivity. }
  exists (header_of ctx' (FuncGen.cppsig fg) +:+
          preludes_of E (name sg) (parameters sg) +:+
          TensorFetcher.generate
            (fetch (TensorFetcher.init "xlatens") (parameters sg))).
  eexists. exists (get_handling_function E ctx' (name sg) xr), xr.
  split; [|split; [exact Htie|split]].
  - rewrite Hcode. unfold wrapper_text. rewrite !app_assoc_s. reflexivity.
  - intros Hnd. unfold ref_var. fold fnopts. rewrite Hel. fold args.
    destruct el as [i|]; cbn [mbind option_bind]; [|exact Htie].
    destruct (fnopts_has_ref_param fnopts); [apply Htie|].
    destruct Htie as (j & Hj & -> & _). f_equal.
    pose proof (elect_lt fnopts (parameters sg) i Hel) as Hi.
    assert (is_Some (parameters sg !! i)) as [pi Hpi].
    { apply lookup_lt_is_Some. exact Hi. }
    rewrite Hpi in Hj. destruct (parameters sg !! j) as [pj|] eqn:Hpj;
      [|discriminate].
    injection Hj as Hj.
    apply (NoDup_lookup _ j i (p_name pj) Hnd).
    + change (map p_name (parameters sg)) with (p_name <$> parameters sg).
      now rewrite list_lookup_fmap, Hpj.
    + change (map p_name (parameters sg)) with (p_name <$> parameters sg).
      now rewrite list_lookup_fmap, Hpi, Hj.
  - destruct (functions_data_count_name (name sg) ctx) as (Hf & Hn & _).
    rewrite <- Hctx in Hf, Hn. rewrite <- Hf, <- Hn.
    apply get_handling_function_order.
Qed.

Lemma get_xla_wrapper_callee_witness :
  text sig_stack = "Tensor stack(TensorList tensors, Tensor other)" /\
  exists before after,
    (FuncGen.code <$>
       mjoin (get_xla_wrapper example_env (text sig_stack) example_ctx).1) =
    Some (before +:+
          call_of sig_stack "at::detail::infer_type(xlatens[0]).stack" +:+
          after).
Proof.
  split; [reflexivity|].
  destruct (get_xla_wrapper example_env (text sig_stack) example_ctx)
    as [[[fg|]|] ctx'] eqn:Hw; [|vm_compute in Hw; discriminate..].
  destruct (get_xla_wrapper_callee example_env sig_stack example_ctx ctx' fg)
    as (before & after & callee & xr & Hcode & _ & Hnd & _ & Hres).
  - split; vm_compute; reflexivity.
  - vm_compute. reflexivity.
  - exact Hw.
  - exists before, after. cbn. rewrite Hcode.
    assert (callee = "at::detail::infer_type(xlatens[0]).stack") as ->;
      [|reflexivity].
    rewrite (proj2 (proj2 (Hres eq_refl))).
    + rewrite Hnd; [reflexivity|].
      apply (bool_decide_unpack _). vm_compute. exact I.
    + intros Hocc. apply py_find_occurs in Hocc. vm_compute in Hocc.
      discriminate.
    + intros Hocc. apply py_find_occurs in Hocc. vm_compute in Hocc.
      discriminate.
Defined.
(** * Signatures without a tensor parameter (C5) *)






(** The rule on examples: a tuple of integers and a boolean are returned by
    a wrapper without a reference parameter; a tensor by value, alone or in
    a tuple, makes the synthesis raise. *)
Example context_free_wrapper_examples :
  reference_free_return sig_sizes = true /\
  reference_free_return sig_is_signed = true /\
  reference_free_return sig_eye = false /\
  reference_free_return sig_make = false /\
  (FuncGen.xfunc <$>
     mjoin (get_xla_wrapper example_env (text sig_is_signed) example_ctx).1) =
    Some "xla_is_signed" /\
  (fg ← mjoin (get_xla_wrapper example_env3 (text sig_sizes) example_ctx).1;
   Some (py_slice (FuncGen.code fg) (-85) (py_len (FuncGen.code fg)))) =
    Some ("  return std::tuple<int64_t,int64_t>(std::get<0>(x_result), " +:+
          "std::get<1>(x_result));" +:+ nl +:+ "}") /\
  text sig_make = "std::tuple<Tensor,int64_t> make(int64_t n)" /\
  (get_xla_wrapper example_env3 (text sig_make) example_ctx).1 = None.
Proof. repeat split; vm_compute; reflexivity. Qed.
